(** * The Markdown file browser of the file-surfer agent

    A shallow embedding of [_markdown_file_browser.py]: the pagination of a
    document body into word-safe viewport pages, the page navigation, the
    incremental search with wrap-around, and the opening of a path with the
    conversion of loader failures into placeholder pages.
    The listing of a directory and the agent of [_file_surfer.py], which
    drives the browser by the function calls of a model, follow it.

    Python values are modelled as the code has them: an [int] is a [Z], a
    [str] is the list of its Unicode code points, a list index or a slice
    bound follows Python's rules for negative and out-of-range values, and an
    operation that can raise returns an explicit outcome. *)

From Stdlib Require Import ZArith NArith List Bool Lia Ascii String.
From Stdlib Require Import DecimalString.
Import ListNotations.
Local Open Scope Z_scope.

(** ** Python built-ins used by the browser *)

Module Py.

(** A [str] is a sequence of code points. *)
Definition char := N.
Definition str := list char.

(** An ASCII literal. *)
Definition lit (s : string) : str := List.map N_of_ascii (list_ascii_of_string s).

Definition len {A : Type} (l : list A) : Z := Z.of_nat (List.length l).

Fixpoint str_eqb (a b : str) : bool :=
  match a, b with
  | [], [] => true
  | x :: a', y :: b' => N.eqb x y && str_eqb a' b'
  | _, _ => false
  end.

(** [l[i]]: a negative index counts from the end; [None] is IndexError. *)
Definition getitem {A : Type} (l : list A) (i : Z) : option A :=
  if 0 <=? i then nth_error l (Z.to_nat i)
  else if - len l <=? i then nth_error l (Z.to_nat (len l + i))
  else None.

(** A slice bound is clamped into [0, len]. *)
Definition clamp (n i : Z) : Z :=
  if i <? 0 then Z.max 0 (n + i) else Z.min i n.

(** [l[a:b]]; never raises. *)
Definition slice {A : Type} (l : list A) (a b : Z) : list A :=
  let a' := clamp (len l) a in
  let b' := clamp (len l) b in
  firstn (Z.to_nat (b' - a')) (skipn (Z.to_nat a') l).

(** [list(range(a, b))]. *)
Definition range (a b : Z) : list Z :=
  List.map (fun k => a + Z.of_nat k) (seq 0 (Z.to_nat (b - a))).

(** [sep.join(parts)]. *)
Fixpoint join (sep : str) (parts : list str) : str :=
  match parts with
  | [] => []
  | [p] => p
  | p :: rest => p ++ sep ++ join sep rest
  end.

(** [str.isspace] on one code point. *)
Definition isspace (c : char) : bool :=
  ((9 <=? c) && (c <=? 13) || (28 <=? c) && (c <=? 32) || (c =? 133)
   || (c =? 160) || (c =? 5760) || (8192 <=? c) && (c <=? 8202)
   || (c =? 8232) || (c =? 8233) || (c =? 8239) || (c =? 8287)
   || (c =? 12288))%N.

Fixpoint lstrip (s : str) : str :=
  match s with
  | c :: s' => if isspace c then lstrip s' else s
  | [] => []
  end.

Definition rstrip (s : str) : str := rev (lstrip (rev s)).

(** [s.strip()]. *)
Definition strip (s : str) : str := rstrip (lstrip s).

Fixpoint startswith (s pre : str) : bool :=
  match pre, s with
  | [], _ => true
  | p :: pre', c :: s' => N.eqb p c && startswith s' pre'
  | _ :: _, [] => false
  end.

(** [s.replace(old, new)] for a non-empty [old]: the occurrences are taken
    from the left and do not overlap.  [skip] counts the characters of an
    occurrence that are still to be dropped. *)
Fixpoint replace_from (old new s : str) (skip : nat) : str :=
  match s with
  | [] => []
  | c :: s' =>
      match skip with
      | S k => replace_from old new s' k
      | O =>
          if startswith s old
          then new ++ replace_from old new s' (List.length old - 1)
          else c :: replace_from old new s' 0
      end
  end.

Definition replace (s old new : str) : str := replace_from old new s 0.

End Py.

Import Py.

(** ** Outcomes of the browser's operations *)

Inductive exn : Type :=
| IndexError
| ReError
| UnsupportedFormatException
| FileConversionException
| FileNotFoundError
| OtherError.

(** A reading of [time.time()]; the browser only stores it. *)
Definition timestamp : Type := Z.

(** A page is a pair of offsets [(start, end)]. *)
Definition page : Type := Z * Z.

(** The attributes of a [MarkdownFileBrowser] object.  [set_path] also
    assigns the two attributes [find_on_page_query] and
    [find_on_page_viewport], which no other method reads. *)
Record MarkdownFileBrowser : Type := mkBrowser {
  viewport_size : Z;
  history : list (str * timestamp);
  page_title : option str;
  viewport_current_page : Z;
  viewport_pages : list page;
  _page_content : str;
  _find_on_page_query : option str;
  _find_on_page_last_result : option Z;
  find_on_page_query : option str;
  find_on_page_viewport : option Z
}.

(** Attribute assignments. *)
Definition set_history (h : list (str * timestamp)) (b : MarkdownFileBrowser) :=
  mkBrowser (viewport_size b) h (page_title b) (viewport_current_page b)
    (viewport_pages b) (_page_content b) (_find_on_page_query b)
    (_find_on_page_last_result b) (find_on_page_query b) (find_on_page_viewport b).

Definition set_page_title (t : option str) (b : MarkdownFileBrowser) :=
  mkBrowser (viewport_size b) (history b) t (viewport_current_page b)
    (viewport_pages b) (_page_content b) (_find_on_page_query b)
    (_find_on_page_last_result b) (find_on_page_query b) (find_on_page_viewport b).

Definition set_viewport_current_page (i : Z) (b : MarkdownFileBrowser) :=
  mkBrowser (viewport_size b) (history b) (page_title b) i
    (viewport_pages b) (_page_content b) (_find_on_page_query b)
    (_find_on_page_last_result b) (find_on_page_query b) (find_on_page_viewport b).

Definition set_viewport_pages (ps : list page) (b : MarkdownFileBrowser) :=
  mkBrowser (viewport_size b) (history b) (page_title b) (viewport_current_page b)
    ps (_page_content b) (_find_on_page_query b)
    (_find_on_page_last_result b) (find_on_page_query b) (find_on_page_viewport b).

Definition set__page_content (c : str) (b : MarkdownFileBrowser) :=
  mkBrowser (viewport_size b) (history b) (page_title b) (viewport_current_page b)
    (viewport_pages b) c (_find_on_page_query b)
    (_find_on_page_last_result b) (find_on_page_query b) (find_on_page_viewport b).

Definition set__find_on_page_query (q : option str) (b : MarkdownFileBrowser) :=
  mkBrowser (viewport_size b) (history b) (page_title b) (viewport_current_page b)
    (viewport_pages b) (_page_content b) q
    (_find_on_page_last_result b) (find_on_page_query b) (find_on_page_viewport b).

Definition set__find_on_page_last_result (r : option Z) (b : MarkdownFileBrowser) :=
  mkBrowser (viewport_size b) (history b) (page_title b) (viewport_current_page b)
    (viewport_pages b) (_page_content b) (_find_on_page_query b)
    r (find_on_page_query b) (find_on_page_viewport b).

Definition set_find_on_page_query (q : option str) (b : MarkdownFileBrowser) :=
  mkBrowser (viewport_size b) (history b) (page_title b) (viewport_current_page b)
    (viewport_pages b) (_page_content b) (_find_on_page_query b)
    (_find_on_page_last_result b) q (find_on_page_viewport b).

Definition set_find_on_page_viewport (v : option Z) (b : MarkdownFileBrowser) :=
  mkBrowser (viewport_size b) (history b) (page_title b) (viewport_current_page b)
    (viewport_pages b) (_page_content b) (_find_on_page_query b)
    (_find_on_page_last_result b) (find_on_page_query b) v.

(** A method call returns a value and the updated object, raises with the
    object as it was when the exception left the method, or does not come
    back. *)
Inductive outcome (A : Type) : Type :=
| Returns (a : A) (b : MarkdownFileBrowser)
| Raises (e : exn) (b : MarkdownFileBrowser)
| Diverges.
Arguments Returns {A} a b.
Arguments Raises {A} e b.
Arguments Diverges {A}.

Definition M (A : Type) : Type := MarkdownFileBrowser -> outcome A.

Definition ret {A : Type} (a : A) : M A := fun b => Returns a b.

Definition bind {A B : Type} (m : M A) (k : A -> M B) : M B :=
  fun b =>
    match m b with
    | Returns a b' => k a b'
    | Raises e b' => Raises e b'
    | Diverges => Diverges
    end.

Definition raise {A : Type} (e : exn) : M A := fun b => Raises e b.

(** [self.x = v]. *)
Definition assign (f : MarkdownFileBrowser -> MarkdownFileBrowser) : M unit :=
  fun b => Returns tt (f b).

(** [try: m except ...: handler]. *)
Definition try_except {A : Type} (m : M A) (handler : exn -> M A) : M A :=
  fun b =>
    match m b with
    | Raises e b' => handler e b'
    | o => o
    end.

Declare Scope browser_scope.
Delimit Scope browser_scope with browser.
Notation "x <- m ;; k" := (bind m (fun x => k))
  (at level 61, m at next level, right associativity) : browser_scope.
Notation "m ;; k" := (bind m (fun _ => k))
  (at level 61, right associativity) : browser_scope.
Local Open Scope browser_scope.

(** ** Pagination *)

(** The four characters after which [_split_pages] may end a page. *)
Definition is_page_break (c : char) : bool :=
  ((c =? 32) || (c =? 9) || (c =? 13) || (c =? 10))%N.

(** How a loop ends. *)
Inductive ending : Type :=
| Finished
| Failed (e : exn)
| OutOfFuel.

(** The inner loop of [_split_pages]:
    [while end_idx < len(content) and content[end_idx - 1] not in " \t\r\n":
       end_idx += 1]. *)
Fixpoint adjust_end (content : str) (end_idx : Z) (fuel : nat) : Z * ending :=
  if end_idx <? len content then
    match getitem content (end_idx - 1) with
    | None => (end_idx, Failed IndexError)
    | Some c =>
        if is_page_break c then (end_idx, Finished)
        else match fuel with
             | S fuel' => adjust_end content (end_idx + 1) fuel'
             | O => (end_idx, OutOfFuel)
             end
    end
  else (end_idx, Finished).

(** The outer loop of [_split_pages] from [start_idx] on: the pages it
    appends to [viewport_pages], and how it ends.  The inner loop gets
    [len(content) - end_idx] steps, which it cannot exceed. *)
Fixpoint split_loop (size : Z) (content : str) (start_idx : Z) (fuel : nat)
  : list page * ending :=
  if start_idx <? len content then
    match fuel with
    | O => ([], OutOfFuel)
    | S fuel' =>
        let end_idx := Z.min (start_idx + size) (len content) in
        match adjust_end content end_idx (Z.to_nat (len content - end_idx)) with
        | (end_idx', Finished) =>
            let (ps, e) := split_loop size content end_idx' fuel' in
            ((start_idx, end_idx') :: ps, e)
        | (_, e) => ([], e)
        end
    end
  else ([], Finished).

(** [_split_pages]: the loop gets one step per character of the content and
    one more, which is enough whenever every page is longer than zero, as it
    is for a viewport size of at least one.  For a smaller size the Python
    loop can emit the same empty page for ever, which is [Diverges] here. *)
Definition _split_pages : M unit := fun b =>
  if len (_page_content b) =? 0 then Returns tt (set_viewport_pages [(0, 0)] b)
  else
    let (ps, e) := split_loop (viewport_size b) (_page_content b) 0
                     (S (List.length (_page_content b))) in
    let b' := set_viewport_pages ps b in
    match e with
    | Finished => Returns tt b'
    | Failed x => Raises x b'
    | OutOfFuel => Diverges
    end.

(** [_set_page_content(content, split_pages)]. *)
Definition _set_page_content (content : str) (split_pages : bool) : M unit :=
  assign (set__page_content content) ;;
  (if split_pages then _split_pages
   else fun b => assign (set_viewport_pages [(0, len (_page_content b))]) b) ;;
  fun b =>
    if viewport_current_page b >=? len (viewport_pages b)
    then assign (set_viewport_current_page (len (viewport_pages b) - 1)) b
    else ret tt b.

(** The [viewport] property: the text of the current page. *)
Definition viewport : M str := fun b =>
  match getitem (viewport_pages b) (viewport_current_page b) with
  | None => Raises IndexError b
  | Some (lo, hi) => Returns (slice (_page_content b) lo hi) b
  end.

(** [page_down] and [page_up]; neither can raise. *)
Definition page_down (b : MarkdownFileBrowser) : MarkdownFileBrowser :=
  set_viewport_current_page
    (Z.min (viewport_current_page b + 1) (len (viewport_pages b) - 1)) b.

Definition page_up (b : MarkdownFileBrowser) : MarkdownFileBrowser :=
  set_viewport_current_page (Z.max (viewport_current_page b - 1) 0) b.

(** ** Search *)

(** The fragment of Python's [re] that the browser uses.  A pattern built by
    [_find_next_viewport] holds word characters, spaces and the pair [.*]
    only: every other character of the query is dropped by the split on
    [\W+].  A [*] with nothing to repeat is [re.error]. *)
Inductive atom : Type :=
| AnyChar
| Lit (c : char).

Inductive item : Type :=
| One (a : atom)
| Star (a : atom).

Definition atom_of (c : char) : atom :=
  if (c =? 46)%N then AnyChar else Lit c.

Fixpoint re_compile (p : str) : option (list item) :=
  match p with
  | [] => Some []
  | c :: rest =>
      if (c =? 42)%N then None
      else
        match rest with
        | c' :: rest' =>
            if (c' =? 42)%N
            then option_map (cons (Star (atom_of c))) (re_compile rest')
            else option_map (cons (One (atom_of c))) (re_compile rest)
        | [] => Some [One (atom_of c)]
        end
  end.

(** [.] matches any character but a newline. *)
Definition atom_matches (a : atom) (c : char) : bool :=
  match a with
  | AnyChar => negb (c =? 10)%N
  | Lit x => (x =? c)%N
  end.

(** Whether the items match a prefix of the text. *)
Fixpoint match_here (p : list item) (t : str) {struct p} : bool :=
  match p with
  | [] => true
  | One a :: p' =>
      match t with
      | c :: t' => atom_matches a c && match_here p' t'
      | [] => false
      end
  | Star a :: p' =>
      (fix star (t : str) : bool :=
         match_here p' t
         || match t with
            | c :: t' => atom_matches a c && star t'
            | [] => false
            end) t
  end.

Fixpoint match_anywhere (p : list item) (t : str) : bool :=
  match_here p t
  || match t with
     | _ :: t' => match_anywhere p t'
     | [] => false
     end.

(** Whether [re.search(pattern, text)] finds a match; [None] is [re.error]. *)
Definition re_search (pattern text : str) : option bool :=
  option_map (fun p => match_anywhere p text) (re_compile pattern).

(** [re.sub(r"\*", "__STAR__", s)]. *)
Definition re_sub_star (s : str) : str :=
  flat_map (fun c => if (c =? 42)%N then lit "__STAR__" else [c]) s.

(** [\w] on the ASCII characters. *)
Definition ascii_word (c : char) : bool :=
  ((48 <=? c) && (c <=? 57) || (65 <=? c) && (c <=? 90)
   || (97 <=? c) && (c <=? 122) || (c =? 95))%N.

Section UnicodeTables.

(** Python's tables for the code points from 128 on are parameters: which of
    them [\w] matches, and what [str.lower] maps each of them to (one code
    point can become several; the one rule of [str.lower] that looks at the
    neighbours of a character, for the Greek final sigma, is left out). *)
Variable unicode_word : char -> bool.
Variable unicode_lower : char -> str.

(** [\w]: a letter, a digit or the underscore; never a space. *)
Definition is_word (c : char) : bool :=
  if (c <? 128)%N then ascii_word c
  else negb (isspace c) && unicode_word c.

Definition lower_char (c : char) : str :=
  if ((65 <=? c) && (c <=? 90))%N then [(c + 32)%N]
  else if (c <? 128)%N then [c]
  else unicode_lower c.

(** [s.lower()]. *)
Definition lower (s : str) : str := flat_map lower_char s.

Definition cons_head (c : char) (parts : list str) : list str :=
  match parts with
  | w :: ws => (c :: w) :: ws
  | [] => [[c]]
  end.

(** [re.split(r"\W+", s)]: the runs of word characters between the runs of
    other characters, with an empty string where [s] starts or ends with
    one of the latter. *)
Fixpoint re_split_W (s : str) : list str :=
  match s with
  | [] => [[]]
  | c :: s' =>
      if is_word c then cons_head c (re_split_W s')
      else
        match s' with
        | [] => [[]; []]
        | c' :: _ => if is_word c' then [] :: re_split_W s' else re_split_W s'
        end
  end.

(** [" ".join(re.split(r"\W+", s))]. *)
Definition collapse (s : str) : str := join (lit " ") (re_split_W s).

(** The pattern that [_find_next_viewport] builds from the query. *)
Definition normalize_query (query : str) : str :=
  let nquery := re_sub_star query in
  let nquery := lit " " ++ strip (collapse nquery) ++ lit " " in
  let nquery := replace nquery (lit " __STAR__ ") (lit "__STAR__ ") in
  lower (replace nquery (lit "__STAR__") (lit ".*")).

(** The text of a page as [_find_next_viewport] searches it. *)
Definition normalize_content (content : str) : str :=
  lit " " ++ lower (strip (collapse content)) ++ lit " ".

(** The [for i in idxs] loop of [_find_next_viewport]. *)
Fixpoint scan_pages (b : MarkdownFileBrowser) (nquery : str) (idxs : list Z)
  : exn + option Z :=
  match idxs with
  | [] => inr None
  | i :: rest =>
      match getitem (viewport_pages b) i with
      | None => inl IndexError
      | Some (lo, hi) =>
          let content := slice (_page_content b) lo hi in
          match re_search nquery (normalize_content content) with
          | None => inl ReError
          | Some true => inr (Some i)
          | Some false => scan_pages b nquery rest
          end
      end
  end.

(** The order in which [_find_next_viewport] visits the pages:
    [idxs.extend(range(starting_viewport, len(self.viewport_pages)))] and
    [idxs.extend(range(0, starting_viewport))]. *)
Definition idxs (starting_viewport n : Z) : list Z :=
  range starting_viewport n ++ range 0 starting_viewport.

(** [_find_next_viewport(query, starting_viewport)]. *)
Definition _find_next_viewport (query : option str) (starting_viewport : Z)
  : M (option Z) := fun b =>
  match query with
  | None => Returns None b
  | Some q =>
      let nquery := normalize_query q in
      if str_eqb (strip nquery) [] then Returns None b
      else
        match scan_pages b nquery
                (idxs starting_viewport (len (viewport_pages b))) with
        | inl e => Raises e b
        | inr r => Returns r b
        end
  end.

(** The common end of [find_on_page] and [find_next]. *)
Definition go_to_match (viewport_match : option Z) : M (option str) :=
  match viewport_match with
  | None => assign (set__find_on_page_last_result None) ;; ret None
  | Some i =>
      assign (set_viewport_current_page i) ;;
      assign (set__find_on_page_last_result (Some i)) ;;
      v <- viewport ;;
      ret (Some v)
  end.

(** The page at which [find_next] starts its scan. *)
Definition starting_viewport (b : MarkdownFileBrowser) : Z :=
  match _find_on_page_last_result b with
  | None => 0
  | Some r => if r + 1 >=? len (viewport_pages b) then 0 else r + 1
  end.

(** [find_next()]. *)
Definition find_next : M (option str) := fun b =>
  match _find_on_page_query b with
  | None => Returns None b
  | Some q =>
      (viewport_match <- _find_next_viewport (Some q) (starting_viewport b) ;;
       go_to_match viewport_match) b
  end.

Definition same_query (query : str) (q : option str) : bool :=
  match q with
  | Some q' => str_eqb query q'
  | None => false
  end.

Definition same_page (i : Z) (r : option Z) : bool :=
  match r with
  | Some j => i =? j
  | None => false
  end.

(** [find_on_page(query)]. *)
Definition find_on_page (query : str) : M (option str) := fun b =>
  if same_query query (_find_on_page_query b)
     && same_page (viewport_current_page b) (_find_on_page_last_result b)
  then find_next b
  else
    (assign (set__find_on_page_query (Some query)) ;;
     viewport_match <- _find_next_viewport (Some query) (viewport_current_page b) ;;
     go_to_match viewport_match) b.

(** Whether the scan of [_find_next_viewport] for the pattern [nquery] stops
    at page [i]. *)
Definition page_hit (b : MarkdownFileBrowser) (nquery : str) (i : Z) : bool :=
  match getitem (viewport_pages b) i with
  | Some (lo, hi) =>
      match re_search nquery (normalize_content (slice (_page_content b) lo hi)) with
      | Some true => true
      | _ => false
      end
  | None => false
  end.

(** The query matches page [i]: its pattern is not blank and is found in the
    text of the page. *)
Definition page_matches (query : str) (b : MarkdownFileBrowser) (i : Z) : bool :=
  negb (str_eqb (strip (normalize_query query)) [])
  && page_hit b (normalize_query query) i.

(** The outcome of one more [find_next] call after the outcome [o]. *)
Definition then_find_next (o : outcome (option str)) : outcome (option str) :=
  match o with
  | Returns _ b => find_next b
  | Raises e b => Raises e b
  | Diverges => Diverges
  end.

(** The outcome of the last of [k] successive [find_next] calls. *)
Definition find_next_calls (k : nat) (b : MarkdownFileBrowser) : outcome (option str) :=
  Nat.iter k then_find_next (Returns None b).

End UnicodeTables.

(** ** Opening a path *)

(** What the operating system and the document converter answer during one
    call: the [os] and [os.path] functions that [set_path] uses, the clock,
    the listing that [_fetch_local_dir] renders from a directory's entries,
    and the converter, whose results are a title and a text. *)
Record World : Type := mkWorld {
  getcwd : str;
  expanduser : str -> str;
  isabs : str -> bool;
  isfile : str -> bool;
  isdir : str -> bool;
  abspath : str -> str;
  path_join : str -> str -> str;
  dirname : str -> str;
  time_time : timestamp;
  _fetch_local_dir : str -> exn + str;
  convert_stream : str -> exn + (option str * str);
  convert_local : str -> exn + (option str * str)
}.

(** The [path] property. *)
Definition path (w : World) (b : MarkdownFileBrowser) : str :=
  if len (history b) =? 0 then getcwd w
  else match getitem (history b) (-1) with
       | Some (p, _) => p
       | None => getcwd w
       end.

Definition call {A : Type} (r : exn + A) : M A :=
  match r with
  | inl e => raise e
  | inr a => ret a
  end.

(** The texts of the placeholder pages. *)
Definition unsupported_text (p : str) : str :=
  [35; 32; 26080; 27861; 39044; 35272; 39]%N ++ p
  ++ [39; 32; 20316; 20026; 32; 77; 97; 114; 107; 100; 111; 119; 110; 46]%N.

Definition conversion_text (p : str) : str :=
  [35; 32; 36716; 25442; 26102; 20986; 38169; 39]%N ++ p
  ++ [39; 32; 21040; 32; 77; 97; 114; 107; 100; 111; 119; 110; 12290]%N.

Definition not_found_prefix : str :=
  [35; 32; 26410; 25214; 21040; 25991; 20214; 65306; 32]%N.

Definition not_found_text (p : str) : str := not_found_prefix ++ p.

(** The [try] block of [_open_path]. *)
Definition convert_path (w : World) (p : str) : M unit :=
  if isdir w p then
    listing <- call (_fetch_local_dir w p) ;;
    res <- call (convert_stream w listing) ;;
    assign (set_page_title (fst res)) ;;
    _set_page_content (snd res) false
  else
    res <- call (convert_local w p) ;;
    assign (set_page_title (fst res)) ;;
    _set_page_content (snd res) true.

(** The [except] clauses of [_open_path]. *)
Definition placeholder (p : str) (e : exn) : M unit :=
  match e with
  | UnsupportedFormatException =>
      assign (set_page_title (Some (lit "UnsupportedFormatException"))) ;;
      _set_page_content (unsupported_text p) true
  | FileConversionException =>
      assign (set_page_title (Some (lit "FileConversionException."))) ;;
      _set_page_content (conversion_text p) true
  | FileNotFoundError =>
      assign (set_page_title (Some (lit "FileNotFoundError"))) ;;
      _set_page_content (not_found_text p) true
  | _ => raise e
  end.

(** [_open_path(path)]. *)
Definition _open_path (w : World) (p : str) : M unit :=
  try_except (convert_path w p) (placeholder p).

(** The path that [set_path] opens for the argument [p]. *)
Definition resolve (w : World) (b : MarkdownFileBrowser) (p : str) : str :=
  let p := expanduser w p in
  if negb (isabs w p) then
    if isfile w (path w b) then abspath w (path_join w (dirname w (path w b)) p)
    else if isdir w (path w b) then abspath w (path_join w (path w b) p)
    else p
  else p.

(** [set_path(path)]. *)
Definition set_path (w : World) (p : str) : M unit := fun b =>
  let p := resolve w b p in
  (assign (fun b => set_history (history b ++ [(p, time_time w)]) b) ;;
   _open_path w p ;;
   assign (set_viewport_current_page 0) ;;
   assign (set_find_on_page_query None) ;;
   assign (set_find_on_page_viewport None)) b.

(** [open_path(path)]. *)
Definition open_path (w : World) (p : str) : M str :=
  set_path w p ;; viewport.

(** [MarkdownFileBrowser(viewport_size)]: the constructor opens the working
    directory before it initialises the content and the search attributes. *)
Definition __init__ (w : World) (size : Z) : outcome unit :=
  (set_path w (getcwd w) ;;
   assign (set__page_content []) ;;
   assign (set__find_on_page_query None) ;;
   assign (set__find_on_page_last_result None))
    (mkBrowser size [] None 0 [] [] None None None None).

(** ** Properties of the page ranges *)

(** The pages start at [from], each starts where the one before it ends, and
    the last ends at [to]. *)
Fixpoint contiguous (from : Z) (ps : list page) (to : Z) : Prop :=
  match ps with
  | [] => from = to
  | (a, b) :: rest => a = from /\ a <= b /\ contiguous b rest to
  end.

(** The offset [k] lies on the page [p]. *)
Definition on_page (k : Z) (p : page) : Prop := fst p <= k < snd p.

(** A page ends at the end of the content or right after a break character. *)
Definition word_safe (content : str) (p : page) : Prop :=
  snd p = len content
  \/ exists c, getitem content (snd p - 1) = Some c /\ is_page_break c = true.

(** The current page index is an index of [viewport_pages]. *)
Definition in_bounds (b : MarkdownFileBrowser) : Prop :=
  0 <= viewport_current_page b <= len (viewport_pages b) - 1.

Inductive key : Type :=
| PageUp
| PageDown.

Definition press (b : MarkdownFileBrowser) (k : key) : MarkdownFileBrowser :=
  match k with
  | PageUp => page_up b
  | PageDown => page_down b
  end.

(** A sequence of [page_up] and [page_down] calls. *)
Definition navigate (keys : list key) (b : MarkdownFileBrowser) : MarkdownFileBrowser :=
  fold_left press keys b.

(** The page boundary at offset [e] splits a run of characters that holds no
    break character: one such character stands on each side of it. *)
Definition splits_word (content : str) (e : Z) : Prop :=
  exists c d,
    getitem content (e - 1) = Some c /\ getitem content e = Some d
    /\ is_page_break c = false /\ is_page_break d = false.

(** The pages that a call left in [viewport_pages]. *)
Definition pages_after {A : Type} (o : outcome A) : option (list page) :=
  match o with
  | Returns _ b => Some (viewport_pages b)
  | Raises _ b => Some (viewport_pages b)
  | Diverges => None
  end.

(** A browser that holds the given content, with nothing opened before. *)
Definition browser_with (size : Z) (content : str) (ps : list page) : MarkdownFileBrowser :=
  mkBrowser size [] None 0 ps content None None None None.

(** The state after a search has moved to page [j]. *)
Definition moved_to (j : Z) (b : MarkdownFileBrowser) : MarkdownFileBrowser :=
  set__find_on_page_last_result (Some j) (set_viewport_current_page j b).

(** The number of pages from page [j] forward to page [p], wrapping after
    the last of [n] pages; a whole round when [p] is [j]. *)
Definition steps_to (n j p : Z) : Z :=
  if j <? p then p - j else p - j + n.

(** The attributes that a search has no business with are as before: all
    of them but [viewport_current_page], [_find_on_page_query] and
    [_find_on_page_last_result]. *)
Definition same_document (b b' : MarkdownFileBrowser) : Prop :=
  _page_content b' = _page_content b
  /\ viewport_pages b' = viewport_pages b
  /\ page_title b' = page_title b
  /\ history b' = history b
  /\ viewport_size b' = viewport_size b
  /\ find_on_page_query b' = find_on_page_query b
  /\ find_on_page_viewport b' = find_on_page_viewport b.

(** A call comes back, by a return or an exception, with the document as it
    was. *)
Definition keeps_document {A : Type} (b : MarkdownFileBrowser) (o : outcome A) : Prop :=
  match o with
  | Returns _ b' => same_document b b'
  | Raises _ b' => same_document b b'
  | Diverges => False
  end.

(** A call returns no match and leaves the page index as it was. *)
Definition no_match (b : MarkdownFileBrowser) (o : outcome (option str)) : Prop :=
  exists b', o = Returns None b'
             /\ viewport_current_page b' = viewport_current_page b.

(** [needle in hay]. *)
Fixpoint contains (hay needle : str) : bool :=
  startswith hay needle
  || match hay with
     | _ :: hay' => contains hay' needle
     | [] => false
     end.

(** What the converter answers in the [try] block of [_open_path]. *)
Definition loader_outcome (w : World) (p : str) : exn + (option str * str) :=
  if isdir w p then
    match _fetch_local_dir w p with
    | inl e => inl e
    | inr listing => convert_stream w listing
    end
  else convert_local w p.

(** A world in which every path is absolute, none is a directory and the
    converter answers [r] for every file. *)
Definition world_answering (r : exn + (option str * str)) : World :=
  mkWorld (lit "/") (fun p => p) (fun _ => true) (fun _ => false) (fun _ => false)
    (fun p => p) (fun d p => d ++ lit "/" ++ p) (fun p => p) 0
    (fun _ => inl OtherError) (fun _ => inl OtherError) (fun _ => r).

(** Tables for texts that hold ASCII characters only. *)
Definition no_unicode_word (c : char) : bool := false.
Definition no_unicode_lower (c : char) : str := [c].

(** A search for [query] is going on in the document of [b0]. *)
Definition searching (query : str) (b0 b : MarkdownFileBrowser) : Prop :=
  _find_on_page_query b = Some query
  /\ viewport_pages b = viewport_pages b0
  /\ _page_content b = _page_content b0.

(** A document of three pages in which a search for "aa" is going on. *)
Definition search_demo : MarkdownFileBrowser :=
  mkBrowser 3 [] None 0 [(0, 3); (3, 6); (6, 8)] (lit "aa bb aa")
    (Some (lit "aa")) None None None.

(** The text before a word: empty, or ending with a character that [\w]
    does not match. *)
Definition before_word (unicode_word : char -> bool) (pre : str) : Prop :=
  pre = [] \/ exists pre0 x, pre = pre0 ++ [x] /\ is_word unicode_word x = false.

(** A page that holds "hello". *)
Definition hello_demo : MarkdownFileBrowser := browser_with 6 (lit "hello") [(0, 5)].

(** A page that holds "xfoobar". *)
Definition xfoobar_demo : MarkdownFileBrowser := browser_with 8 (lit "xfoobar") [(0, 7)].

(** A page that holds "a foobar". *)
Definition foobar_demo : MarkdownFileBrowser := browser_with 8 (lit "a foobar") [(0, 8)].

(** The attributes that [_open_path] does not assign are as before. *)
Definition untouched_by_open (b b' : MarkdownFileBrowser) : Prop :=
  history b' = history b
  /\ _find_on_page_query b' = _find_on_page_query b
  /\ _find_on_page_last_result b' = _find_on_page_last_result b
  /\ viewport_size b' = viewport_size b.

(** Whenever the method comes back, the states before and after it are
    related by [R]. *)
Definition preserves {A : Type} (R : MarkdownFileBrowser -> MarkdownFileBrowser -> Prop)
    (m : M A) : Prop :=
  forall b, match m b with
            | Returns _ b' => R b b'
            | Raises _ b' => R b b'
            | Diverges => True
            end.

(** A browser that shows an old document in which "beta" was found, and a
    world whose converter answers a new text that holds "beta" as well. *)
Definition stale_demo : MarkdownFileBrowser :=
  mkBrowser 8192 [(lit "/old.txt", 0)] None 0 [(0, 8)] (lit "old beta")
    (Some (lit "beta")) (Some 0) None None.

Definition new_text_world : World :=
  world_answering (inr (None, lit "alpha beta")).


Ltac now_untouched := unfold untouched_by_open; simpl; auto.

(** A search for "aa" that has found page 0, which is current. *)
Definition found_demo : MarkdownFileBrowser :=
  mkBrowser 3 [] None 0 [(0, 3); (3, 6); (6, 8)] (lit "aa bb aa")
    (Some (lit "aa")) (Some 0) None None.

(** The page index is within bounds and the remembered page is not
    negative: every state that the methods produce is of this kind. *)
Definition well_formed (b : MarkdownFileBrowser) : Prop :=
  in_bounds b /\ forall r, _find_on_page_last_result b = Some r -> 0 <= r.

(** Whenever the method comes back, by a return or by an exception, the
    state satisfies [Q]. *)
Definition comes_back_with {A : Type} (Q : MarkdownFileBrowser -> Prop)
    (o : outcome A) : Prop :=
  match o with
  | Returns _ b' => Q b'
  | Raises _ b' => Q b'
  | Diverges => True
  end.

(** Whenever the method returns, the state satisfies [Q]. *)
Definition returns_with {A : Type} (Q : MarkdownFileBrowser -> Prop)
    (o : outcome A) : Prop :=
  match o with
  | Returns _ b' => Q b'
  | _ => True
  end.

(** [str.lower] gives no newline for a code point from 128 on. *)
Definition lower_keeps_lines (unicode_lower : char -> str) : Prop :=
  forall c, (128 <= c)%N -> ~ In 10%N (unicode_lower c).

(** The calls that the agent makes on its browser, as [_generate_reply]
    dispatches them. *)
Inductive tool_call : Type :=
| ToolOpenPath (w : World) (p : str)
| ToolPageUp
| ToolPageDown
| ToolFindOnPage (search_string : str)
| ToolFindNext.

Definition perform (unicode_word : char -> bool) (unicode_lower : char -> str)
    (c : tool_call) : M unit :=
  match c with
  | ToolOpenPath w p => open_path w p ;; ret tt
  | ToolPageUp => assign page_up
  | ToolPageDown => assign page_down
  | ToolFindOnPage q => find_on_page unicode_word unicode_lower q ;; ret tt
  | ToolFindNext => find_next unicode_word unicode_lower ;; ret tt
  end.

(** The states of a browser that was built with a viewport size of at least
    one. *)
Definition sound (b : MarkdownFileBrowser) : Prop :=
  well_formed b /\ 1 <= viewport_size b.

(** ** Further notions for the properties of the code *)

(** The text of a page: [content[start:end]]. *)
Definition page_text (content : str) (p : page) : str :=
  slice content (fst p) (snd p).

(** The upper-case form of an ASCII letter. *)
Definition ascii_upper (c : char) : char :=
  if ((97 <=? c) && (c <=? 122))%N then (c - 32)%N else c.

(** The browser with another content, and nothing else changed. *)
Definition with_content (f : str -> str) (b : MarkdownFileBrowser) : MarkdownFileBrowser :=
  set__page_content (f (_page_content b)) b.

(** The scan of [_find_next_viewport] passes page [i]: the page exists and
    the pattern is not found in its text. *)
Definition page_passed (unicode_word : char -> bool) (unicode_lower : char -> str)
    (b : MarkdownFileBrowser) (nquery : str) (i : Z) : Prop :=
  exists lo hi,
    getitem (viewport_pages b) i = Some (lo, hi)
    /\ re_search nquery
         (normalize_content unicode_word unicode_lower (slice (_page_content b) lo hi))
       = Some false.

(** A world in which every path is a directory whose listing the converter
    turns into a text under the title "Index". *)
Definition listing_world : World :=
  mkWorld (lit "/") (fun p => p) (fun _ => true) (fun _ => false) (fun _ => true)
    (fun p => p) (fun d p => d ++ lit "/" ++ p) (fun p => p) 0
    (fun p => inr (lit "# Index of " ++ p))
    (fun listing => inr (Some (lit "Index"), listing))
    (fun _ => inl OtherError).

(** The outcome [o'] of a call on the document changed by [f] agrees with
    the outcome [o] of the same call on the document itself: the same result
    or exception, with [f] applied to a returned text and to the content. *)
Definition agree_under (f : str -> str) (o o' : outcome (option str)) : Prop :=
  match o, o' with
  | Returns r b, Returns r' b' => r' = option_map f r /\ b' = with_content f b
  | Raises e b, Raises e' b' => e' = e /\ b' = with_content f b
  | Diverges, Diverges => True
  | _, _ => False
  end.

(** A world with the directory "/docs" and the file "/docs/a.txt" in it, in
    which a path is absolute when it starts with a slash. *)
Definition docs_world : World :=
  mkWorld (lit "/docs") (fun p => p) (fun p => startswith p (lit "/"))
    (fun p => str_eqb p (lit "/docs/a.txt")) (fun p => str_eqb p (lit "/docs"))
    (fun p => p) (fun d p => d ++ lit "/" ++ p) (fun _ => lit "/docs") 0
    (fun _ => inl OtherError) (fun _ => inl OtherError)
    (fun _ => inr (None, lit "text")).

(** [str.lower] gives no [*] for a code point from 128 on. *)
Definition lower_keeps_stars (unicode_lower : char -> str) : Prop :=
  forall c, (128 <= c)%N -> ~ In 42%N (unicode_lower c).

(** A pattern in which a [*] only stands in a pair [.*]. *)
Inductive starred : str -> Prop :=
| starred_nil : starred []
| starred_char (c : char) (p : str) : c <> 42%N -> starred p -> starred (c :: p)
| starred_any (p : str) : starred p -> starred (46%N :: 42%N :: p).

(** ** The directory listing *)

(** [str(n)] for an [int]. *)
Definition str_of_int (n : Z) : str := lit (NilZero.string_of_int (Z.to_int n)).

Module Listing.

(** What [os] answers while [_fetch_local_dir] runs.  [getmtime] stands for
    [os.path.getmtime] together with the formatting of its result by
    [fromtimestamp] and [strftime]: it gives the text of the date, or the
    exception that one of the three calls raises. *)
Record FileSystem : Type := mkFileSystem {
  listdir : str -> exn + list str;
  path_join : str -> str -> str;
  getmtime : str -> exn + str;
  isdir : str -> bool;
  sep : str;
  getsize : str -> exn + Z
}.

(** The text that the listing starts with. *)
Definition header (local_path : str) : str :=
  [10; 35; 32; 32034; 24341]%N ++ local_path ++ [10; 10]%N
  ++ lit "| Name | Size | Date Modified |" ++ [10]%N
  ++ lit "| ---- | ---- | ------------- |" ++ [10]%N
  ++ lit "| .. (parent directory) | | |" ++ [10]%N.

(** [f"| {entry} | {size} | {mtime} |\n"]. *)
Definition row (entry size mtime : str) : str :=
  lit "| " ++ entry ++ lit " | " ++ size ++ lit " | " ++ mtime ++ lit " |" ++ [10]%N.

(** The body of the loop for one entry: the row that it appends. *)
Definition entry_row (fs : FileSystem) (local_path entry : str) : exn + str :=
  let full_path := path_join fs local_path entry in
  match getmtime fs full_path with
  | inl e => inl e
  | inr mtime =>
      if isdir fs full_path then inr (row (entry ++ sep fs) [] mtime)
      else
        match getsize fs full_path with
        | inl e => inl e
        | inr size => inr (row entry (str_of_int size) mtime)
        end
  end.

(** [for entry in os.listdir(local_path): ... listing += ...]. *)
Fixpoint list_entries (fs : FileSystem) (local_path : str) (entries : list str)
    (listing : str) : exn + str :=
  match entries with
  | [] => inr listing
  | entry :: rest =>
      match entry_row fs local_path entry with
      | inl e => inl e
      | inr r => list_entries fs local_path rest (listing ++ r)
      end
  end.

(** [_fetch_local_dir(local_path)]. *)
Definition _fetch_local_dir (fs : FileSystem) (local_path : str) : exn + str :=
  match listdir fs local_path with
  | inl e => inl e
  | inr entries => list_entries fs local_path entries (header local_path)
  end.

End Listing.

(** The world [w] over the file system [fs]: [os.path.isdir] and
    [os.path.join] are those of [fs], and the listing of a directory is the
    one that [_fetch_local_dir] makes from [fs]. *)
Definition with_listing (fs : Listing.FileSystem) (w : World) : World :=
  mkWorld (getcwd w) (expanduser w) (isabs w) (isfile w) (Listing.isdir fs)
    (abspath w) (Listing.path_join fs) (dirname w) (time_time w)
    (Listing._fetch_local_dir fs) (convert_stream w) (convert_local w).

(** The file system [fs] with other answers to [os.path.getsize]. *)
Definition with_getsize (sizes : str -> exn + Z) (fs : Listing.FileSystem)
  : Listing.FileSystem :=
  Listing.mkFileSystem (Listing.listdir fs) (Listing.path_join fs)
    (Listing.getmtime fs) (Listing.isdir fs) (Listing.sep fs) sizes.

(** A directory "/data" that holds the file "a.txt" of 120 characters, the
    directory "sub", and the entry "gone", which has vanished by the time it
    is looked at. *)
Definition lost_entry_fs : Listing.FileSystem :=
  Listing.mkFileSystem
    (fun _ => inr [lit "a.txt"; lit "sub"; lit "gone"])
    (fun d p => d ++ lit "/" ++ p)
    (fun p => if str_eqb p (lit "/data/gone") then inl FileNotFoundError
              else inr (lit "2024-01-01 00:00"))
    (fun p => str_eqb p (lit "/data") || str_eqb p (lit "/data/sub"))
    (lit "/")
    (fun p => if str_eqb p (lit "/data/a.txt") then inr 120 else inl OtherError).

(** The same directory without the entry "gone". *)
Definition data_fs : Listing.FileSystem :=
  Listing.mkFileSystem
    (fun _ => inr [lit "a.txt"; lit "sub"])
    (Listing.path_join lost_entry_fs) (Listing.getmtime lost_entry_fs)
    (Listing.isdir lost_entry_fs) (Listing.sep lost_entry_fs)
    (Listing.getsize lost_entry_fs).

(** ** The agent *)

(** A shallow embedding of [_file_surfer.py].  The coroutines are modelled as
    plain calls: none of them yields between its reading and its writing of
    the agent's attributes but at the one call of the model client. *)
Module Agent.

(** The exceptions that leave the agent's code: [Raised e] is an exception
    that the browser's model knows, among them the IndexError of a list
    index; [ClientError] stands for whatever the model client raises. *)
Inductive agent_exn : Type :=
| Raised (e : exn)
| ValueError (message : str)
| AssertionError
| KeyError (key : str)
| TypeError
| ClientError (e : N).

(** The content of a message: a text, or texts and images, an image being
    known by a number. *)
Inductive message_content : Type :=
| Text (text : str)
| Parts (parts : list (str + N)).

(** A chat message; [shown] is [str(chat_message)] for a message of another
    type than the two that the agent accepts. *)
Inductive ChatMessage : Type :=
| TextMessage (text : str) (source : str)
| MultiModalMessage (parts : list (str + N)) (source : str)
| OtherMessage (shown : str).

Inductive LLMMessage : Type :=
| UserMessage (c : message_content) (source : str)
| AssistantMessage (text : str) (source : str).

Inductive Response : Type :=
| mkResponse (chat_message : ChatMessage).

(** A [FunctionCall]; its [id] is not read. *)
Record FunctionCall : Type := mkFunctionCall {
  call_arguments : str;
  call_name : str
}.

(** [create_result.content]: a string, a list of function calls, or anything
    else. *)
Inductive response : Type :=
| Answer (text : str)
| FunctionCalls (calls : list FunctionCall)
| OtherContent.

(** What [json.loads] gives: an object, as the function from its keys to
    their values, of which the agent tells a string from any other value, or
    a value that is no object. *)
Inductive json_value : Type :=
| Str (s : str)
| NotStr.

Inductive json : Type :=
| Object (get : str -> option json_value)
| NotObject.

(** What the agent's surroundings answer during one [on_messages] call:
    the operating system and the converter at the time of the call of the
    browser for the function call of each position, the model client, and
    the library functions [remove_images], [json.loads], which gives the
    decoded value or the text of its JSONDecodeError, and
    [traceback.format_exc]. *)
Record Environment : Type := mkEnvironment {
  world : nat -> World;
  vision : bool;
  create : list LLMMessage -> agent_exn + response;
  remove_images : list LLMMessage -> list LLMMessage;
  json_loads : str -> str + json;
  format_exc : agent_exn -> str
}.

(** The attributes of a [FileSurfer] object that its methods read; the
    model client is part of the environment. *)
Record FileSurfer : Type := mkFileSurfer {
  name : str;
  _chat_history : list LLMMessage;
  _browser : MarkdownFileBrowser
}.

Definition set__chat_history (h : list LLMMessage) (a : FileSurfer) : FileSurfer :=
  mkFileSurfer (name a) h (_browser a).

Definition set__browser (b : MarkdownFileBrowser) (a : FileSurfer) : FileSurfer :=
  mkFileSurfer (name a) (_chat_history a) b.

(** A method of the agent returns a value, raises, does not come back, or
    leaves what is modelled: the browser's attributes hold strings only. *)
Inductive result (A : Type) : Type :=
| Ok (x : A) (a : FileSurfer)
| Error (e : agent_exn) (a : FileSurfer)
| Hangs
| Unmodelled.
Arguments Ok {A} x a.
Arguments Error {A} e a.
Arguments Hangs {A}.
Arguments Unmodelled {A}.

Definition method (A : Type) : Type := FileSurfer -> result A.

Definition pure {A : Type} (x : A) : method A := fun a => Ok x a.

Definition next {A B : Type} (m : method A) (k : A -> method B) : method B :=
  fun a =>
    match m a with
    | Ok x a' => k x a'
    | Error e a' => Error e a'
    | Hangs => Hangs
    | Unmodelled => Unmodelled
    end.

Definition throw {A : Type} (e : agent_exn) : method A := fun a => Error e a.

(** [try: m except BaseException: handler]. *)
Definition catch {A : Type} (m : method A) (handler : agent_exn -> method A)
  : method A :=
  fun a =>
    match m a with
    | Error e a' => handler e a'
    | r => r
    end.

(** A call of a method of [self._browser]. *)
Definition browser {A : Type} (m : M A) : method A := fun a =>
  match m (_browser a) with
  | Returns x b => Ok x (set__browser b a)
  | Raises e b => Error (Raised e) (set__browser b a)
  | Diverges => Hangs
  end.

(** [self._chat_history.append(message)]. *)
Definition append (message : LLMMessage) : method unit := fun a =>
  Ok tt (set__chat_history (_chat_history a ++ [message]) a).

Declare Scope agent_scope.
Delimit Scope agent_scope with agent.
Notation "x <- m ;; k" := (next m (fun x => k))
  (at level 61, m at next level, right associativity) : agent_scope.
Notation "m ;; k" := (next m (fun _ => k))
  (at level 61, right associativity) : agent_scope.

(** [FileSurfer(name, model_client)]: the browser is built with a viewport
    size of [1024 * 5]. *)
Definition __init__ (w : World) (name : str) : result unit :=
  match __init__ w (1024 * 5) with
  | Returns _ b => Ok tt (mkFileSurfer name [] b)
  | Raises e b => Error (Raised e) (mkFileSurfer name [] b)
  | Diverges => Hangs
  end.

(** The texts that the agent writes. *)
Definition unexpected_text (shown : str) : str :=
  [70; 105; 108; 101; 83; 117; 114; 102; 101; 114; 32; 20013; 20986; 29616;
   24847; 22806; 28040; 24687; 65306; 32]%N ++ shown.

Definition error_text (trace : str) : str :=
  [25991; 20214; 27983; 35272; 38169; 35823; 65306; 10; 10]%N ++ trace.

Definition decode_error_text (e : str) : str :=
  [25991; 20214; 27983; 35272; 22120; 22312; 35299; 30721; 32; 74; 83; 79; 78;
   32; 21442; 25968; 26102; 36935; 21040; 38169; 35823; 58; 32]%N ++ e.

(** [f"{title}"] for a title that can be [None]. *)
Definition str_of_title (t : option str) : str :=
  match t with
  | Some s => s
  | None => lit "None"
  end.

Definition context_text (title : option str) (p : str) : str :=
  [24744; 30340; 25991; 20214; 26597; 30475; 22120; 24403; 21069; 24050; 25171;
   24320; 35813; 25991; 20214; 25110; 30446; 24405; 39]%N
  ++ str_of_title title ++ [39; 32; 26377; 36335; 24452; 39]%N ++ p ++ lit "'.".

Definition position_text : str :=
  [35270; 21475; 20301; 32622; 65306; 26174; 31034; 39029; 38754; 32]%N.

Definition separator : str :=
  [10]%N ++ lit "=======================" ++ [10]%N.

(** The header that [_get_browser_state] builds. *)
Definition header (w : World) (b : MarkdownFileBrowser) : str :=
  let header := lit "Path: " ++ path w b ++ [10]%N in
  let header :=
    match page_title b with
    | Some t => header ++ lit "Title: " ++ t ++ [10]%N
    | None => header
    end in
  let current_page := viewport_current_page b in
  let total_pages := len (viewport_pages b) in
  header ++ position_text ++ str_of_int (current_page + 1) ++ lit " of "
  ++ str_of_int total_pages ++ lit "." ++ [10]%N.

Section Methods.

Variable unicode_word : char -> bool.
Variable unicode_lower : char -> str.
Variable env : Environment.

Local Open Scope agent_scope.

(** The loop of [on_messages] over the messages. *)
Fixpoint append_messages (messages : list ChatMessage) : method unit :=
  match messages with
  | [] => pure tt
  | chat_message :: rest =>
      match chat_message with
      | TextMessage text source =>
          append (UserMessage (Text text) source) ;; append_messages rest
      | MultiModalMessage parts source =>
          append (UserMessage (Parts parts) source) ;; append_messages rest
      | OtherMessage shown => throw (ValueError (unexpected_text shown))
      end
  end.

(** [on_reset]. *)
Definition on_reset : method unit := fun a => Ok tt (set__chat_history [] a).

(** [_get_browser_state], after the function calls of the positions before
    [i]. *)
Definition _get_browser_state (i : nat) : method (str * str) := fun a =>
  (content <- browser viewport ;;
   pure (header (world env i) (_browser a), content)) a.

(** [_get_compatible_context(messages)]. *)
Definition _get_compatible_context (messages : list LLMMessage) : list LLMMessage :=
  if vision env then messages else remove_images env messages.

(** [arguments[key]]. *)
Definition subscript (arguments : json) (key : str) : method json_value :=
  match arguments with
  | Object get =>
      match get key with
      | Some v => pure v
      | None => throw (KeyError key)
      end
  | NotObject => throw TypeError
  end.

(** The [if] and [elif] branches for the function call of position [i]. *)
Definition dispatch (i : nat) (tool_name : str) (arguments : json) : method unit :=
  if str_eqb tool_name (lit "open_path") then
    p <- subscript arguments (lit "path") ;;
    match p with
    | Str p => browser (perform unicode_word unicode_lower (ToolOpenPath (world env i) p))
    | NotStr => throw TypeError
    end
  else if str_eqb tool_name (lit "page_up") then
    browser (perform unicode_word unicode_lower ToolPageUp)
  else if str_eqb tool_name (lit "page_down") then
    browser (perform unicode_word unicode_lower ToolPageDown)
  else if str_eqb tool_name (lit "find_on_page_ctrl_f") then
    search_string <- subscript arguments (lit "search_string") ;;
    match search_string with
    | Str q => browser (perform unicode_word unicode_lower (ToolFindOnPage q))
    | NotStr => fun _ => Unmodelled
    end
  else if str_eqb tool_name (lit "find_next") then
    browser (perform unicode_word unicode_lower ToolFindNext)
  else pure tt.

(** The loop of [_generate_reply] over the function calls from position [i]
    on; [Some error_str] is the [return] in its [except] clause. *)
Fixpoint run_calls (i : nat) (function_calls : list FunctionCall)
  : method (option str) :=
  match function_calls with
  | [] => pure None
  | function_call :: rest =>
      match json_loads env (call_arguments function_call) with
      | inl e => pure (Some (decode_error_text e))
      | inr arguments =>
          dispatch i (call_name function_call) arguments ;;
          run_calls (S i) rest
      end
  end.

(** The messages that [_generate_reply] passes to the model client: the
    chat history without its last message, a message on the document that
    is open, and the task. *)
Definition messages_for (a : FileSurfer) (task_content : message_content)
  : list LLMMessage :=
  let history := slice (_chat_history a) 0 (-1) in
  let context_message :=
    UserMessage
      (Text (context_text (page_title (_browser a))
               (path (world env 0) (_browser a))))
      (lit "user") in
  let task_message := UserMessage task_content (lit "user") in
  _get_compatible_context (history ++ [context_message; task_message]).

(** [_generate_reply]. *)
Definition _generate_reply : method (bool * str) := fun a =>
  match getitem (_chat_history a) (-1) with
  | None => Error (Raised IndexError) a
  | Some (AssistantMessage _ _) => Error AssertionError a
  | Some (UserMessage task_content _) =>
      match create env (messages_for a task_content) with
      | inl e => Error e a
      | inr (Answer text) => Ok (false, text) a
      | inr (FunctionCalls function_calls) =>
          (stopped <- run_calls 0 function_calls ;;
           match stopped with
           | Some error_str => pure (false, error_str)
           | None =>
               state <- _get_browser_state (List.length function_calls) ;;
               pure (false, strip (fst state) ++ separator ++ snd state)
           end) a
      | inr OtherContent => Ok (false, lit "TERMINATE") a
      end
  end.

(** [on_messages(messages)]. *)
Definition on_messages (messages : list ChatMessage) : method Response :=
  append_messages messages ;;
  fun a =>
    catch
      (reply <- _generate_reply ;;
       append (AssistantMessage (snd reply) (name a)) ;;
       pure (mkResponse (TextMessage (snd reply) (name a))))
      (fun e =>
         let content := error_text (format_exc env e) in
         append (AssistantMessage content (name a)) ;;
         pure (mkResponse (TextMessage content (name a))))
      a.

End Methods.

End Agent.

(** *** Notions for the properties of the agent *)

(** The message is of one of the two types that [on_messages] accepts. *)
Definition expected (m : Agent.ChatMessage) : Prop :=
  match m with
  | Agent.OtherMessage _ => False
  | _ => True
  end.

(** The entry of the chat history for an accepted message, and none for
    another. *)
Definition as_user (m : Agent.ChatMessage) : list Agent.LLMMessage :=
  match m with
  | Agent.TextMessage text source => [Agent.UserMessage (Agent.Text text) source]
  | Agent.MultiModalMessage parts source =>
      [Agent.UserMessage (Agent.Parts parts) source]
  | Agent.OtherMessage _ => []
  end.

(** The decoder gives no search string that is not a string. *)
Definition string_searches (env : Agent.Environment) : Prop :=
  forall s get,
    Agent.json_loads env s = inr (Agent.Object get) ->
    get (lit "search_string") <> Some Agent.NotStr.

(** The agent is as [a] but for its browser, which is sound. *)
Definition same_agent (a a' : Agent.FileSurfer) : Prop :=
  Agent.name a' = Agent.name a
  /\ Agent._chat_history a' = Agent._chat_history a
  /\ sound (Agent._browser a').

(** The method comes back, by a return or an exception, in a state that
    satisfies [Q]. *)
Definition settles {A : Type} (Q : Agent.FileSurfer -> Prop) (r : Agent.result A)
  : Prop :=
  match r with
  | Agent.Ok _ a' => Q a'
  | Agent.Error _ a' => Q a'
  | _ => False
  end.

(** The names of the tools that [_tool_definitions.py] defines, in the order
    in which [_generate_reply] offers them to the model. *)
Definition tool_names : list str :=
  [lit "open_path"; lit "page_down"; lit "page_up"; lit "find_next";
   lit "find_on_page_ctrl_f"].

(** An environment for examples: the model client answers [answer], the
    decoder rejects the text that is an opening brace alone and reads any
    other text as an object with that text under every key, and nothing
    changes in the file system between two calls. *)
Definition demo_env (answer : Agent.agent_exn + Agent.response) : Agent.Environment :=
  Agent.mkEnvironment (fun _ => new_text_world) true (fun _ => answer) (fun m => m)
    (fun s => if str_eqb s (lit "{") then inl (lit "Expecting property name")
              else inr (Agent.Object (fun _ => Some (Agent.Str s))))
    (fun _ => lit "Traceback").

(** An agent that has been asked to scroll the three pages of [search_demo]. *)
Definition demo_agent : Agent.FileSurfer :=
  Agent.mkFileSurfer (lit "surfer")
    [Agent.UserMessage (Agent.Text (lit "scroll")) (lit "user")] search_demo.

(** A call of [page_down], and a function call whose arguments do not
    decode. *)
Definition page_down_call : Agent.FunctionCall :=
  Agent.mkFunctionCall (lit "{}") (lit "page_down").

Definition broken_call : Agent.FunctionCall :=
  Agent.mkFunctionCall (lit "{") (lit "open_path").

(** ** Proofs: pagination *)

Lemma len_nonneg {A : Type} (l : list A) : 0 <= len l.
Proof. unfold len. lia. Qed.

Lemma len_app {A : Type} (l1 l2 : list A) : len (l1 ++ l2) = len l1 + len l2.
Proof. unfold len. rewrite length_app. lia. Qed.

Lemma len_cons {A : Type} (x : A) (l : list A) : len (x :: l) = len l + 1.
Proof. unfold len. simpl List.length. lia. Qed.

Lemma len_zero_nil {A : Type} (l : list A) : len l = 0 -> l = [].
Proof. destruct l; [reflexivity | unfold len; simpl; lia]. Qed.

Lemma getitem_in_range {A : Type} (l : list A) (i : Z) :
  0 <= i < len l -> exists x, getitem l i = Some x.
Proof.
  intros Hi. unfold getitem.
  destruct (0 <=? i) eqn:E; [| apply Z.leb_gt in E; lia].
  destruct (nth_error l (Z.to_nat i)) eqn:N; [eauto |].
  apply nth_error_None in N. unfold len in Hi. lia.
Qed.

Lemma getitem_nth {A : Type} (l : list A) (i : nat) :
  getitem l (Z.of_nat i) = nth_error l i.
Proof.
  unfold getitem. destruct (0 <=? Z.of_nat i) eqn:E.
  - now rewrite Nat2Z.id.
  - apply Z.leb_gt in E. lia.
Qed.

(** The inner loop stops within its fuel, at the end of the content or right
    after a break character. *)
Lemma adjust_end_spec (content : str) (fuel : nat) :
  forall e,
    1 <= e <= len content ->
    len content - e <= Z.of_nat fuel ->
    exists e',
      adjust_end content e fuel = (e', Finished)
      /\ e <= e' <= len content
      /\ word_safe content (0, e').
Proof.
  induction fuel as [| fuel IH]; intros e He Hf; simpl.
  - assert (e = len content) by lia. subst e.
    rewrite Z.ltb_irrefl. exists (len content).
    split; [reflexivity | split; [lia | now left]].
  - destruct (e <? len content) eqn:E.
    + apply Z.ltb_lt in E.
      destruct (getitem_in_range content (e - 1)) as [c Hc]; [lia |].
      rewrite Hc. destruct (is_page_break c) eqn:B.
      * exists e. split; [reflexivity | split; [lia |]].
        right. exists c. now split.
      * destruct (IH (e + 1)) as (e' & H1 & H2 & H3); [lia | lia |].
        exists e'. split; [assumption | split; [lia | assumption]].
    + apply Z.ltb_ge in E. exists e.
      split; [reflexivity | split; [lia |]]. left. simpl. lia.
Qed.

(** The fuel of the inner loop is never used up, whatever the arguments. *)
Lemma adjust_end_fuel (content : str) (fuel : nat) :
  forall e, len content - e <= Z.of_nat fuel ->
            snd (adjust_end content e fuel) <> OutOfFuel.
Proof.
  induction fuel as [| fuel IH]; intros e Hf; simpl.
  - destruct (e <? len content) eqn:E; [apply Z.ltb_lt in E; lia | simpl; discriminate].
  - destruct (e <? len content) eqn:E; [| simpl; discriminate].
    destruct (getitem content (e - 1)); [| simpl; discriminate].
    destruct (is_page_break c); [simpl; discriminate |].
    apply IH. lia.
Qed.

(** With a size of at least one the outer loop ends within one step per
    remaining character, and its pages are contiguous, longer than zero and
    word-safe. *)
Lemma split_loop_spec (size : Z) (content : str) (fuel : nat) :
  1 <= size ->
  forall start,
    0 <= start <= len content ->
    len content - start <= Z.of_nat fuel ->
    exists ps,
      split_loop size content start fuel = (ps, Finished)
      /\ contiguous start ps (len content)
      /\ Forall (fun p => fst p < snd p) ps
      /\ Forall (word_safe content) ps
      /\ len ps <= len content - start.
Proof.
  intros Hsize. induction fuel as [| fuel IH]; intros start Hs Hf.
  - assert (start = len content) by lia. subst start.
    simpl. rewrite Z.ltb_irrefl. exists []. simpl.
    repeat apply conj; auto. unfold len; simpl; lia.
  - simpl. destruct (start <? len content) eqn:E.
    + apply Z.ltb_lt in E.
      set (e0 := Z.min (start + size) (len content)).
      destruct (adjust_end_spec content (Z.to_nat (len content - e0)) e0)
        as (e' & H1 & H2 & H3); [lia | lia |].
      rewrite H1.
      destruct (IH e') as (ps & P1 & P2 & P3 & P4 & P5); [lia | lia |].
      rewrite P1. exists ((start, e') :: ps). simpl.
      repeat apply conj; auto.
      * lia.
      * constructor; [simpl; lia | assumption].
      * rewrite len_cons. lia.
    + apply Z.ltb_ge in E. assert (start = len content) by lia. subst start.
      exists []. simpl. repeat apply conj; auto. unfold len; simpl; lia.
Qed.

(** More fuel does not change how a finished or failed run of the outer loop
    went. *)
Lemma split_loop_more_fuel (size : Z) (content : str) (fuel : nat) :
  forall start ps e,
    split_loop size content start fuel = (ps, e) ->
    e <> OutOfFuel ->
    forall fuel', (fuel <= fuel')%nat ->
                  split_loop size content start fuel' = (ps, e).
Proof.
  induction fuel as [| fuel IH]; intros start ps e H Hne fuel' Hle.
  - simpl in H. destruct (start <? len content) eqn:E.
    + inversion H; subst. congruence.
    + destruct fuel'; simpl; rewrite E; assumption.
  - destruct fuel' as [| fuel']; [lia |].
    simpl in *. destruct (start <? len content) eqn:E; [| assumption].
    destruct (adjust_end content _ _) as [e1 [| x |]]; try assumption.
    destruct (split_loop size content e1 fuel) as [ps1 en1] eqn:S1.
    inversion H; subst.
    rewrite (IH e1 ps1 e S1 Hne fuel'); [reflexivity | lia].
Qed.

Lemma contiguous_le (ps : list page) :
  forall from to, contiguous from ps to -> from <= to.
Proof.
  induction ps as [| [a b] ps IH]; simpl; intros from to H.
  - lia.
  - destruct H as (-> & Hab & Hr). apply IH in Hr. lia.
Qed.

(** Contiguous pages cover the offsets between their ends, each once. *)
Lemma contiguous_covers (ps : list page) :
  forall from to k,
    contiguous from ps to ->
    (from <= k < to <-> exists p, In p ps /\ on_page k p).
Proof.
  induction ps as [| [a b] ps IH]; simpl; intros from to k H.
  - split; [lia | intros (p & [] & _)].
  - destruct H as (-> & Hab & Hr).
    pose proof (contiguous_le _ _ _ Hr) as Hle.
    specialize (IH b to k Hr). split.
    + intros Hk. destruct (Z_lt_ge_dec k b) as [L | G].
      * exists (from, b). split; [now left | unfold on_page; simpl; lia].
      * destruct (proj1 IH) as (p & Hin & Hp); [lia |].
        exists p. split; [now right | assumption].
    + intros (p & [<- | Hin] & Hp).
      * unfold on_page in Hp; simpl in Hp. lia.
      * assert (b <= k < to) by (apply IH; eauto). lia.
Qed.

Lemma contiguous_after (ps : list page) :
  forall from to p, contiguous from ps to -> In p ps -> from <= fst p /\ snd p <= to.
Proof.
  induction ps as [| [a b] ps IH]; simpl; intros from to p H Hin; [contradiction |].
  destruct H as (-> & Hab & Hr). pose proof (contiguous_le _ _ _ Hr).
  destruct Hin as [<- | Hin]; simpl; [lia |].
  destruct (IH _ _ _ Hr Hin). lia.
Qed.

(** A page ends before a later page starts. *)
Lemma contiguous_disjoint (ps : list page) :
  forall from to i j p q,
    contiguous from ps to ->
    (i < j)%nat -> nth_error ps i = Some p -> nth_error ps j = Some q ->
    snd p <= fst q.
Proof.
  induction ps as [| [a b] ps IH]; intros from to i j p q H Hij Hi Hj.
  - destruct i; discriminate.
  - destruct H as (-> & Hab & Hr). destruct j as [| j]; [lia |].
    simpl in Hj. destruct i as [| i]; simpl in Hi.
    + inversion Hi; subst p. simpl.
      apply nth_error_In in Hj.
      destruct (contiguous_after _ _ _ _ Hr Hj). lia.
    + apply (IH b to i j p q Hr); [lia | assumption | assumption].
Qed.

(** What [_split_pages] does for a size of at least one. *)
Lemma _split_pages_spec (b : MarkdownFileBrowser) :
  1 <= viewport_size b ->
  exists ps,
    _split_pages b = Returns tt (set_viewport_pages ps b)
    /\ ps <> []
    /\ contiguous 0 ps (len (_page_content b))
    /\ (_page_content b = [] -> ps = [(0, 0)])
    /\ (_page_content b <> [] ->
        Forall (fun p => fst p < snd p) ps
        /\ Forall (word_safe (_page_content b)) ps
        /\ len ps <= len (_page_content b)).
Proof.
  intros Hsize. unfold _split_pages.
  destruct (len (_page_content b) =? 0) eqn:E.
  - apply Z.eqb_eq in E. exists [(0, 0)].
    repeat apply conj; auto; try discriminate; simpl; try lia.
    intros Hne. apply len_zero_nil in E. contradiction.
  - apply Z.eqb_neq in E. pose proof (len_nonneg (_page_content b)).
    destruct (split_loop_spec (viewport_size b) (_page_content b)
                (S (List.length (_page_content b))) Hsize 0)
      as (ps & P1 & P2 & P3 & P4 & P5); [lia | unfold len; lia |].
    rewrite P1. exists ps. split; [reflexivity |]. split; [| split; [assumption | split]].
    + intros ->. simpl in P2. lia.
    + intros Hnil. rewrite Hnil in E. now contradiction E.
    + intros _. split; [assumption | split; [assumption | lia]].
Qed.

Lemma press_in_bounds (b : MarkdownFileBrowser) (k : key) :
  in_bounds b -> in_bounds (press b k) /\ viewport_pages (press b k) = viewport_pages b.
Proof.
  unfold in_bounds. destruct k; simpl; intros H; split; auto; lia.
Qed.

Lemma navigate_in_bounds (keys : list key) :
  forall b, in_bounds b ->
            in_bounds (navigate keys b)
            /\ viewport_pages (navigate keys b) = viewport_pages b.
Proof.
  unfold navigate. induction keys as [| k keys IH]; simpl; intros b H; [auto |].
  destruct (press_in_bounds b k H) as [H1 H2].
  destruct (IH _ H1) as [H3 H4]. split; [assumption | congruence].
Qed.

(** C2. For a viewport size of at least one, [_split_pages] leaves a
    non-empty list of pages that are contiguous from offset 0 to the length
    of the content: every offset of the content lies on a page, a page ends
    before any later page starts, and the empty content gives the single
    page (0, 0).  From a page index within bounds, every sequence of
    [page_up] and [page_down] calls keeps the index within bounds (and the
    pages as they are). *)
Theorem pagination_coverage (b : MarkdownFileBrowser) (keys : list key)
    (b0 : MarkdownFileBrowser) :
  1 <= viewport_size b ->
  in_bounds b0 ->
  (exists ps,
      _split_pages b = Returns tt (set_viewport_pages ps b)
      /\ ps <> []
      /\ contiguous 0 ps (len (_page_content b))
      /\ (forall k, 0 <= k < len (_page_content b)
                    <-> exists p, In p ps /\ on_page k p)
      /\ (forall i j p q, (i < j)%nat ->
                          nth_error ps i = Some p -> nth_error ps j = Some q ->
                          snd p <= fst q)
      /\ (_page_content b = [] -> ps = [(0, 0)]))
  /\ in_bounds (navigate keys b0)
  /\ viewport_pages (navigate keys b0) = viewport_pages b0.
Proof.
  intros Hsize Hb0. split; [| now apply navigate_in_bounds].
  destruct (_split_pages_spec b Hsize) as (ps & H1 & H2 & H3 & H4 & _).
  exists ps. repeat apply conj; auto.
  - intros k. now apply contiguous_covers.
  - intros i j p q. now apply (contiguous_disjoint ps 0 (len (_page_content b))).
Qed.

Lemma pagination_coverage_witness :
  in_bounds (navigate [PageDown; PageDown; PageDown; PageUp]
               (browser_with 6 (lit "aaaa bbbb cccc") [(0, 10); (10, 14)])).
Proof.
  apply (pagination_coverage
           (browser_with 6 (lit "aaaa bbbb cccc") [])
           [PageDown; PageDown; PageDown; PageUp]
           (browser_with 6 (lit "aaaa bbbb cccc") [(0, 10); (10, 14)])).
  - simpl. lia.
  - unfold in_bounds. simpl. lia.
Defined.

(** C3. For a non-empty content and a viewport size of at least one, every
    page that [_split_pages] produces ends at the end of the content or
    right after a space, tab, carriage return or newline, so that no page
    boundary has a character other than these four on both of its sides. *)
Theorem pages_word_safe (b : MarkdownFileBrowser) :
  _page_content b <> [] ->
  1 <= viewport_size b ->
  exists ps,
    _split_pages b = Returns tt (set_viewport_pages ps b)
    /\ (forall p, In p ps ->
                  snd p = len (_page_content b)
                  \/ exists c, getitem (_page_content b) (snd p - 1) = Some c
                               /\ is_page_break c = true)
    /\ (forall p, In p ps -> ~ splits_word (_page_content b) (snd p)).
Proof.
  intros Hne Hsize.
  destruct (_split_pages_spec b Hsize) as (ps & H1 & _ & _ & _ & H5).
  destruct (H5 Hne) as (_ & Hsafe & _). rewrite Forall_forall in Hsafe.
  exists ps. split; [assumption | split].
  - intros p Hp. exact (Hsafe p Hp).
  - intros p Hp (c & d & Hc & Hd & Bc & Bd).
    destruct (Hsafe p Hp) as [Hend | (c' & Hc' & Bc')].
    + rewrite Hend in Hd. unfold getitem in Hd.
      pose proof (len_nonneg (_page_content b)) as Hl.
      destruct (0 <=? len (_page_content b)) eqn:E; [| apply Z.leb_gt in E; lia].
      assert (nth_error (_page_content b) (Z.to_nat (len (_page_content b))) = None)
        as N by (apply nth_error_None; unfold len; lia).
      congruence.
    + congruence.
Qed.

Lemma pages_word_safe_witness :
  exists ps,
    _split_pages (browser_with 6 (lit "aaaa bbbb cccc") []) =
      Returns tt (set_viewport_pages ps (browser_with 6 (lit "aaaa bbbb cccc") []))
    /\ (forall p, In p ps ->
                  snd p = 14
                  \/ exists c, getitem (lit "aaaa bbbb cccc") (snd p - 1) = Some c
                               /\ is_page_break c = true)
    /\ (forall p, In p ps -> ~ splits_word (lit "aaaa bbbb cccc") (snd p)).
Proof.
  apply (pages_word_safe (browser_with 6 (lit "aaaa bbbb cccc") [])).
  - simpl. discriminate.
  - simpl. lia.
Defined.

(** C4, as the code has it. For the content "aaaa bbbb cccc" and the
    viewport size 6, [_split_pages] produces the pages (0, 10) and (10, 14):
    the first page grows from offset 6 to the end of the word it started.
    The pages (0, 5), (5, 10), (10, 14) are those of the viewport size 5. *)
Theorem split_pages_scenario (h : list (str * timestamp)) (t : option str)
    (cur : Z) (ps : list page) (q : option str) (r : option Z)
    (q' : option str) (v : option Z) :
  _split_pages (mkBrowser 6 h t cur ps (lit "aaaa bbbb cccc") q r q' v)
  = Returns tt (mkBrowser 6 h t cur [(0, 10); (10, 14)] (lit "aaaa bbbb cccc") q r q' v)
  /\ _split_pages (mkBrowser 5 h t cur ps (lit "aaaa bbbb cccc") q r q' v)
     = Returns tt (mkBrowser 5 h t cur [(0, 5); (5, 10); (10, 14)]
                     (lit "aaaa bbbb cccc") q r q' v).
Proof. split; reflexivity. Qed.

(** C4, as the claim has it, fails: with the viewport size 6 the pages are
    not (0, 5), (5, 10), (10, 14). *)
Lemma split_pages_scenario_counterexample :
  pages_after (_split_pages (browser_with 6 (lit "aaaa bbbb cccc") []))
  <> Some [(0, 5); (5, 10); (10, 14)].
Proof. vm_compute. discriminate. Qed.

(** C9. For a viewport size of at least one [_split_pages] returns, and so
    does its loop with any fuel of at least the length of the content, with
    the same pages.  For a non-empty content every page ends after its
    start, the starts increase strictly from page to page, and there are at
    most as many pages as characters; the empty content gives one page. *)
Theorem split_pages_terminates (b : MarkdownFileBrowser) :
  1 <= viewport_size b ->
  exists ps,
    _split_pages b = Returns tt (set_viewport_pages ps b)
    /\ (_page_content b <> [] ->
        (forall fuel, (List.length (_page_content b) <= fuel)%nat ->
                      split_loop (viewport_size b) (_page_content b) 0 fuel
                      = (ps, Finished))
        /\ (forall p, In p ps -> fst p < snd p)
        /\ (forall i j p q, (i < j)%nat ->
                            nth_error ps i = Some p -> nth_error ps j = Some q ->
                            fst p < fst q)
        /\ len ps <= len (_page_content b))
    /\ (_page_content b = [] -> len ps = 1).
Proof.
  intros Hsize.
  destruct (_split_pages_spec b Hsize) as (ps & H1 & H2 & H3 & H4 & H5).
  exists ps. split; [assumption | split].
  - intros Hne. destruct (H5 Hne) as (Hpos & _ & Hlen).
    rewrite Forall_forall in Hpos. repeat apply conj; auto.
    + intros fuel Hfuel.
      destruct (split_loop_spec (viewport_size b) (_page_content b) fuel Hsize 0)
        as (ps' & P1 & _); [pose proof (len_nonneg (_page_content b)); lia
                           | unfold len; lia |].
      rewrite P1. f_equal.
      unfold _split_pages in H1.
      destruct (len (_page_content b) =? 0) eqn:E.
      * apply Z.eqb_eq, len_zero_nil in E. contradiction.
      * destruct (le_lt_dec fuel (S (List.length (_page_content b)))) as [L | G].
        -- rewrite (split_loop_more_fuel _ _ _ _ _ _ P1 ltac:(discriminate) _ L) in H1.
           inversion H1. reflexivity.
        -- destruct (split_loop (viewport_size b) (_page_content b) 0
                       (S (List.length (_page_content b)))) as [ps1 e1] eqn:S1.
           assert (e1 = Finished) as ->
               by (destruct e1; [reflexivity | discriminate | discriminate]).
           rewrite (split_loop_more_fuel _ _ _ _ _ _ S1 ltac:(discriminate) fuel) in P1
             by lia.
           inversion P1; subst. inversion H1. reflexivity.
    + intros i j p q Hij Hi Hj.
      pose proof (contiguous_disjoint ps _ _ i j p q H3 Hij Hi Hj).
      apply nth_error_In in Hi. apply Hpos in Hi. lia.
  - intros Hnil. rewrite (H4 Hnil). reflexivity.
Qed.

Lemma split_pages_terminates_witness :
  exists ps,
    _split_pages (browser_with 1 (lit "ab cd") [])
    = Returns tt (set_viewport_pages ps (browser_with 1 (lit "ab cd") []))
    /\ len ps <= 5.
Proof.
  destruct (split_pages_terminates (browser_with 1 (lit "ab cd") []))
    as (ps & H1 & H2 & _).
  - simpl. lia.
  - exists ps. split; [exact H1 |].
    apply H2. simpl. discriminate.
Defined.

(** ** Proofs: search *)

Lemma str_eqb_refl (s : str) : str_eqb s s = true.
Proof. induction s as [| c s IH]; simpl; [reflexivity |]. now rewrite N.eqb_refl. Qed.

Lemma str_eqb_eq (a : str) : forall b, str_eqb a b = true <-> a = b.
Proof.
  induction a as [| x a IH]; intros [| y b]; simpl; split; intros H;
    try reflexivity; try discriminate.
  - apply andb_true_iff in H. destruct H as [H1 H2].
    apply N.eqb_eq in H1. apply IH in H2. congruence.
  - inversion H; subst. rewrite N.eqb_refl. now apply IH.
Qed.

(** [range] and the scan order. *)
Lemma range_nil (a b : Z) : b <= a -> range a b = [].
Proof.
  intros H. unfold range. replace (Z.to_nat (b - a)) with 0%nat by lia. reflexivity.
Qed.

Lemma range_cons (a b : Z) : a < b -> range a b = a :: range (a + 1) b.
Proof.
  intros H. unfold range.
  replace (Z.to_nat (b - a)) with (S (Z.to_nat (b - (a + 1)))) by lia.
  simpl. f_equal; [lia |].
  rewrite <- seq_shift, map_map. apply map_ext. intros k. lia.
Qed.

Lemma In_range (a b x : Z) : In x (range a b) <-> a <= x < b.
Proof.
  unfold range. rewrite in_map_iff. split.
  - intros (k & <- & Hk). apply in_seq in Hk. lia.
  - intros H. exists (Z.to_nat (x - a)). split; [lia |]. apply in_seq. lia.
Qed.

Lemma NoDup_range (a b : Z) : NoDup (range a b).
Proof.
  unfold range. apply NoDup_map_NoDup_ForallPairs; [| apply seq_NoDup].
  intros x y _ _ H. lia.
Qed.

Lemma In_idxs (s n x : Z) : 0 <= s <= n -> (In x (idxs s n) <-> 0 <= x < n).
Proof.
  intros H. unfold idxs. rewrite in_app_iff, !In_range. lia.
Qed.

Lemma NoDup_idxs (s n : Z) : NoDup (idxs s n).
Proof.
  unfold idxs. apply NoDup_app; [apply NoDup_range | apply NoDup_range |].
  intros x H1 H2. apply In_range in H1, H2. lia.
Qed.

Lemma hd_idxs (s n : Z) : s < n -> hd_error (idxs s n) = Some s.
Proof. intros H. unfold idxs. now rewrite range_cons. Qed.

(** The first hit of a scan over a range. *)
Lemma find_range (f : Z -> bool) (b : Z) (m : nat) :
  forall a, Z.to_nat (b - a) = m ->
    match find f (range a b) with
    | Some r => a <= r < b /\ f r = true /\ forall x, a <= x < r -> f x = false
    | None => forall x, a <= x < b -> f x = false
    end.
Proof.
  induction m as [| m IH]; intros a Hm.
  - rewrite range_nil by lia. simpl. intros x Hx. lia.
  - rewrite range_cons by lia. simpl. destruct (f a) eqn:Fa.
    + split; [lia | split; [assumption | intros x Hx; lia]].
    + specialize (IH (a + 1) ltac:(lia)).
      destruct (find f (range (a + 1) b)) as [r |].
      * destruct IH as (H1 & H2 & H3). split; [lia | split; [assumption |]].
        intros x Hx. destruct (Z.eq_dec x a) as [-> | Hne]; [assumption |].
        apply H3. lia.
      * intros x Hx. destruct (Z.eq_dec x a) as [-> | Hne]; [assumption |].
        apply IH. lia.
Qed.

Lemma find_app_first {A : Type} (f : A -> bool) (l1 l2 : list A) :
  find f (l1 ++ l2) = match find f l1 with
                      | Some x => Some x
                      | None => find f l2
                      end.
Proof.
  induction l1 as [| x l1 IH]; simpl; [reflexivity |].
  destruct (f x); [reflexivity | assumption].
Qed.

Lemma find_same {A : Type} (f g : A -> bool) (l : list A) :
  (forall x, f x = g x) -> find f l = find g l.
Proof.
  intros H. induction l as [| x l IH]; simpl; [reflexivity |].
  rewrite H, IH. reflexivity.
Qed.

Lemma find_split {A : Type} (f : A -> bool) (l : list A) (j : A) :
  find f l = Some j ->
  exists before after,
    l = before ++ j :: after /\ f j = true
    /\ forall x, In x before -> f x = false.
Proof.
  induction l as [| x l IH]; simpl; [discriminate |].
  destruct (f x) eqn:Fx.
  - intros H. inversion H; subst. exists [], l. simpl.
    split; [reflexivity | split; [assumption | intros y []]].
  - intros H. destruct (IH H) as (before & after & -> & Hj & Hb).
    exists (x :: before), after. simpl. split; [reflexivity | split; [assumption |]].
    intros y [<- | Hy]; auto.
Qed.

(** The first hit of the circular scan from [s], and how far it is from a
    page [p] that is a hit, compared with the page [j] before [s]. *)
Lemma find_idxs_progress (f : Z -> bool) (n j p : Z) :
  0 <= j < n -> 0 <= p < n -> f p = true ->
  let s := if j + 1 >=? n then 0 else j + 1 in
  exists j',
    find f (idxs s n) = Some j' /\ 0 <= j' < n /\ f j' = true
    /\ (j' = p \/ steps_to n j' p < steps_to n j p).
Proof.
  intros Hj Hp Fp s. unfold idxs. rewrite find_app_first.
  assert (Hs : 0 <= s < n) by (subst s; destruct (j + 1 >=? n) eqn:E; lia).
  assert (Hsj : s = 0 /\ j = n - 1 \/ s = j + 1)
    by (subst s; destruct (j + 1 >=? n) eqn:E; lia).
  pose proof (find_range f n (Z.to_nat (n - s)) s eq_refl) as H1.
  pose proof (find_range f s (Z.to_nat (s - 0)) 0 eq_refl) as H2.
  unfold steps_to.
  destruct (find f (range s n)) as [r |].
  - destruct H1 as (R1 & R2 & R3). exists r.
    split; [reflexivity | split; [lia | split; [assumption |]]].
    destruct (Z.eq_dec r p) as [-> | Hne]; [now left | right].
    assert (~ (s <= p < r)) by (intros C; rewrite (R3 p C) in Fp; discriminate).
    destruct (r <? p) eqn:E1, (j <? p) eqn:E2; lia.
  - destruct (find f (range 0 s)) as [r |].
    + destruct H2 as (R1 & R2 & R3). exists r.
      split; [reflexivity | split; [lia | split; [assumption |]]].
      destruct (Z.eq_dec r p) as [-> | Hne]; [now left | right].
      assert (~ (s <= p < n)) by (intros C; rewrite (H1 p C) in Fp; discriminate).
      assert (~ (0 <= p < r)) by (intros C; rewrite (R3 p C) in Fp; discriminate).
      destruct (r <? p) eqn:E1, (j <? p) eqn:E2; lia.
    + exfalso. destruct (Z_lt_ge_dec p s) as [L | G].
      * rewrite (H2 p) in Fp by lia. discriminate.
      * rewrite (H1 p) in Fp by lia. discriminate.
Qed.

(** The circular scan from any page finds a hit when there is one. *)
Lemma find_idxs_some (f : Z -> bool) (n s p : Z) :
  0 <= s <= n -> 0 <= p < n -> f p = true ->
  exists j', find f (idxs s n) = Some j' /\ 0 <= j' < n /\ f j' = true.
Proof.
  intros Hs Hp Fp.
  destruct (find f (idxs s n)) as [j' |] eqn:E.
  - exists j'. split; [reflexivity |]. apply find_some in E. destruct E as [E1 E2].
    apply In_idxs in E1; [auto | lia].
  - exfalso. pose proof (find_none f _ E p) as H.
    rewrite H in Fp; [discriminate | apply In_idxs; lia].
Qed.

Lemma steps_to_bounds (n j p : Z) :
  0 <= j < n -> 0 <= p < n -> 1 <= steps_to n j p <= n.
Proof. intros Hj Hp. unfold steps_to. destruct (j <? p) eqn:E; lia. Qed.

Section SearchProofs.

Variable unicode_word : char -> bool.
Variable unicode_lower : char -> str.

Local Abbreviation find_next := (find_next unicode_word unicode_lower).
Local Abbreviation find_on_page := (find_on_page unicode_word unicode_lower).
Local Abbreviation _find_next_viewport := (_find_next_viewport unicode_word unicode_lower).
Local Abbreviation normalize_query := (normalize_query unicode_word unicode_lower).
Local Abbreviation normalize_content := (normalize_content unicode_word unicode_lower).
Local Abbreviation page_hit := (page_hit unicode_word unicode_lower).
Local Abbreviation page_matches := (page_matches unicode_word unicode_lower).
Local Abbreviation find_next_calls := (find_next_calls unicode_word unicode_lower).
Local Abbreviation then_find_next := (then_find_next unicode_word unicode_lower).

(** [_find_next_viewport] reads the object and leaves it as it is. *)
Lemma _find_next_viewport_reads (q : option str) (start : Z) (b : MarkdownFileBrowser) :
  (exists r, _find_next_viewport q start b = Returns r b)
  \/ (exists e, _find_next_viewport q start b = Raises e b).
Proof.
  unfold _find_next_viewport.
  destruct q as [q |]; [| left; eauto].
  destruct (str_eqb _ _); [left; eauto |].
  destruct (scan_pages _ _ _ _ _); [right | left]; eauto.
Qed.

Lemma same_document_refl (b : MarkdownFileBrowser) : same_document b b.
Proof. unfold same_document. auto 10. Qed.

Lemma same_document_trans (b1 b2 b3 : MarkdownFileBrowser) :
  same_document b1 b2 -> same_document b2 b3 -> same_document b1 b3.
Proof. unfold same_document. intuition congruence. Qed.

Lemma go_to_match_keeps (m : option Z) (b : MarkdownFileBrowser) :
  keeps_document b (go_to_match m b).
Proof.
  destruct m as [i |]; unfold go_to_match, bind, assign, ret, viewport; simpl.
  - destruct (getitem (viewport_pages b) i) as [[lo hi] |]; simpl;
      unfold same_document; simpl; auto 10.
  - unfold same_document; simpl; auto 10.
Qed.

Lemma find_next_keeps (b : MarkdownFileBrowser) : keeps_document b (find_next b).
Proof.
  unfold find_next.
  destruct (_find_on_page_query b) as [q |]; [| apply same_document_refl].
  unfold bind.
  destruct (_find_next_viewport_reads (Some q) (starting_viewport b) b)
    as [[r H] | [e H]]; rewrite H.
  - apply go_to_match_keeps.
  - apply same_document_refl.
Qed.

Lemma find_on_page_keeps (query : str) (b : MarkdownFileBrowser) :
  keeps_document b (find_on_page query b).
Proof.
  unfold find_on_page.
  destruct (same_query _ _ && same_page _ _); [apply find_next_keeps |].
  unfold bind, assign.
  set (b1 := set__find_on_page_query (Some query) b).
  assert (same_document b b1) as H1 by (unfold same_document; simpl; auto 10).
  change (viewport_current_page b) with (viewport_current_page b1).
  destruct (_find_next_viewport_reads (Some query) (viewport_current_page b1) b1)
    as [[r H] | [e H]]; rewrite H.
  - pose proof (go_to_match_keeps r b1) as H2.
    revert H2. destruct (go_to_match r b1); simpl; intros H2;
      [exact (same_document_trans _ _ _ H1 H2) .. | contradiction].
  - exact H1.
Qed.

(** C10. [find_on_page] and [find_next] come back, by a return or by an
    exception, with the content, the page ranges, the title, the history,
    the viewport size and the two attributes that only [set_path] assigns
    as they were: of the attributes of the object, they can change none but
    [viewport_current_page], [_find_on_page_query] and
    [_find_on_page_last_result]. *)
Theorem search_keeps_document (query : str) (b : MarkdownFileBrowser) :
  keeps_document b (find_on_page query b) /\ keeps_document b (find_next b).
Proof. split; [apply find_on_page_keeps | apply find_next_keeps]. Qed.

(** C5. When the query is the one submitted before and the current page is
    the remembered match page, [find_on_page] is [find_next]: the same
    result and the same state. *)
Theorem find_on_page_repeats (query : str) (b : MarkdownFileBrowser) :
  _find_on_page_query b = Some query ->
  _find_on_page_last_result b = Some (viewport_current_page b) ->
  find_on_page query b = find_next b.
Proof.
  intros Hq Hr. unfold find_on_page.
  rewrite Hq, Hr. simpl. now rewrite str_eqb_refl, Z.eqb_refl.
Qed.

Lemma page_hit_same (b0 b : MarkdownFileBrowser) (nq : str) (i : Z) :
  viewport_pages b = viewport_pages b0 ->
  _page_content b = _page_content b0 ->
  page_hit b nq i = page_hit b0 nq i.
Proof. intros H1 H2. unfold page_hit. now rewrite H1, H2. Qed.

Lemma page_hit_compiles (b : MarkdownFileBrowser) (nq : str) (i : Z) :
  page_hit b nq i = true -> re_compile nq <> None.
Proof.
  unfold page_hit, re_search. intros H C. rewrite C in H. simpl in H.
  destruct (getitem (viewport_pages b) i) as [[lo hi] |]; discriminate.
Qed.

(** On indices of [viewport_pages] and with a pattern that compiles, the
    loop of [_find_next_viewport] returns the first hit. *)
Lemma scan_pages_find (b : MarkdownFileBrowser) (nq : str) (l : list Z) :
  re_compile nq <> None ->
  (forall i, In i l -> 0 <= i < len (viewport_pages b)) ->
  scan_pages unicode_word unicode_lower b nq l = inr (find (page_hit b nq) l).
Proof.
  intros Hc. induction l as [| i l IH]; intros Hl; [reflexivity |].
  cbn [scan_pages find].
  destruct (getitem_in_range (viewport_pages b) i) as [[lo hi] Hg];
    [apply Hl; now left |].
  unfold page_hit at 1. rewrite Hg. unfold re_search.
  destruct (re_compile nq) as [items |]; [| contradiction]. cbn [option_map].
  destruct (match_anywhere items _); [reflexivity |].
  apply IH. intros x Hx. apply Hl. now right.
Qed.

Lemma starting_viewport_range (b : MarkdownFileBrowser) :
  (forall r, _find_on_page_last_result b = Some r -> 0 <= r) ->
  1 <= len (viewport_pages b) ->
  0 <= starting_viewport b < len (viewport_pages b).
Proof.
  intros Hr Hn. unfold starting_viewport.
  destruct (_find_on_page_last_result b) as [r |]; [| lia].
  specialize (Hr r eq_refl). destruct (r + 1 >=? len (viewport_pages b)) eqn:E; lia.
Qed.

(** [find_next] moves to the first hit of its scan. *)
Lemma find_next_moves (q : str) (b : MarkdownFileBrowser) (j : Z) :
  _find_on_page_query b = Some q ->
  str_eqb (strip (normalize_query q)) [] = false ->
  0 <= starting_viewport b <= len (viewport_pages b) ->
  find (page_hit b (normalize_query q))
    (idxs (starting_viewport b) (len (viewport_pages b))) = Some j ->
  exists lo hi,
    getitem (viewport_pages b) j = Some (lo, hi)
    /\ find_next b = Returns (Some (slice (_page_content b) lo hi)) (moved_to j b).
Proof.
  intros Hq Hne Hs Hf.
  pose proof (find_some _ _ Hf) as [Hin Hhit].
  apply In_idxs in Hin; [| assumption].
  destruct (getitem_in_range (viewport_pages b) j Hin) as [[lo hi] Hg].
  exists lo, hi. split; [assumption |].
  unfold find_next. rewrite Hq. unfold bind, _find_next_viewport. rewrite Hne.
  rewrite scan_pages_find.
  - rewrite Hf. unfold go_to_match, bind, assign, viewport. simpl. now rewrite Hg.
  - exact (page_hit_compiles _ _ _ Hhit).
  - intros x Hx. now apply In_idxs in Hx.
Qed.

Lemma page_matches_hit (q : str) (b : MarkdownFileBrowser) (i : Z) :
  str_eqb (strip (normalize_query q)) [] = false ->
  page_matches q b i = page_hit b (normalize_query q) i.
Proof. intros H. unfold page_matches. now rewrite H. Qed.

Lemma page_matches_true (q : str) (b : MarkdownFileBrowser) (i : Z) :
  page_matches q b i = true ->
  str_eqb (strip (normalize_query q)) [] = false
  /\ page_hit b (normalize_query q) i = true.
Proof.
  unfold page_matches. intros H. apply andb_true_iff in H. destruct H as [H1 H2].
  split; [now apply negb_true_iff in H1 | assumption].
Qed.

Lemma searching_moved (q : str) (b0 b : MarkdownFileBrowser) (j : Z) :
  searching q b0 b -> searching q b0 (moved_to j b).
Proof. unfold searching. simpl. auto. Qed.

(** While a query matches some page, every further call returns a match. *)
Lemma find_next_calls_match (q : str) (b0 : MarkdownFileBrowser) (i : Z) :
  0 <= i < len (viewport_pages b0) ->
  page_matches q b0 i = true ->
  forall k b v0,
    searching q b0 b ->
    (forall r, _find_on_page_last_result b = Some r -> 0 <= r) ->
    exists v b',
      Nat.iter (S k) then_find_next (Returns v0 b) = Returns (Some v) b'
      /\ searching q b0 b'
      /\ (forall r, _find_on_page_last_result b' = Some r -> 0 <= r).
Proof.
  intros Hi Hm. apply page_matches_true in Hm. destruct Hm as [Hne Hhit].
  assert (Step : forall b, searching q b0 b ->
                   (forall r, _find_on_page_last_result b = Some r -> 0 <= r) ->
                   exists v b', find_next b = Returns (Some v) b'
                                /\ searching q b0 b'
                                /\ (forall r, _find_on_page_last_result b' = Some r -> 0 <= r)).
  { intros b Hs Hr. pose proof Hs as (Hq & Hp & Hc).
    assert (Hrange : 0 <= starting_viewport b < len (viewport_pages b))
      by (apply starting_viewport_range; [assumption | rewrite Hp; lia]).
    destruct (find_idxs_some (page_hit b (normalize_query q))
                (len (viewport_pages b)) (starting_viewport b) i)
      as (j & Hf & Hj & _); [lia | rewrite Hp; lia | |].
    { rewrite (page_hit_same b0 b) by assumption. exact Hhit. }
    destruct (find_next_moves q b j Hq Hne ltac:(lia) Hf) as (lo & hi & _ & Hfn).
    eexists _, _. split; [exact Hfn | split; [now apply searching_moved |]].
    simpl. intros r Hr'. inversion Hr'; subst. lia. }
  induction k as [| k IH]; intros b v0 Hs Hr.
  - simpl. now apply Step.
  - destruct (IH b v0 Hs Hr) as (v & b' & E & Hs' & Hr').
    change (Nat.iter (S (S k)) then_find_next (Returns v0 b))
      with (then_find_next (Nat.iter (S k) then_find_next (Returns v0 b))).
    rewrite E. simpl. now apply Step.
Qed.

(** From a remembered page, [find_next] calls come back to a page that
    matches within as many calls as the page is steps away. *)
Lemma find_next_calls_revisit (q : str) (b0 : MarkdownFileBrowser) (p : Z) :
  0 <= p < len (viewport_pages b0) ->
  page_matches q b0 p = true ->
  forall m b v0 j,
    searching q b0 b ->
    _find_on_page_last_result b = Some j ->
    0 <= j < len (viewport_pages b0) ->
    steps_to (len (viewport_pages b0)) j p <= Z.of_nat m ->
    exists k,
      (1 <= k <= m)%nat
      /\ exists v b',
          Nat.iter k then_find_next (Returns v0 b) = Returns (Some v) b'
          /\ viewport_current_page b' = p
          /\ _find_on_page_last_result b' = Some p.
Proof.
  intros Hp Hm. apply page_matches_true in Hm. destruct Hm as [Hne Hhit].
  induction m as [| m IH]; intros b v0 j Hs Hl Hj Hsteps.
  - pose proof (steps_to_bounds _ j p Hj Hp). lia.
  - pose proof Hs as (Hq & Hpg & Hc).
    destruct (find_idxs_progress (page_hit b0 (normalize_query q))
                (len (viewport_pages b0)) j p Hj Hp Hhit)
      as (j' & Hf & Hj' & _ & Hprog).
    assert (Hstart : starting_viewport b
                     = if j + 1 >=? len (viewport_pages b0) then 0 else j + 1)
      by (unfold starting_viewport; now rewrite Hl, Hpg).
    assert (Hf' : find (page_hit b (normalize_query q))
                    (idxs (starting_viewport b) (len (viewport_pages b))) = Some j').
    { rewrite Hstart, Hpg, <- Hf. apply find_same. intros x.
      now apply page_hit_same. }
    destruct (find_next_moves q b j' Hq Hne) as (lo & hi & _ & Hfn);
      [rewrite Hstart, Hpg; destruct (j + 1 >=? len (viewport_pages b0)) eqn:E; lia
      | exact Hf' |].
    destruct Hprog as [-> | Hless].
    + exists 1%nat. split; [lia |]. simpl. rewrite Hfn.
      eexists _, _. split; [reflexivity | split; reflexivity].
    + destruct (IH (moved_to j' b) (Some (slice (_page_content b) lo hi)) j')
        as (k & Hk & v & b' & E & R1 & R2);
        [now apply searching_moved | reflexivity | assumption | lia |].
      exists (S k). split; [lia |]. exists v, b'.
      rewrite Nat.iter_succ_r. simpl. rewrite Hfn. auto.
Qed.

(** The calls of [find_next_calls] do not look at the value they start
    from. *)
Lemma iter_then_find_next (k : nat) (v0 : option str) (b : MarkdownFileBrowser) :
  (1 <= k)%nat ->
  Nat.iter k then_find_next (Returns v0 b) = find_next_calls k b.
Proof.
  intros Hk. unfold find_next_calls. destruct k as [| k]; [lia |].
  now rewrite !Nat.iter_succ_r.
Qed.

(** C7. While the active query matches some page and the remembered page,
    if any, is not negative: every [find_next] call returns a match; the
    scan starts at the page after the remembered one (at page 0 after the
    last page or when no page is remembered), visits every page once, and
    the call moves to the first page of this order that matches; and the
    calls come back to a remembered match page, and to the page of the
    first call, within as many calls as there are pages. *)
Theorem find_next_wraps (q : str) (b : MarkdownFileBrowser) (i : Z) :
  _find_on_page_query b = Some q ->
  (forall r, _find_on_page_last_result b = Some r -> 0 <= r) ->
  0 <= i < len (viewport_pages b) ->
  page_matches q b i = true ->
  let n := len (viewport_pages b) in
  let order := idxs (starting_viewport b) n in
  (forall k, (1 <= k)%nat ->
             exists v b', find_next_calls k b = Returns (Some v) b')
  /\ (starting_viewport b
      = match _find_on_page_last_result b with
        | None => 0
        | Some r => if r + 1 >=? n then 0 else r + 1
        end
      /\ hd_error order = Some (starting_viewport b)
      /\ NoDup order
      /\ forall x, In x order <-> 0 <= x < n)
  /\ (exists j v before after,
         find_next b = Returns (Some v) (moved_to j b)
         /\ viewport (moved_to j b) = Returns v (moved_to j b)
         /\ order = before ++ j :: after
         /\ (forall x, In x before -> page_matches q b x = false)
         /\ page_matches q b j = true)
  /\ (forall p,
         _find_on_page_last_result b = Some p -> p < n ->
         page_matches q b p = true ->
         exists k,
           (1 <= k)%nat /\ Z.of_nat k <= n
           /\ exists v b',
               find_next_calls k b = Returns (Some v) b'
               /\ viewport_current_page b' = p
               /\ _find_on_page_last_result b' = Some p)
  /\ (exists v1 b1,
         find_next b = Returns (Some v1) b1
         /\ exists k,
             (1 <= k)%nat /\ Z.of_nat k <= n
             /\ exists v b',
                 find_next_calls k b1 = Returns (Some v) b'
                 /\ viewport_current_page b' = viewport_current_page b1).
Proof.
  intros Hq Hr Hi Hm n order.
  pose proof (page_matches_true _ _ _ Hm) as [Hne Hhit].
  assert (Hs : searching q b b) by (unfold searching; auto).
  assert (Hstart : 0 <= starting_viewport b < n)
    by (apply starting_viewport_range; [assumption | lia]).
  destruct (find_idxs_some (page_hit b (normalize_query q)) n
              (starting_viewport b) i) as (j & Hf & Hj & Hjhit);
    [lia | lia | assumption |].
  destruct (find_next_moves q b j Hq Hne ltac:(lia) Hf) as (lo & hi & Hg & Hfn).
  assert (Hmj : page_matches q b j = true)
    by (rewrite page_matches_hit; assumption).
  assert (Revisit : forall b1 p,
             searching q b b1 -> _find_on_page_last_result b1 = Some p ->
             0 <= p < n -> page_matches q b p = true ->
             exists k, (1 <= k)%nat /\ Z.of_nat k <= n
                       /\ exists v b', find_next_calls k b1 = Returns (Some v) b'
                                       /\ viewport_current_page b' = p
                                       /\ _find_on_page_last_result b' = Some p).
  { intros b1 p Hs1 Hl Hp Hmp.
    destruct (find_next_calls_revisit q b p Hp Hmp (Z.to_nat n) b1 None p Hs1 Hl Hp)
      as (k & Hk & v & b' & E & R1 & R2).
    - pose proof (steps_to_bounds n p p Hp Hp). fold n. lia.
    - exists k. split; [lia | split; [lia |]]. exists v, b'.
      rewrite <- (iter_then_find_next k None b1) by lia. auto. }
  split; [| split; [| split; [| split]]].
  - intros k Hk. destruct k as [| k]; [lia |].
    destruct (find_next_calls_match q b i Hi Hm k b None Hs Hr) as (v & b' & E & _).
    exists v, b'. exact E.
  - split; [reflexivity | split; [apply hd_idxs; lia | split; [apply NoDup_idxs |]]].
    intros x. apply In_idxs. lia.
  - destruct (find_split _ _ _ Hf) as (before & after & Ho & _ & Hb).
    exists j, (slice (_page_content b) lo hi), before, after.
    split; [exact Hfn | split; [| split; [exact Ho | split; [| exact Hmj]]]].
    + unfold viewport. simpl. now rewrite Hg.
    + intros x Hx. rewrite page_matches_hit by assumption. now apply Hb.
  - intros p Hl Hp Hmp. specialize (Hr p Hl).
    apply Revisit; [assumption | assumption | lia | assumption].
  - exists (slice (_page_content b) lo hi), (moved_to j b).
    split; [exact Hfn |].
    destruct (Revisit (moved_to j b) j) as (k & K1 & K2 & v & b' & E & R1 & _);
      [now apply searching_moved | reflexivity | lia | assumption |].
    exists k. split; [assumption | split; [assumption |]].
    exists v, b'. split; [exact E | exact R1].
Qed.

(** *** Blank patterns *)

Lemma find_on_page_blank (q : str) (b : MarkdownFileBrowser) :
  str_eqb (strip (normalize_query q)) [] = true ->
  no_match b (find_on_page q b).
Proof.
  intros Hblank. unfold no_match, find_on_page.
  destruct (same_query q (_find_on_page_query b)
            && same_page (viewport_current_page b) (_find_on_page_last_result b))
    eqn:E.
  - apply andb_true_iff in E. destruct E as [E _].
    unfold same_query in E. destruct (_find_on_page_query b) as [q' |] eqn:Hq;
      [| discriminate].
    apply str_eqb_eq in E. subst q'.
    unfold find_next. rewrite Hq. unfold bind, _find_next_viewport. rewrite Hblank.
    eexists. split; reflexivity.
  - unfold bind, assign, _find_next_viewport. rewrite Hblank.
    eexists. split; reflexivity.
Qed.

Lemma ascii_all (P : char -> bool) :
  forallb P (List.map N.of_nat (seq 0 128)) = true ->
  forall c, (c < 128)%N -> P c = true.
Proof.
  intros H c Hc. rewrite forallb_forall in H. apply H.
  apply in_map_iff. exists (N.to_nat c). split; [lia |]. apply in_seq. lia.
Qed.

Lemma isspace_not_word (c : char) : isspace c = true -> is_word unicode_word c = false.
Proof.
  intros H. unfold is_word. destruct (N.ltb_spec c 128) as [L | G].
  - pose proof (ascii_all (fun c => implb (isspace c) (negb (ascii_word c)))
                  eq_refl c L) as A.
    simpl in A. rewrite H in A. simpl in A. now apply negb_true_iff in A.
  - now rewrite H.
Qed.

Lemma isspace_not_star (c : char) : isspace c = true -> (c =? 42)%N = false.
Proof.
  intros H. destruct (N.eqb_spec c 42) as [-> | Hne]; [discriminate H | reflexivity].
Qed.

Lemma re_sub_star_spaces (q : str) :
  forallb isspace q = true -> re_sub_star q = q.
Proof.
  induction q as [| c q IH]; simpl; [reflexivity |]. intros H.
  apply andb_true_iff in H. destruct H as [H1 H2].
  rewrite (isspace_not_star c H1). simpl. now rewrite IH.
Qed.

Lemma re_split_W_spaces (q : str) :
  q <> [] -> forallb isspace q = true ->
  re_split_W unicode_word q = [[]; []].
Proof.
  induction q as [| c q IH]; [contradiction |]. intros _ H.
  cbn [forallb] in H. apply andb_true_iff in H. destruct H as [H1 H2].
  cbn [re_split_W]. rewrite (isspace_not_word c H1).
  destruct q as [| c' q']; [reflexivity |].
  assert (isspace c' = true) as H3
      by (cbn [forallb] in H2; now apply andb_true_iff in H2).
  rewrite (isspace_not_word c' H3). apply IH; [discriminate | assumption].
Qed.

Lemma normalize_query_spaces (q : str) :
  forallb isspace q = true ->
  str_eqb (strip (normalize_query q)) [] = true.
Proof.
  intros H. unfold normalize_query, collapse. rewrite (re_sub_star_spaces q H).
  destruct q as [| c q']; [reflexivity |].
  rewrite re_split_W_spaces; [reflexivity | discriminate | assumption].
Qed.

(** *** The regular expressions of the two scenarios *)

Lemma match_anywhere_app (p : list item) (A t : str) :
  match_here p t = true -> match_anywhere p (A ++ t) = true.
Proof.
  intros H. induction A as [| a A IH].
  - destruct t; simpl; now rewrite H.
  - cbn [app match_anywhere]. rewrite IH. apply orb_true_r.
Qed.

Lemma match_here_star (a : atom) (p : list item) (t : str) :
  match_here (Star a :: p) t
  = match_here p t
    || match t with
       | c :: t' => atom_matches a c && match_here (Star a :: p) t'
       | [] => false
       end.
Proof. destruct t; reflexivity. Qed.

(** [.*] can run over any text without a newline. *)
Lemma match_here_star_any (p : list item) (B t : str) :
  ~ In 10%N B ->
  match_here p t = true ->
  match_here (Star AnyChar :: p) (B ++ t) = true.
Proof.
  intros HB Ht. induction B as [| c B IH].
  - simpl app. rewrite match_here_star, Ht. reflexivity.
  - simpl app. rewrite match_here_star, IH.
    + assert ((c =? 10)%N = false) as E
          by (apply N.eqb_neq; intros ->; apply HB; now left).
      simpl. rewrite E. apply orb_true_r.
    + intros C. apply HB. now right.
Qed.

(** The pattern of the query "*" is found in every page text. *)
Lemma star_hits_every_text (content : str) :
  re_search (normalize_query (lit "*")) (normalize_content content) = Some true.
Proof. reflexivity. Qed.

(** *** The text of a page as it is searched *)

Local Abbreviation collapse := (collapse unicode_word).

Lemma re_split_W_nonempty (s : str) : re_split_W unicode_word s <> [].
Proof.
  induction s as [| c s IH]; cbn [re_split_W]; [discriminate |].
  destruct (is_word unicode_word c).
  - destruct (re_split_W unicode_word s); discriminate.
  - destruct s as [| c' s']; [discriminate |].
    destruct (is_word unicode_word c'); [discriminate | exact IH].
Qed.

Lemma collapse_word (c : char) (s : str) :
  is_word unicode_word c = true -> collapse (c :: s) = c :: collapse s.
Proof.
  intros H. unfold collapse. cbn [re_split_W]. rewrite H.
  pose proof (re_split_W_nonempty s) as N.
  destruct (re_split_W unicode_word s) as [| w ws]; [contradiction |].
  destruct ws; reflexivity.
Qed.

Lemma collapse_sep_end (c : char) :
  is_word unicode_word c = false -> collapse [c] = [32%N].
Proof. intros H. unfold collapse. cbn [re_split_W]. now rewrite H. Qed.

Lemma collapse_sep_word (c c' : char) (s : str) :
  is_word unicode_word c = false -> is_word unicode_word c' = true ->
  collapse (c :: c' :: s) = 32%N :: collapse (c' :: s).
Proof.
  intros H H'. unfold collapse. change (re_split_W unicode_word (c :: c' :: s))
    with (if is_word unicode_word c
          then cons_head c (re_split_W unicode_word (c' :: s))
          else if is_word unicode_word c'
               then [] :: re_split_W unicode_word (c' :: s)
               else re_split_W unicode_word (c' :: s)).
  rewrite H, H'.
  pose proof (re_split_W_nonempty (c' :: s)) as N.
  destruct (re_split_W unicode_word (c' :: s)) as [| w ws]; [contradiction |].
  reflexivity.
Qed.

Lemma collapse_sep_sep (c c' : char) (s : str) :
  is_word unicode_word c = false -> is_word unicode_word c' = false ->
  collapse (c :: c' :: s) = collapse (c' :: s).
Proof.
  intros H H'. unfold collapse. change (re_split_W unicode_word (c :: c' :: s))
    with (if is_word unicode_word c
          then cons_head c (re_split_W unicode_word (c' :: s))
          else if is_word unicode_word c'
               then [] :: re_split_W unicode_word (c' :: s)
               else re_split_W unicode_word (c' :: s)).
  now rewrite H, H'.
Qed.

(** A text that ends a run of other characters and a text that starts with
    a word character are collapsed one after the other. *)
Lemma collapse_app (pre0 : str) (x c : char) (s : str) :
  is_word unicode_word x = false -> is_word unicode_word c = true ->
  collapse ((pre0 ++ [x]) ++ c :: s) = collapse (pre0 ++ [x]) ++ collapse (c :: s).
Proof.
  intros Hx Hc. induction pre0 as [| y pre0 IH].
  - simpl app. rewrite (collapse_sep_word x c s Hx Hc), (collapse_sep_end x Hx). reflexivity.
  - destruct (is_word unicode_word y) eqn:Hy.
    + simpl app in *. rewrite !(collapse_word y) by assumption. now rewrite IH.
    + destruct pre0 as [| z pre0].
      * simpl app in *. rewrite !(collapse_sep_sep y x) by assumption. exact IH.
      * simpl app in *. destruct (is_word unicode_word z) eqn:Hz.
        -- rewrite !(collapse_sep_word y z) by assumption. now rewrite IH.
        -- rewrite !(collapse_sep_sep y z) by assumption. exact IH.
Qed.

Lemma collapse_ends_space (pre0 : str) (x : char) :
  is_word unicode_word x = false ->
  exists A, collapse (pre0 ++ [x]) = A ++ [32%N].
Proof.
  intros Hx. induction pre0 as [| y pre0 IH].
  - exists []. exact (collapse_sep_end x Hx).
  - destruct IH as [A HA]. destruct (is_word unicode_word y) eqn:Hy.
    + exists (y :: A). simpl app in *. rewrite (collapse_word y) by assumption.
      now rewrite HA.
    + destruct pre0 as [| z pre0].
      * exists A. simpl app in *. now rewrite collapse_sep_sep.
      * simpl app in *. destruct (is_word unicode_word z) eqn:Hz.
        -- exists (32%N :: A). rewrite collapse_sep_word by assumption. now rewrite HA.
        -- exists A. now rewrite collapse_sep_sep.
Qed.

(** A collapsed text holds word characters and spaces only. *)
Lemma collapse_chars (s : str) :
  Forall (fun c => is_word unicode_word c = true \/ c = 32%N) (collapse s).
Proof.
  induction s as [| c s IH]; [constructor |].
  destruct (is_word unicode_word c) eqn:Hc.
  - rewrite collapse_word by assumption. constructor; auto.
  - destruct s as [| c' s'].
    + rewrite collapse_sep_end by assumption. constructor; auto.
    + destruct (is_word unicode_word c') eqn:Hc'.
      * rewrite collapse_sep_word by assumption. constructor; auto.
      * rewrite collapse_sep_sep by assumption. exact IH.
Qed.

Lemma lstrip_app_nonspace (X : str) (c : char) (Z : str) :
  isspace c = false -> lstrip (X ++ c :: Z) = lstrip X ++ c :: Z.
Proof.
  intros Hc. induction X as [| x X IH]; simpl.
  - now rewrite Hc.
  - destruct (isspace x); [exact IH | reflexivity].
Qed.

Lemma rstrip_app_nonspace (U : str) (c : char) (Y : str) :
  isspace c = false -> rstrip (U ++ c :: Y) = U ++ c :: rstrip Y.
Proof.
  intros Hc. unfold rstrip. rewrite rev_app_distr. simpl rev.
  rewrite <- app_assoc. simpl app. rewrite lstrip_app_nonspace by assumption.
  rewrite rev_app_distr. simpl rev. rewrite rev_involutive, <- app_assoc.
  reflexivity.
Qed.

Lemma lstrip_ends_space (A : str) :
  lstrip (A ++ [32%N]) = [] \/ exists A', lstrip (A ++ [32%N]) = A' ++ [32%N].
Proof.
  induction A as [| a A IH]; simpl.
  - now left.
  - destruct (isspace a); [exact IH | right; now exists (a :: A)].
Qed.

Lemma lstrip_Forall (P : char -> Prop) (s : str) : Forall P s -> Forall P (lstrip s).
Proof.
  induction 1 as [| c s Hc Hs IH]; simpl; [constructor |].
  destruct (isspace c); [exact IH | now constructor].
Qed.

Lemma rstrip_Forall (P : char -> Prop) (s : str) : Forall P s -> Forall P (rstrip s).
Proof.
  intros H. unfold rstrip. apply Forall_rev, lstrip_Forall, Forall_rev, H.
Qed.

Lemma lower_app (s t : str) :
  lower unicode_lower (s ++ t) = lower unicode_lower s ++ lower unicode_lower t.
Proof. unfold lower. apply flat_map_app. Qed.

(** *** The query "foo*" *)

Section FooStar.

Hypothesis unicode_lower_line : lower_keeps_lines unicode_lower.

Lemma lower_char_line (c : char) :
  is_word unicode_word c = true \/ c = 32%N -> ~ In 10%N (lower_char unicode_lower c).
Proof.
  intros H. unfold lower_char.
  destruct ((65 <=? c) && (c <=? 90))%N eqn:U.
  - apply andb_true_iff in U. destruct U as [U _]. apply N.leb_le in U.
    intros [E | []]. lia.
  - destruct (N.ltb_spec c 128) as [L | G]; [| now apply unicode_lower_line].
    intros [E | []]. subst c. destruct H as [H | H]; discriminate H.
Qed.

Lemma lower_line (s : str) :
  Forall (fun c => is_word unicode_word c = true \/ c = 32%N) s ->
  ~ In 10%N (lower unicode_lower s).
Proof.
  induction 1 as [| c s Hc Hs IH]; [intros [] |].
  unfold lower. simpl flat_map. intros H. apply in_app_or in H.
  destruct H as [H | H]; [exact (lower_char_line c Hc H) | exact (IH H)].
Qed.

Lemma collapse_foobar (pre post : str) :
  before_word unicode_word pre ->
  collapse (pre ++ lit "foobar" ++ post)
  = collapse pre ++ lit "foobar" ++ collapse post.
Proof.
  assert (W : collapse (lit "foobar" ++ post) = lit "foobar" ++ collapse post).
  { change (lit "foobar" ++ post)
      with (102 :: 111 :: 111 :: 98 :: 97 :: 114 :: post)%N.
    rewrite !collapse_word by reflexivity. reflexivity. }
  intros [-> | (pre0 & x & -> & Hx)].
  - exact W.
  - change (lit "foobar" ++ post)
      with (102%N :: (111 :: 111 :: 98 :: 97 :: 114 :: post)%N).
    rewrite collapse_app by (assumption || reflexivity).
    f_equal. exact W.
Qed.

(** In the text of a page that is searched, a "foobar" that starts a word
    has a space before it, and a space comes after it on the same line. *)
Lemma normalize_content_foobar (pre post : str) :
  before_word unicode_word pre ->
  exists A B,
    normalize_content (pre ++ lit "foobar" ++ post)
    = A ++ (32 :: 102 :: 111 :: 111 :: B ++ [32])%N
    /\ ~ In 10%N B.
Proof.
  intros Hpre. unfold normalize_content. rewrite (collapse_foobar pre post Hpre).
  set (X := collapse pre). set (Y := collapse post).
  assert (HX : lstrip X = [] \/ exists A', lstrip X = A' ++ [32%N]).
  { subst X. destruct Hpre as [-> | (pre0 & x & -> & Hx)]; [now left |].
    destruct (collapse_ends_space pre0 x Hx) as [A HA]. fold collapse in HA.
    rewrite HA. apply lstrip_ends_space. }
  assert (HS : strip (X ++ lit "foobar" ++ Y)
               = lstrip X ++ lit "foobar" ++ rstrip Y).
  { unfold strip.
    change (X ++ lit "foobar" ++ Y)
      with (X ++ 102%N :: ([111; 111; 98; 97]%N ++ 114%N :: Y)).
    rewrite lstrip_app_nonspace by reflexivity.
    change (lstrip X ++ 102%N :: [111; 111; 98; 97]%N ++ 114%N :: Y)
      with (lstrip X ++ [102; 111; 111; 98; 97]%N ++ 114%N :: Y).
    rewrite app_assoc, rstrip_app_nonspace by reflexivity.
    rewrite <- app_assoc. reflexivity. }
  rewrite HS, !lower_app.
  change (lower unicode_lower (lit "foobar")) with (lit "foobar").
  assert (HB : ~ In 10%N ([98; 97; 114]%N ++ lower unicode_lower (rstrip Y))).
  { intros H. apply in_app_or in H. destruct H as [H | H].
    - simpl in H. intuition discriminate.
    - revert H. apply lower_line, rstrip_Forall. subst Y. apply collapse_chars. }
  destruct HX as [-> | (A' & ->)].
  - exists [], ([98; 97; 114]%N ++ lower unicode_lower (rstrip Y)).
    split; [| exact HB]. simpl. reflexivity.
  - exists (32%N :: lower unicode_lower A'),
      ([98; 97; 114]%N ++ lower unicode_lower (rstrip Y)).
    split; [| exact HB]. rewrite lower_app.
    change (lower unicode_lower [32%N]) with [32%N].
    change (lit " ") with [32%N]. change (lit "foobar") with [102; 111; 111; 98; 97; 114]%N.
    simpl. rewrite <- !app_assoc. reflexivity.
Qed.

Lemma foo_star_hits (pre post : str) :
  before_word unicode_word pre ->
  re_search (normalize_query (lit "foo*"))
    (normalize_content (pre ++ lit "foobar" ++ post)) = Some true.
Proof.
  intros Hpre.
  destruct (normalize_content_foobar pre post Hpre) as (A & B & -> & HB).
  change (normalize_query (lit "foo*")) with (lit " foo.* ").
  unfold re_search.
  change (re_compile (lit " foo.* "))
    with (Some [One (Lit 32%N); One (Lit 102%N); One (Lit 111%N); One (Lit 111%N);
                Star AnyChar; One (Lit 32%N)]).
  cbn [option_map]. f_equal. apply match_anywhere_app.
  change (match_here [Star AnyChar; One (Lit 32%N)] (B ++ [32%N]) = true).
  now apply match_here_star_any.
Qed.

End FooStar.

(** *** The query "*" *)

Lemma star_hits_every_page (b : MarkdownFileBrowser) (i : Z) :
  0 <= i < len (viewport_pages b) ->
  page_hit b (normalize_query (lit "*")) i = true.
Proof.
  intros Hi. unfold page_hit.
  destruct (getitem_in_range (viewport_pages b) i Hi) as [[lo hi] ->].
  now rewrite star_hits_every_text.
Qed.

(** A search that is not the repeat of the one before moves to the first
    hit from the current page on. *)
Lemma find_on_page_moves (q : str) (b : MarkdownFileBrowser) (j : Z) :
  same_query q (_find_on_page_query b)
  && same_page (viewport_current_page b) (_find_on_page_last_result b) = false ->
  str_eqb (strip (normalize_query q)) [] = false ->
  0 <= viewport_current_page b <= len (viewport_pages b) ->
  find (page_hit b (normalize_query q))
    (idxs (viewport_current_page b) (len (viewport_pages b))) = Some j ->
  exists lo hi,
    getitem (viewport_pages b) j = Some (lo, hi)
    /\ find_on_page q b
       = Returns (Some (slice (_page_content b) lo hi))
           (moved_to j (set__find_on_page_query (Some q) b)).
Proof.
  intros Hnew Hne Hs Hf.
  pose proof (find_some _ _ Hf) as [Hin Hhit].
  apply In_idxs in Hin; [| assumption].
  destruct (getitem_in_range (viewport_pages b) j Hin) as [[lo hi] Hg].
  exists lo, hi. split; [assumption |].
  unfold find_on_page. rewrite Hnew. unfold bind, assign, _find_next_viewport.
  rewrite Hne. rewrite scan_pages_find.
  - cbn [viewport_pages set__find_on_page_query]. 
    rewrite (find_same _ (page_hit b (normalize_query q))), Hf
      by (intros x; reflexivity).
    unfold go_to_match, bind, assign, viewport. simpl. now rewrite Hg.
  - exact (page_hit_compiles _ _ _ Hhit).
  - intros x Hx. now apply In_idxs in Hx.
Qed.

Lemma find_on_page_star (b : MarkdownFileBrowser) :
  in_bounds b ->
  exists v b', find_on_page (lit "*") b = Returns (Some v) b'.
Proof.
  unfold in_bounds. intros Hb.
  assert (Hne : str_eqb (strip (normalize_query (lit "*"))) [] = false) by reflexivity.
  destruct (same_query (lit "*") (_find_on_page_query b)
            && same_page (viewport_current_page b) (_find_on_page_last_result b))
    eqn:E.
  - assert (Hrep : find_on_page (lit "*") b = find_next b)
      by (unfold find_on_page; now rewrite E).
    apply andb_true_iff in E. destruct E as [E1 E2].
    unfold same_query in E1. destruct (_find_on_page_query b) as [q' |] eqn:Hq;
      [| discriminate].
    apply str_eqb_eq in E1. subst q'.
    unfold same_page in E2. destruct (_find_on_page_last_result b) as [r |] eqn:Hr;
      [| discriminate].
    apply Z.eqb_eq in E2. subst r.
    assert (Hstart : 0 <= starting_viewport b < len (viewport_pages b)).
    { apply starting_viewport_range; [| lia]. intros r H.
      rewrite Hr in H. inversion H; subst. lia. }
    destruct (find_idxs_some (page_hit b (normalize_query (lit "*")))
                (len (viewport_pages b)) (starting_viewport b)
                (viewport_current_page b)) as (j & Hf & _);
      [lia | lia | apply star_hits_every_page; lia |].
    destruct (find_next_moves (lit "*") b j Hq Hne ltac:(lia) Hf) as (lo & hi & _ & H).
    rewrite Hrep. eauto.
  - destruct (find_idxs_some (page_hit b (normalize_query (lit "*")))
                (len (viewport_pages b)) (viewport_current_page b)
                (viewport_current_page b)) as (j & Hf & _);
      [lia | lia | apply star_hits_every_page; lia |].
    destruct (find_on_page_moves (lit "*") b j E Hne ltac:(lia) Hf)
      as (lo & hi & _ & H).
    eauto.
Qed.

(** C6, as the code has it. A query whose pattern is blank matches nothing:
    [find_on_page] returns no match and leaves the page index as it was;
    the empty query and every query of whitespace characters have a blank
    pattern.  The pattern of the query "*" is ".* ", which is not blank:
    with a current page within bounds, [find_on_page] returns a match for
    it.  The query "foo*" matches every page whose text holds "foobar" at
    the start of the text or after a character that is not a word
    character, and a scan that starts at such a page stops at it (given
    that [str.lower] yields no newline). *)
Theorem query_patterns :
  (forall q b, str_eqb (strip (normalize_query q)) [] = true ->
               no_match b (find_on_page q b))
  /\ str_eqb (strip (normalize_query [])) [] = true
  /\ (forall q, forallb isspace q = true ->
                str_eqb (strip (normalize_query q)) [] = true)
  /\ normalize_query (lit "*") = lit ".* "
  /\ (forall b, in_bounds b ->
                exists v b', find_on_page (lit "*") b = Returns (Some v) b')
  /\ (lower_keeps_lines unicode_lower ->
      forall b i lo hi pre post,
         0 <= i ->
         getitem (viewport_pages b) i = Some (lo, hi) ->
         slice (_page_content b) lo hi = pre ++ lit "foobar" ++ post ->
         before_word unicode_word pre ->
         page_matches (lit "foo*") b i = true
         /\ _find_next_viewport (Some (lit "foo*")) i b = Returns (Some i) b).
Proof.
  split; [exact find_on_page_blank |].
  split; [reflexivity |].
  split; [exact normalize_query_spaces |].
  split; [reflexivity |].
  split; [exact find_on_page_star |].
  intros Hline b i lo hi pre post Hi Hg Hs Hpre.
  assert (Hhit : page_hit b (normalize_query (lit "foo*")) i = true).
  { unfold page_hit. rewrite Hg, Hs. now rewrite foo_star_hits. }
  assert (Hne : str_eqb (strip (normalize_query (lit "foo*"))) [] = false)
    by reflexivity.
  split; [rewrite page_matches_hit; assumption |].
  assert (Hn : i < len (viewport_pages b)).
  { unfold getitem in Hg. destruct (0 <=? i) eqn:E; [| apply Z.leb_gt in E; lia].
    assert (nth_error (viewport_pages b) (Z.to_nat i) <> None) as N by congruence.
    apply nth_error_Some in N. unfold len. lia. }
  unfold _find_next_viewport. rewrite Hne.
  rewrite scan_pages_find.
  - unfold idxs. rewrite range_cons by lia. simpl. now rewrite Hhit.
  - exact (page_hit_compiles _ _ _ Hhit).
  - intros x Hx. apply In_idxs in Hx; lia.
Qed.

(** *** The searches keep the state well-formed *)

Lemma scan_pages_In (b : MarkdownFileBrowser) (nq : str) (l : list Z) (j : Z) :
  scan_pages unicode_word unicode_lower b nq l = inr (Some j) -> In j l.
Proof.
  induction l as [| i l IH]; cbn [scan_pages]; [discriminate |].
  destruct (getitem (viewport_pages b) i) as [[lo hi] |]; [| discriminate].
  destruct (re_search nq _) as [[|] |]; [| | discriminate].
  - intros H. inversion H. now left.
  - intros H. right. now apply IH.
Qed.

Lemma go_to_match_well_formed (m : option Z) (b : MarkdownFileBrowser) :
  well_formed b ->
  (forall j, m = Some j -> 0 <= j < len (viewport_pages b)) ->
  comes_back_with well_formed (go_to_match m b).
Proof.
  intros [Hb Hr] Hm. unfold in_bounds in Hb. destruct m as [j |].
  - specialize (Hm j eq_refl). unfold go_to_match, bind, assign, ret, viewport.
    cbn [viewport_pages viewport_current_page set__find_on_page_last_result
         set_viewport_current_page].
    destruct (getitem (viewport_pages b) j) as [[lo hi] |];
      (split; [unfold in_bounds; simpl; lia
              | simpl; intros r H; inversion H; subst; lia]).
  - unfold go_to_match, bind, assign, ret. simpl.
    split; [exact Hb | simpl; intros r H; discriminate H].
Qed.

Lemma _find_next_viewport_in_range (q : option str) (start : Z)
    (b : MarkdownFileBrowser) (j : Z) :
  0 <= start <= len (viewport_pages b) ->
  _find_next_viewport q start b = Returns (Some j) b ->
  0 <= j < len (viewport_pages b).
Proof.
  intros Hs. unfold _find_next_viewport. destruct q as [q |]; [| discriminate].
  destruct (str_eqb _ _); [discriminate |].
  destruct (scan_pages _ _ _ _ _) as [e | r] eqn:E; [discriminate |].
  intros H. inversion H; subst r. apply scan_pages_In in E.
  apply In_idxs in E; assumption.
Qed.

Lemma find_next_well_formed (b : MarkdownFileBrowser) :
  well_formed b -> comes_back_with well_formed (find_next b).
Proof.
  intros Hwf. unfold find_next.
  destruct (_find_on_page_query b) as [q |]; [| exact Hwf]. unfold bind.
  assert (Hstart : 0 <= starting_viewport b <= len (viewport_pages b)).
  { destruct Hwf as [Hb Hr]. unfold in_bounds in Hb.
    pose proof (starting_viewport_range b Hr ltac:(lia)). lia. }
  destruct (_find_next_viewport_reads (Some q) (starting_viewport b) b)
    as [[r H] | [e H]]; rewrite H; [| exact Hwf].
  apply go_to_match_well_formed; [assumption |].
  intros j ->. exact (_find_next_viewport_in_range _ _ _ _ Hstart H).
Qed.

Lemma find_on_page_well_formed (query : str) (b : MarkdownFileBrowser) :
  well_formed b -> comes_back_with well_formed (find_on_page query b).
Proof.
  intros Hwf. unfold find_on_page.
  destruct (same_query _ _ && same_page _ _); [now apply find_next_well_formed |].
  unfold bind, assign.
  set (b1 := set__find_on_page_query (Some query) b).
  assert (Hwf1 : well_formed b1) by exact Hwf.
  change (viewport_current_page b) with (viewport_current_page b1).
  destruct (_find_next_viewport_reads (Some query) (viewport_current_page b1) b1)
    as [[r H] | [e H]]; rewrite H; [| exact Hwf1].
  apply go_to_match_well_formed; [assumption |].
  intros j ->. refine (_find_next_viewport_in_range _ _ _ _ _ H).
  destruct Hwf1 as [Hb _]. unfold in_bounds in Hb. lia.
Qed.

End SearchProofs.

Lemma find_next_wraps_witness :
  exists v b',
    find_next_calls no_unicode_word no_unicode_lower 4 search_demo
    = Returns (Some v) b'.
Proof.
  apply (find_next_wraps no_unicode_word no_unicode_lower (lit "aa") search_demo 2).
  - reflexivity.
  - intros r H. discriminate H.
  - unfold len. simpl. lia.
  - reflexivity.
  - lia.
Defined.

Lemma query_patterns_witness :
  page_matches no_unicode_word no_unicode_lower (lit "foo*") foobar_demo 0 = true.
Proof.
  assert (H : lower_keeps_lines no_unicode_lower)
    by (unfold lower_keeps_lines, no_unicode_lower; simpl; intros c Hc [E | []]; lia).
  apply (proj2 (proj2 (proj2 (proj2 (proj2
           (query_patterns no_unicode_word no_unicode_lower)))))
           H foobar_demo 0 0 8 (lit "a ") []).
  - lia.
  - reflexivity.
  - reflexivity.
  - right. exists (lit "a"), 32%N. split; reflexivity.
Defined.

(** C6, as the claim has it, fails: the query "*" matches the page "hello",
    and the query "foo*" does not match the page "xfoobar", which holds
    "foobar". *)
Lemma query_patterns_counterexample :
  ~ no_match hello_demo
      (find_on_page no_unicode_word no_unicode_lower (lit "*") hello_demo)
  /\ contains (lit "xfoobar") (lit "foobar") = true
  /\ page_matches no_unicode_word no_unicode_lower (lit "foo*") xfoobar_demo 0 = false.
Proof.
  split; [| split; reflexivity].
  intros (b' & H & _). vm_compute in H. discriminate H.
Qed.

(** ** Proofs: opening a path *)

Section Preserves.

Variable R : MarkdownFileBrowser -> MarkdownFileBrowser -> Prop.
Hypothesis R_refl : forall b, R b b.
Hypothesis R_trans : forall b1 b2 b3, R b1 b2 -> R b2 b3 -> R b1 b3.

Lemma preserves_ret {A : Type} (a : A) : preserves R (ret a).
Proof. intros b. apply R_refl. Qed.

Lemma preserves_raise {A : Type} (e : exn) : preserves R (@raise A e).
Proof. intros b. apply R_refl. Qed.

Lemma preserves_call {A : Type} (r : exn + A) : preserves R (call r).
Proof. destruct r; [apply preserves_raise | apply preserves_ret]. Qed.

Lemma preserves_assign (f : MarkdownFileBrowser -> MarkdownFileBrowser) :
  (forall b, R b (f b)) -> preserves R (assign f).
Proof. intros H b. apply H. Qed.

Lemma preserves_bind {A B : Type} (m : M A) (k : A -> M B) :
  preserves R m -> (forall a, preserves R (k a)) -> preserves R (bind m k).
Proof.
  intros Hm Hk b. unfold bind. specialize (Hm b).
  destruct (m b) as [a b1 | e b1 |]; auto.
  specialize (Hk a b1). destruct (k a b1); auto; eapply R_trans; eauto.
Qed.

Lemma preserves_try_except {A : Type} (m : M A) (h : exn -> M A) :
  preserves R m -> (forall e, preserves R (h e)) -> preserves R (try_except m h).
Proof.
  intros Hm Hh b. unfold try_except. specialize (Hm b).
  destruct (m b) as [a b1 | e b1 |]; auto.
  specialize (Hh e b1). destruct (h e b1); auto; eapply R_trans; eauto.
Qed.

End Preserves.

Lemma untouched_refl (b : MarkdownFileBrowser) : untouched_by_open b b.
Proof. unfold untouched_by_open. auto. Qed.

Lemma untouched_trans (b1 b2 b3 : MarkdownFileBrowser) :
  untouched_by_open b1 b2 -> untouched_by_open b2 b3 -> untouched_by_open b1 b3.
Proof. unfold untouched_by_open. intuition congruence. Qed.

Lemma _split_pages_untouched : preserves untouched_by_open _split_pages.
Proof.
  intros b. unfold _split_pages.
  destruct (len (_page_content b) =? 0); [now_untouched |].
  destruct (split_loop _ _ _ _) as [ps [| x |]]; try exact I; now_untouched.
Qed.

Lemma _set_page_content_untouched (content : str) (split_pages : bool) :
  preserves untouched_by_open (_set_page_content content split_pages).
Proof.
  unfold _set_page_content.
  apply preserves_bind; [exact untouched_trans | |].
  - apply preserves_assign. intros b. now_untouched.
  - intros _. apply preserves_bind; [exact untouched_trans | |].
    + destruct split_pages; [exact _split_pages_untouched |].
      intros b. now_untouched.
    + intros _ b. destruct (_ >=? _); now_untouched.
Qed.

Lemma titled_untouched (t : option str) (content : str) (split_pages : bool) :
  preserves untouched_by_open
    (assign (set_page_title t) ;; _set_page_content content split_pages).
Proof.
  apply preserves_bind; [exact untouched_trans | |].
  - apply preserves_assign. intros b. now_untouched.
  - intros _. apply _set_page_content_untouched.
Qed.

Lemma _open_path_untouched (w : World) (p : str) :
  preserves untouched_by_open (_open_path w p).
Proof.
  unfold _open_path.
  apply preserves_try_except; [exact untouched_trans | |].
  - unfold convert_path. destruct (isdir w p).
    + apply preserves_bind;
        [exact untouched_trans | apply preserves_call, untouched_refl |].
      intros listing. apply preserves_bind;
        [exact untouched_trans | apply preserves_call, untouched_refl |].
      intros res. apply titled_untouched.
    + apply preserves_bind;
        [exact untouched_trans | apply preserves_call, untouched_refl |].
      intros res. apply titled_untouched.
  - intros e. destruct e; try (apply preserves_raise, untouched_refl);
      apply titled_untouched.
Qed.

(** Whenever [set_path] comes back, it has appended the resolved path to the
    history, and the query and the remembered page of the search are as they
    were before the call. *)
Lemma set_path_appends (w : World) (p : str) (b : MarkdownFileBrowser) :
  match set_path w p b with
  | Returns _ b' | Raises _ b' =>
      history b' = history b ++ [(resolve w b p, time_time w)]
      /\ _find_on_page_query b' = _find_on_page_query b
      /\ _find_on_page_last_result b' = _find_on_page_last_result b
      /\ viewport_size b' = viewport_size b
  | Diverges => True
  end.
Proof.
  unfold set_path. unfold bind at 1. unfold assign at 1.
  set (b1 := set_history _ b).
  unfold bind at 1.
  pose proof (_open_path_untouched w (resolve w b p) b1) as H.
  destruct (_open_path w (resolve w b p) b1) as [[] b2 | e b2 |]; [| | exact I];
    destruct H as (H1 & H2 & H3 & H4); simpl; rewrite H1, H2, H3, H4; auto.
Qed.

Lemma clamp_zero (n : Z) : 0 <= n -> clamp n 0 = 0.
Proof. intros H. unfold clamp. simpl. lia. Qed.

Lemma clamp_len (n : Z) : 0 <= n -> clamp n n = n.
Proof.
  intros H. unfold clamp. destruct (n <? 0) eqn:E; [apply Z.ltb_lt in E; lia | lia].
Qed.

Lemma slice_all {A : Type} (l : list A) : slice l 0 (len l) = l.
Proof.
  unfold slice. pose proof (len_nonneg l) as H.
  rewrite clamp_zero, clamp_len by assumption. simpl skipn.
  replace (Z.to_nat (len l - 0)) with (List.length l) by (unfold len; lia).
  apply firstn_all.
Qed.

Lemma slice_prefix {A : Type} (l : list A) (hi : Z) :
  exists rest, l = slice l 0 hi ++ rest.
Proof.
  unfold slice. pose proof (len_nonneg l) as H.
  rewrite clamp_zero by assumption.
  simpl skipn. eexists. symmetry. apply firstn_skipn.
Qed.

Lemma adjust_end_at_end (content : str) (fuel : nat) :
  adjust_end content (len content) fuel = (len content, Finished).
Proof. destruct fuel; simpl; now rewrite Z.ltb_irrefl. Qed.

Lemma split_loop_at_end (size : Z) (content : str) (fuel : nat) :
  split_loop size content (len content) fuel = ([], Finished).
Proof. destruct fuel; simpl; now rewrite Z.ltb_irrefl. Qed.

(** A content that is no longer than the viewport size is one page. *)
Lemma _split_pages_single (b : MarkdownFileBrowser) :
  _page_content b <> [] ->
  len (_page_content b) <= viewport_size b ->
  _split_pages b
  = Returns tt (set_viewport_pages [(0, len (_page_content b))] b).
Proof.
  intros Hne Hfit. unfold _split_pages.
  assert (0 < len (_page_content b)) as Hpos
      by (destruct (_page_content b); [contradiction | rewrite len_cons;
          pose proof (len_nonneg s); lia]).
  destruct (len (_page_content b) =? 0) eqn:E; [apply Z.eqb_eq in E; lia |].
  cbn [split_loop].
  destruct (0 <? len (_page_content b)) eqn:E0; [| apply Z.ltb_ge in E0; lia].
  rewrite Z.min_r by lia.
  rewrite adjust_end_at_end, split_loop_at_end. reflexivity.
Qed.

(** With a viewport size of at least one, [_set_page_content] with
    pagination returns, and leaves the content and its pages. *)
Lemma _set_page_content_paginates (content : str) (b : MarkdownFileBrowser) :
  1 <= viewport_size b ->
  exists ps b',
    _set_page_content content true b = Returns tt b'
    /\ _split_pages (set__page_content content b)
       = Returns tt (set_viewport_pages ps (set__page_content content b))
    /\ _page_content b' = content
    /\ viewport_pages b' = ps
    /\ page_title b' = page_title b
    /\ history b' = history b.
Proof.
  intros Hsize.
  destruct (_split_pages_spec (set__page_content content b) Hsize)
    as (ps & E & _).
  exists ps.
  assert (Run : _set_page_content content true b
                = (if viewport_current_page b >=? len ps
                   then Returns tt (set_viewport_current_page (len ps - 1)
                                      (set_viewport_pages ps (set__page_content content b)))
                   else Returns tt (set_viewport_pages ps (set__page_content content b)))).
  { unfold _set_page_content, bind, assign. rewrite E.
    cbn [viewport_current_page viewport_pages set_viewport_pages set__page_content].
    destruct (viewport_current_page b >=? len ps); reflexivity. }
  destruct (viewport_current_page b >=? len ps); eexists;
    (split; [exact Run | split; [exact E | simpl; auto]]).
Qed.

Lemma loader_raises (w : World) (p : str) (e : exn) (b : MarkdownFileBrowser) :
  loader_outcome w p = inl e -> convert_path w p b = Raises e b.
Proof.
  unfold loader_outcome, convert_path. destruct (isdir w p).
  - destruct (_fetch_local_dir w p) as [e1 | listing].
    + intros H. inversion H. reflexivity.
    + intros H. unfold bind. simpl. unfold bind. now rewrite H.
  - intros H. unfold bind. now rewrite H.
Qed.




(** C1, on the code. In [stale_demo] a search for "beta" has found page 0.
    After [open_path] has opened a new document, the query is still "beta"
    and the remembered page is still 0, and the [find_next] call that
    follows returns a match in the new document: [set_path] assigns
    [find_on_page_query] and [find_on_page_viewport], which are not the
    attributes that the search reads. *)
Theorem open_keeps_search_cursor :
  exists v b',
    open_path new_text_world (lit "/new.txt") stale_demo = Returns v b'
    /\ _find_on_page_query b' = Some (lit "beta")
    /\ _find_on_page_last_result b' = Some 0
    /\ find_on_page_query b' = None
    /\ find_on_page_viewport b' = None
    /\ exists b'',
        find_next no_unicode_word no_unicode_lower b'
        = Returns (Some (lit "alpha beta")) b''.
Proof.
  eexists _, _. split; [reflexivity |].
  repeat (split; [reflexivity |]). eexists. reflexivity.
Qed.

(** *** Every returning open leaves a current page *)

Lemma _split_pages_some_page (b : MarkdownFileBrowser) :
  returns_with (fun b' => viewport_pages b' <> []) (_split_pages b).
Proof.
  unfold _split_pages. destruct (len (_page_content b) =? 0) eqn:E;
    [simpl; discriminate |].
  apply Z.eqb_neq in E. pose proof (len_nonneg (_page_content b)).
  cbn [split_loop].
  destruct (0 <? len (_page_content b)) eqn:E0; [| apply Z.ltb_ge in E0; lia].
  destruct (adjust_end _ _ _) as [e1 [| x |]]; [| exact I | exact I].
  destruct (split_loop _ _ e1 _) as [ps [| x |]]; [| exact I | exact I].
  simpl. discriminate.
Qed.

Lemma _set_page_content_some_page (content : str) (split_pages : bool)
    (b : MarkdownFileBrowser) :
  returns_with (fun b' => viewport_pages b' <> [])
    (_set_page_content content split_pages b).
Proof.
  unfold _set_page_content, bind, assign. destruct split_pages.
  - pose proof (_split_pages_some_page (set__page_content content b)) as H.
    destruct (_split_pages (set__page_content content b)) as [[] b1 | e b1 |];
      [| exact I | exact I].
    simpl in H. destruct (viewport_current_page b1 >=? len (viewport_pages b1));
      simpl; exact H.
  - cbn [viewport_current_page viewport_pages set_viewport_pages set__page_content].
    destruct (_ >=? _); simpl; discriminate.
Qed.

Lemma titled_some_page (t : option str) (content : str) (split_pages : bool)
    (b : MarkdownFileBrowser) :
  returns_with (fun b' => viewport_pages b' <> [])
    ((assign (set_page_title t) ;; _set_page_content content split_pages) b).
Proof.
  unfold bind at 1. unfold assign at 1. apply _set_page_content_some_page.
Qed.

Lemma placeholder_some_page (p : str) (e : exn) (b : MarkdownFileBrowser) :
  returns_with (fun b' => viewport_pages b' <> []) (placeholder p e b).
Proof. destruct e; try exact I; apply titled_some_page. Qed.

(** The [try] block raises what the converter raised, with the object as it
    was, or goes on to set the title and the content. *)
Lemma convert_path_cases (w : World) (p : str) (b : MarkdownFileBrowser) :
  (exists e, convert_path w p b = Raises e b)
  \/ (exists t content sp,
         convert_path w p b
         = (assign (set_page_title t) ;; _set_page_content content sp) b).
Proof.
  unfold convert_path. destruct (isdir w p).
  - destruct (_fetch_local_dir w p) as [e | listing]; [left; now exists e |].
    destruct (convert_stream w listing) as [e | res] eqn:E.
    + left. exists e. unfold bind at 1. cbn [call]. unfold ret at 1.
      unfold bind at 1. now rewrite E.
    + right. exists (fst res), (snd res), false.
      unfold bind at 1. cbn [call]. unfold ret at 1.
      unfold bind at 1. now rewrite E.
  - destruct (convert_local w p) as [e | res]; [left; now exists e |].
    right. now exists (fst res), (snd res), true.
Qed.

Lemma _open_path_some_page (w : World) (p : str) (b : MarkdownFileBrowser) :
  returns_with (fun b' => viewport_pages b' <> []) (_open_path w p b).
Proof.
  unfold _open_path, try_except.
  destruct (convert_path_cases w p b) as [[e E] | (t & content & sp & E)]; rewrite E.
  - apply placeholder_some_page.
  - pose proof (titled_some_page t content sp b) as H.
    destruct ((assign (set_page_title t) ;; _set_page_content content sp) b)
      as [[] b1 | e b1 |]; [exact H | | exact I].
    apply placeholder_some_page.
Qed.

(** When [set_path] returns, page 0 is current and it exists. *)
Lemma set_path_in_bounds (w : World) (p : str) (b b' : MarkdownFileBrowser) :
  set_path w p b = Returns tt b' ->
  viewport_current_page b' = 0 /\ in_bounds b'.
Proof.
  unfold set_path. unfold bind at 1. unfold assign at 1.
  set (b1 := set_history _ b). unfold bind at 1.
  pose proof (_open_path_some_page w (resolve w b p) b1) as H.
  destruct (_open_path w (resolve w b p) b1) as [[] b2 | e b2 |]; try discriminate.
  unfold bind, assign. intros E. inversion E; subst b'. simpl in *.
  split; [reflexivity |]. unfold in_bounds. simpl.
  destruct (viewport_pages b2); [contradiction | rewrite len_cons].
  pose proof (len_nonneg l). lia.
Qed.

(** *** The states that the calls of the agent produce *)

Lemma _set_page_content_returns (content : str) (split_pages : bool)
    (b : MarkdownFileBrowser) :
  1 <= viewport_size b ->
  exists b', _set_page_content content split_pages b = Returns tt b'.
Proof.
  intros Hsize. destruct split_pages.
  - destruct (_set_page_content_paginates content b Hsize) as (ps & b' & E & _).
    now exists b'.
  - unfold _set_page_content, bind, assign.
    cbn [viewport_current_page viewport_pages set_viewport_pages set__page_content].
    destruct (_ >=? _); eexists; reflexivity.
Qed.

Lemma titled_returns (t : option str) (content : str) (split_pages : bool)
    (b : MarkdownFileBrowser) :
  1 <= viewport_size b ->
  exists b', (assign (set_page_title t) ;; _set_page_content content split_pages) b
             = Returns tt b'.
Proof.
  intros Hsize. unfold bind at 1. unfold assign at 1.
  now apply _set_page_content_returns.
Qed.

Lemma placeholder_outcome (p : str) (e : exn) (b : MarkdownFileBrowser) :
  1 <= viewport_size b ->
  (exists b', placeholder p e b = Returns tt b') \/ placeholder p e b = Raises e b.
Proof.
  intros Hsize. destruct e; try (right; reflexivity); left; now apply titled_returns.
Qed.

(** With a viewport size of at least one, [_open_path] returns, or raises
    what the converter raised with the object as it was. *)
Lemma _open_path_outcome (w : World) (p : str) (b : MarkdownFileBrowser) :
  1 <= viewport_size b ->
  (exists b', _open_path w p b = Returns tt b')
  \/ (exists e, _open_path w p b = Raises e b).
Proof.
  intros Hsize. unfold _open_path, try_except.
  destruct (convert_path_cases w p b) as [[e E] | (t & content & sp & E)]; rewrite E.
  - destruct (placeholder_outcome p e b Hsize) as [H | H]; [now left |].
    right. now exists e.
  - destruct (titled_returns t content sp b Hsize) as [b' H]. rewrite H.
    left. now exists b'.
Qed.

Lemma set_path_sound (w : World) (p : str) (b : MarkdownFileBrowser) :
  sound b ->
  set_path w p b <> Diverges /\ comes_back_with sound (set_path w p b).
Proof.
  intros [[Hb Hr] Hsize].
  pose proof (set_path_appends w p b) as Happ.
  pose proof (set_path_in_bounds w p b) as Hin.
  assert (Hrun : set_path w p b
                 = match _open_path w (resolve w b p)
                           (set_history (history b ++ [(resolve w b p, time_time w)]) b)
                   with
                   | Returns _ b2 =>
                       Returns tt (set_find_on_page_viewport None
                                     (set_find_on_page_query None
                                        (set_viewport_current_page 0 b2)))
                   | Raises e b2 => Raises e b2
                   | Diverges => Diverges
                   end).
  { unfold set_path. unfold bind at 1. unfold assign at 1. unfold bind at 1.
    destruct (_open_path _ _ _); reflexivity. }
  pose proof (_open_path_untouched w (resolve w b p)
                (set_history (history b ++ [(resolve w b p, time_time w)]) b)) as Hu.
  destruct (_open_path_outcome w (resolve w b p)
              (set_history (history b ++ [(resolve w b p, time_time w)]) b) Hsize)
    as [[b2 E] | [e E]]; rewrite E in Hrun, Hu.
  - rewrite Hrun in *. split; [discriminate |].
    destruct (Hin _ eq_refl) as [_ Hin']. destruct Happ as (_ & _ & Hl & _).
    destruct Hu as (_ & _ & _ & Hs).
    split; [split; [exact Hin' | rewrite Hl; exact Hr] |].
    simpl in *. lia.
  - rewrite Hrun. split; [discriminate |]. exact (conj (conj Hb Hr) Hsize).
Qed.

Section Invariant.

Variable unicode_word : char -> bool.
Variable unicode_lower : char -> str.

(** Every call of the agent comes back and leaves a sound state sound: the
    page index stays an index of [viewport_pages], and the remembered page
    is never negative. *)
Lemma perform_sound (c : tool_call) (b : MarkdownFileBrowser) :
  sound b ->
  perform unicode_word unicode_lower c b <> Diverges
  /\ comes_back_with sound (perform unicode_word unicode_lower c b).
Proof.
  intros Hs. pose proof Hs as [Hwf Hsize]. destruct c as [w p | | | q |]; simpl.
  - destruct (set_path_sound w p b Hs) as [Hd Hc].
    unfold open_path, bind, ret.
    destruct (set_path w p b) as [[] b1 | e b1 |]; [| split; [discriminate | exact Hc]
                                                    | contradiction].
    unfold viewport. destruct (getitem _ _) as [[lo hi] |];
      (split; [discriminate | exact Hc]).
  - unfold assign. split; [discriminate |].
    destruct Hwf as [Hb Hr]. destruct (press_in_bounds b PageUp Hb) as [H1 _].
    exact (conj (conj H1 Hr) Hsize).
  - unfold assign. split; [discriminate |].
    destruct Hwf as [Hb Hr]. destruct (press_in_bounds b PageDown Hb) as [H1 _].
    exact (conj (conj H1 Hr) Hsize).
  - pose proof (find_on_page_well_formed unicode_word unicode_lower q b Hwf) as H1.
    pose proof (find_on_page_keeps unicode_word unicode_lower q b) as H2.
    unfold bind, ret.
    destruct (find_on_page unicode_word unicode_lower q b) as [v b1 | e b1 |];
      [| | contradiction];
      (split; [discriminate |]); destruct H2 as (_ & _ & _ & _ & H2);
      simpl in *; split; [assumption | lia | assumption | lia].
  - pose proof (find_next_well_formed unicode_word unicode_lower b Hwf) as H1.
    pose proof (find_next_keeps unicode_word unicode_lower b) as H2.
    unfold bind, ret.
    destruct (find_next unicode_word unicode_lower b) as [v b1 | e b1 |];
      [| | contradiction];
      (split; [discriminate |]); destruct H2 as (_ & _ & _ & _ & H2);
      simpl in *; split; [assumption | lia | assumption | lia].
Qed.

End Invariant.

(** ** Remarks on the boundaries of the model *)

(** With the viewport size 0 the loop of [_split_pages] does not end on the
    content "a b": from offset 2 on it emits the page (2, 2) over and over,
    whatever the fuel. *)
Lemma split_loop_size_zero (fuel : nat) :
  snd (split_loop 0 (lit "a b") 0 fuel) = OutOfFuel.
Proof.
  assert (H : forall f, snd (split_loop 0 (lit "a b") 2 f) = OutOfFuel).
  { induction f as [| f IH]; [reflexivity |].
    change (split_loop 0 (lit "a b") 2 (S f))
      with (let (ps, e) := split_loop 0 (lit "a b") 2 f in ((2, 2) :: ps, e)).
    destruct (split_loop 0 (lit "a b") 2 f) as [ps e]. exact IH. }
  destruct fuel as [| f]; [reflexivity |].
  change (split_loop 0 (lit "a b") 0 (S f))
    with (let (ps, e) := split_loop 0 (lit "a b") 2 f in ((0, 2) :: ps, e)).
  specialize (H f). destruct (split_loop 0 (lit "a b") 2 f) as [ps e]. exact H.
Qed.

(** The constructor leaves no query and no remembered page, and an empty
    content, whatever the listing of the working directory was; page 0 of
    that listing is current. *)
Lemma init_clears_cursor (w : World) (size : Z) (b : MarkdownFileBrowser) :
  __init__ w size = Returns tt b ->
  _find_on_page_query b = None
  /\ _find_on_page_last_result b = None
  /\ _page_content b = []
  /\ in_bounds b
  /\ viewport_size b = size.
Proof.
  unfold __init__. unfold bind at 1.
  pose proof (set_path_in_bounds w (getcwd w)
                (mkBrowser size [] None 0 [] [] None None None None)) as Hin.
  pose proof (set_path_appends w (getcwd w)
                (mkBrowser size [] None 0 [] [] None None None None)) as Happ.
  destruct (set_path w (getcwd w) _) as [[] b1 | e b1 |]; try discriminate.
  destruct (Hin b1 eq_refl) as [_ Hb]. destruct Happ as (_ & _ & _ & Hs).
  unfold bind, assign. intros H. inversion H. simpl.
  split; [reflexivity | split; [reflexivity | split; [reflexivity | split]]].
  - exact Hb.
  - exact Hs.
Qed.

Lemma find_on_page_repeats_witness :
  find_on_page no_unicode_word no_unicode_lower (lit "aa") found_demo
  = find_next no_unicode_word no_unicode_lower found_demo.
Proof.
  apply (find_on_page_repeats no_unicode_word no_unicode_lower (lit "aa") found_demo).
  - reflexivity.
  - reflexivity.
Defined.

(** ** Further properties: navigation and pagination *)

Lemma set_current_page_same (b : MarkdownFileBrowser) :
  set_viewport_current_page (viewport_current_page b) b = b.
Proof. destruct b. reflexivity. Qed.

Lemma navigate_app (k1 k2 : list key) (b : MarkdownFileBrowser) :
  navigate (k1 ++ k2) b = navigate k2 (navigate k1 b).
Proof. unfold navigate. apply fold_left_app. Qed.

Lemma page_downs (k : nat) :
  forall b, in_bounds b ->
    viewport_current_page (navigate (repeat PageDown k) b)
    = Z.min (viewport_current_page b + Z.of_nat k) (len (viewport_pages b) - 1).
Proof.
  induction k as [| k IH]; intros b Hb.
  - unfold in_bounds in Hb. simpl. lia.
  - change (navigate (repeat PageDown (S k)) b)
      with (navigate (repeat PageDown k) (page_down b)).
    destruct (press_in_bounds b PageDown Hb) as [Hb' _]. simpl in Hb'.
    rewrite (IH _ Hb'). unfold in_bounds in Hb. simpl. lia.
Qed.

Lemma page_ups (k : nat) :
  forall b, in_bounds b ->
    viewport_current_page (navigate (repeat PageUp k) b)
    = Z.max (viewport_current_page b - Z.of_nat k) 0.
Proof.
  induction k as [| k IH]; intros b Hb.
  - unfold in_bounds in Hb. simpl. lia.
  - change (navigate (repeat PageUp (S k)) b)
      with (navigate (repeat PageUp k) (page_up b)).
    destruct (press_in_bounds b PageUp Hb) as [Hb' _]. simpl in Hb'.
    rewrite (IH _ Hb'). unfold in_bounds in Hb. simpl. lia.
Qed.

(** X1. From a page index within bounds, [k] calls of [page_down] move to
    page min(current + k, last), and [k] calls of [page_up] to page
    max(current - k, 0): the calls do not wrap; [page_down] on the last page
    and [page_up] on page 0 leave the whole object as it is. *)
Theorem paging_saturates (b : MarkdownFileBrowser) (k : nat) :
  in_bounds b ->
  viewport_current_page (navigate (repeat PageDown k) b)
  = Z.min (viewport_current_page b + Z.of_nat k) (len (viewport_pages b) - 1)
  /\ viewport_current_page (navigate (repeat PageUp k) b)
     = Z.max (viewport_current_page b - Z.of_nat k) 0
  /\ (viewport_current_page b = len (viewport_pages b) - 1 -> page_down b = b)
  /\ (viewport_current_page b = 0 -> page_up b = b).
Proof.
  intros Hb. split; [now apply page_downs | split; [now apply page_ups | split]].
  - intros E. unfold page_down.
    replace (Z.min _ _) with (viewport_current_page b) by lia.
    apply set_current_page_same.
  - intros E. unfold page_up.
    replace (Z.max _ _) with (viewport_current_page b) by lia.
    apply set_current_page_same.
Qed.

(** X2. Within bounds, [page_up] undoes a [page_down] that was not made on
    the last page, and [page_down] undoes a [page_up] that was not made on
    page 0: the object is as before. *)
Theorem paging_round_trip (b : MarkdownFileBrowser) :
  in_bounds b ->
  (viewport_current_page b < len (viewport_pages b) - 1 ->
   page_up (page_down b) = b)
  /\ (0 < viewport_current_page b -> page_down (page_up b) = b).
Proof.
  unfold in_bounds. intros Hb. split; intros H.
  - unfold page_up, page_down, set_viewport_current_page.
    destruct b as [sz h t cur ps c q r q' v]. simpl in *. f_equal. lia.
  - unfold page_up, page_down, set_viewport_current_page.
    destruct b as [sz h t cur ps c q r q' v]. simpl in *. f_equal. lia.
Qed.

Lemma slice_within {A : Type} (l : list A) (a b : Z) :
  0 <= a <= b -> b <= len l ->
  slice l a b = firstn (Z.to_nat (b - a)) (skipn (Z.to_nat a) l).
Proof.
  intros Hab Hb. unfold slice, clamp.
  destruct (a <? 0) eqn:Ea; [apply Z.ltb_lt in Ea; lia |].
  destruct (b <? 0) eqn:Eb; [apply Z.ltb_lt in Eb; lia |].
  now rewrite !Z.min_l by lia.
Qed.

Lemma len_slice {A : Type} (l : list A) (a b : Z) :
  0 <= a <= b -> b <= len l -> len (slice l a b) = b - a.
Proof.
  intros Hab Hb. rewrite slice_within by assumption. unfold len in *.
  rewrite length_firstn, length_skipn. lia.
Qed.

(** The texts of contiguous pages, one after the other, are the content from
    the first start on. *)
Lemma contiguous_texts (content : str) (ps : list page) :
  forall from,
    0 <= from ->
    contiguous from ps (len content) ->
    List.concat (List.map (page_text content) ps) = skipn (Z.to_nat from) content.
Proof.
  induction ps as [| [a b] ps IH]; intros from Hfrom H.
  - simpl in H. simpl. rewrite skipn_all2; [reflexivity | unfold len in H; lia].
  - destruct H as (-> & Hab & Hr). pose proof (contiguous_le _ _ _ Hr) as Hb.
    simpl. rewrite (IH b) by (lia || assumption).
    unfold page_text. simpl fst. simpl snd.
    rewrite slice_within by lia.
    replace (Z.to_nat b) with (Z.to_nat (b - from) + Z.to_nat from)%nat by lia.
    rewrite <- skipn_skipn. apply firstn_skipn.
Qed.

Lemma contiguous_page_le (ps : list page) :
  forall from to p, contiguous from ps to -> In p ps -> fst p <= snd p.
Proof.
  induction ps as [| [a e] ps IH]; intros from to p Hc Hp; [contradiction |].
  destruct Hc as (_ & H & Hr). destruct Hp as [<- | Hp]; [exact H |].
  exact (IH _ _ _ Hr Hp).
Qed.

(** X3. For a viewport size of at least one, the texts of the pages that
    [_split_pages] produces, taken in order, make up the content again, and
    the text of each page is as long as the page's range. *)
Theorem pages_reassemble (b : MarkdownFileBrowser) :
  1 <= viewport_size b ->
  exists ps,
    _split_pages b = Returns tt (set_viewport_pages ps b)
    /\ List.concat (List.map (page_text (_page_content b)) ps) = _page_content b
    /\ forall p, In p ps ->
                 len (page_text (_page_content b) p) = snd p - fst p.
Proof.
  intros Hsize.
  destruct (_split_pages_spec b Hsize) as (ps & E & _ & Hc & _).
  exists ps. split; [exact E | split].
  - rewrite (contiguous_texts _ ps 0) by (lia || assumption). reflexivity.
  - intros p Hp. unfold page_text.
    pose proof (contiguous_page_le _ _ _ _ Hc Hp) as Hle.
    destruct (contiguous_after _ _ _ _ Hc Hp). apply len_slice; lia.
Qed.

Lemma pages_reassemble_witness :
  exists ps,
    _split_pages (browser_with 6 (lit "aaaa bbbb cccc") [])
    = Returns tt (set_viewport_pages ps (browser_with 6 (lit "aaaa bbbb cccc") []))
    /\ List.concat (List.map (page_text (lit "aaaa bbbb cccc")) ps) = lit "aaaa bbbb cccc".
Proof.
  destruct (pages_reassemble (browser_with 6 (lit "aaaa bbbb cccc") []))
    as (ps & E & H & _).
  - simpl. lia.
  - exists ps. split; [exact E | exact H].
Defined.

Lemma paging_saturates_witness :
  viewport_current_page (navigate (repeat PageDown 5) found_demo) = 2.
Proof.
  destruct (paging_saturates found_demo 5) as [H _].
  - unfold in_bounds, len. simpl. lia.
  - rewrite H. reflexivity.
Defined.

Lemma paging_round_trip_witness : page_up (page_down found_demo) = found_demo.
Proof.
  apply (paging_round_trip found_demo).
  - unfold in_bounds, len. simpl. lia.
  - unfold len. simpl. lia.
Defined.

(** The inner loop stops at the first admissible end: every offset it passes
    follows a character that is no break character. *)
Lemma adjust_end_least (content : str) (fuel : nat) :
  forall e0,
    1 <= e0 <= len content ->
    len content - e0 <= Z.of_nat fuel ->
    forall e, e0 <= e < fst (adjust_end content e0 fuel) ->
              exists c, getitem content (e - 1) = Some c /\ is_page_break c = false.
Proof.
  induction fuel as [| fuel IH]; intros e0 He0 Hf e He.
  - assert (e0 = len content) by lia. subst e0.
    rewrite adjust_end_at_end in He. simpl in He. lia.
  - cbn [adjust_end] in He. destruct (e0 <? len content) eqn:E.
    + apply Z.ltb_lt in E.
      destruct (getitem_in_range content (e0 - 1)) as [c Hc]; [lia |].
      rewrite Hc in He. destruct (is_page_break c) eqn:B; [simpl in He; lia |].
      destruct (Z.eq_dec e e0) as [-> | Hne]; [now exists c |].
      apply (IH (e0 + 1)); lia.
    + simpl in He. lia.
Qed.

Lemma split_loop_least (size : Z) (content : str) (fuel : nat) :
  1 <= size ->
  forall start ps,
    0 <= start <= len content ->
    split_loop size content start fuel = (ps, Finished) ->
    Forall (fun p =>
              Z.min (fst p + size) (len content) <= snd p
              /\ forall e, Z.min (fst p + size) (len content) <= e < snd p ->
                           exists c, getitem content (e - 1) = Some c
                                     /\ is_page_break c = false) ps.
Proof.
  intros Hsize. induction fuel as [| fuel IH]; intros start ps Hs H.
  - simpl in H. destruct (start <? len content); inversion H. constructor.
  - cbn [split_loop] in H. destruct (start <? len content) eqn:E;
      [| inversion H; constructor].
    apply Z.ltb_lt in E.
    set (e0 := Z.min (start + size) (len content)) in *.
    destruct (adjust_end_spec content (Z.to_nat (len content - e0)) e0)
      as (e' & H1 & H2 & _); [lia | lia |].
    pose proof (adjust_end_least content (Z.to_nat (len content - e0)) e0
                  ltac:(lia) ltac:(lia)) as Hleast.
    rewrite H1 in H, Hleast. simpl fst in Hleast.
    destruct (split_loop size content e' fuel) as [ps' en] eqn:S1.
    inversion H; subst ps en. constructor.
    + simpl fst. simpl snd. fold e0. split; [lia | exact Hleast].
    + apply (IH e'); [lia | exact S1].
Qed.

(** X4. For a viewport size of at least one, a page ends at the first offset
    from its start plus the viewport size on that comes right after a break
    character, or at the end of the content: every page but the last holds
    at least as many characters as the viewport size, the characters before
    the offsets that a longer page passes are no break characters, and a
    content without a break character is one page, whatever its length. *)
Theorem page_ends_are_least (b : MarkdownFileBrowser) :
  1 <= viewport_size b ->
  exists ps,
    _split_pages b = Returns tt (set_viewport_pages ps b)
    /\ (forall p, In p ps ->
          (snd p < len (_page_content b) -> fst p + viewport_size b <= snd p)
          /\ forall e, fst p + viewport_size b <= e < snd p ->
                       exists c, getitem (_page_content b) (e - 1) = Some c
                                 /\ is_page_break c = false)
    /\ (_page_content b <> [] ->
        (forall c, In c (_page_content b) -> is_page_break c = false) ->
        ps = [(0, len (_page_content b))]).
Proof.
  intros Hsize.
  destruct (_split_pages_spec b Hsize) as (ps & E & Hne & Hc & Hnil & Hfull).
  exists ps. split; [exact E | split].
  - intros p Hp.
    assert (Hleast : Z.min (fst p + viewport_size b) (len (_page_content b)) <= snd p
                     /\ forall e, Z.min (fst p + viewport_size b)
                                    (len (_page_content b)) <= e < snd p ->
                                  exists c, getitem (_page_content b) (e - 1) = Some c
                                            /\ is_page_break c = false).
    { destruct (_page_content b) as [| c0 content] eqn:Ec.
      - rewrite (Hnil eq_refl) in Hp. destruct Hp as [<- | []].
        simpl. split; [unfold len; simpl; lia | intros e He; unfold len in He; simpl in He; lia].
      - unfold _split_pages in E. rewrite Ec in E.
        destruct (len (c0 :: content) =? 0) eqn:E0;
          [apply Z.eqb_eq in E0; rewrite len_cons in E0;
           pose proof (len_nonneg content); lia |].
        destruct (split_loop (viewport_size b) (c0 :: content) 0 _)
          as [ps' en] eqn:S1.
        destruct en; try discriminate. inversion E; subst ps'.
        assert (H0 : 0 <= 0 <= len (c0 :: content))
          by (pose proof (len_nonneg (c0 :: content)); lia).
        pose proof (split_loop_least _ _ _ Hsize 0 ps H0 S1) as F.
        rewrite Forall_forall in F. exact (F p Hp). }
    destruct Hleast as [L1 L2].
    destruct (contiguous_after _ _ _ _ Hc Hp) as [_ Hend].
    split.
    + intros Hlt. lia.
    + intros e He. apply L2. lia.
  - intros Hcont Hnobreak. destruct (Hfull Hcont) as (Hpos & Hsafe & _).
    destruct ps as [| [a e] ps]; [contradiction |].
    destruct Hc as (-> & _ & Hr).
    inversion Hsafe as [| ? ? Hs1 _]; subst.
    assert (e = len (_page_content b)) as ->.
    { destruct Hs1 as [H | (c & Hg & Hb)]; [exact H |]. simpl in Hg.
      assert (In c (_page_content b)).
      { unfold getitem in Hg.
        destruct (0 <=? e - 1); [now apply nth_error_In in Hg |].
        destruct (- len (_page_content b) <=? e - 1);
          [now apply nth_error_In in Hg | discriminate]. }
      rewrite (Hnobreak c H) in Hb. discriminate. }
    destruct ps as [| [a2 e2] ps]; [reflexivity |].
    exfalso. destruct Hr as (-> & _ & Hr2).
    inversion Hpos as [| ? ? _ Hpos']; subst.
    inversion Hpos' as [| ? ? Hlt _]; subst. simpl in Hlt.
    pose proof (contiguous_le _ _ _ Hr2). lia.
Qed.

Lemma page_ends_are_least_witness :
  exists ps,
    _split_pages (browser_with 3 (lit "abcdefgh") [])
    = Returns tt (set_viewport_pages ps (browser_with 3 (lit "abcdefgh") []))
    /\ ps = [(0, 8)].
Proof.
  destruct (page_ends_are_least (browser_with 3 (lit "abcdefgh") []))
    as (ps & E & _ & H).
  - simpl. lia.
  - exists ps. split; [exact E |]. apply H.
    + simpl. discriminate.
    + intros c Hc. simpl in Hc.
      repeat (destruct Hc as [<- | Hc]; [reflexivity |]). contradiction.
Defined.

(** ** Further properties: opening a path *)

Lemma getitem_last {A : Type} (l : list A) (x : A) : getitem (l ++ [x]) (-1) = Some x.
Proof.
  unfold getitem. destruct (0 <=? -1) eqn:E0; [discriminate E0 |].
  assert (E : len (l ++ [x]) = Z.of_nat (List.length l) + 1)
    by (unfold len; rewrite length_app; simpl; lia).
  rewrite E.
  destruct (- (Z.of_nat (List.length l) + 1) <=? -1) eqn:E1;
    [| apply Z.leb_gt in E1; lia].
  replace (Z.to_nat (Z.of_nat (List.length l) + 1 + -1)) with (List.length l) by lia.
  rewrite nth_error_app2 by apply Nat.le_refl. now rewrite Nat.sub_diag.
Qed.

(** The [path] property is the path of the last entry of the history. *)
Lemma path_of_history (w : World) (b : MarkdownFileBrowser)
    (h : list (str * timestamp)) (rp : str) (t : timestamp) :
  history b = h ++ [(rp, t)] -> path w b = rp.
Proof.
  intros H. unfold path. rewrite H, getitem_last.
  destruct (len (h ++ [(rp, t)]) =? 0) eqn:E; [| reflexivity].
  apply Z.eqb_eq in E. rewrite len_app in E. pose proof (len_nonneg h).
  change (len [(rp, t)]) with 1 in E. lia.
Qed.

(** How [set_path] goes on after [_open_path]. *)
Lemma set_path_run (w : World) (p : str) (b : MarkdownFileBrowser) :
  set_path w p b
  = match _open_path w (resolve w b p)
            (set_history (history b ++ [(resolve w b p, time_time w)]) b)
    with
    | Returns _ b2 =>
        Returns tt (set_find_on_page_viewport None
                      (set_find_on_page_query None
                         (set_viewport_current_page 0 b2)))
    | Raises e b2 => Raises e b2
    | Diverges => Diverges
    end.
Proof.
  unfold set_path. unfold bind at 1. unfold assign at 1. unfold bind at 1.
  destruct (_open_path _ _ _); reflexivity.
Qed.

(** X5. Opening a directory whose listing the converter accepts returns the
    whole converted text as the viewport, for every viewport size: the
    content is not paginated, its single page spans it, the title is the
    converter's, page 0 is current and the path is appended to the
    history. *)
Theorem open_directory (w : World) (p : str) (b : MarkdownFileBrowser)
    (listing : str) (title : option str) (text : str) :
  isdir w (resolve w b p) = true ->
  _fetch_local_dir w (resolve w b p) = inr listing ->
  convert_stream w listing = inr (title, text) ->
  exists b',
    open_path w p b = Returns text b'
    /\ viewport_pages b' = [(0, len text)]
    /\ _page_content b' = text
    /\ page_title b' = title
    /\ viewport_current_page b' = 0
    /\ history b' = history b ++ [(resolve w b p, time_time w)].
Proof.
  intros Hdir Hfetch Hconv.
  set (rp := resolve w b p) in *.
  set (b1 := set_history (history b ++ [(rp, time_time w)]) b).
  assert (Eopen : exists b3,
             _open_path w rp b1 = Returns tt b3
             /\ viewport_pages b3 = [(0, len text)]
             /\ _page_content b3 = text
             /\ page_title b3 = title
             /\ history b3 = history b1).
  { unfold _open_path, try_except, convert_path. rewrite Hdir, Hfetch.
    unfold bind at 1. cbn [call]. unfold ret at 1. unfold bind at 1.
    rewrite Hconv. cbn [call]. unfold ret at 1. cbn [fst snd].
    unfold bind at 1. unfold assign at 1.
    unfold _set_page_content, bind, assign, ret.
    cbn [viewport_current_page viewport_pages _page_content set_viewport_pages
         set__page_content set_page_title].
    destruct (_ >=? _); eexists; (split; [reflexivity | simpl; auto]). }
  destruct Eopen as (b3 & Eopen & Hp & Hc & Ht & Hh).
  eexists. split.
  - unfold open_path, bind. rewrite set_path_run. fold rp. fold b1. rewrite Eopen.
    unfold viewport.
    cbn [viewport_pages viewport_current_page _page_content
         set_find_on_page_viewport set_find_on_page_query
         set_viewport_current_page].
    rewrite Hp, Hc. change (getitem [(0, len text)] 0) with (Some (0, len text)).
    cbv iota beta. now rewrite slice_all.
  - cbn [page_title _page_content history viewport_current_page viewport_pages
         set_find_on_page_viewport set_find_on_page_query
         set_viewport_current_page].
    rewrite Hp, Hc, Ht, Hh. simpl. auto.
Qed.

Lemma open_directory_witness :
  exists b',
    open_path listing_world (lit "/data") (browser_with 4 [] [])
    = Returns (lit "# Index of /data") b'
    /\ viewport_pages b' = [(0, 16)].
Proof.
  destruct (open_directory listing_world (lit "/data") (browser_with 4 [] [])
              (lit "# Index of /data") (Some (lit "Index")) (lit "# Index of /data"))
    as (b' & E & Hp & _); [reflexivity | reflexivity | reflexivity |].
  exists b'. split; [exact E | exact Hp].
Defined.

(** What [open_path] does once [_open_path] has set a title and paginated a
    content, for a viewport size of at least one. *)
Lemma open_path_titled (w : World) (p : str) (b : MarkdownFileBrowser)
    (title : option str) (text : str) :
  1 <= viewport_size b ->
  _open_path w (resolve w b p)
    (set_history (history b ++ [(resolve w b p, time_time w)]) b)
  = (assign (set_page_title title) ;; _set_page_content text true)
      (set_history (history b ++ [(resolve w b p, time_time w)]) b) ->
  exists v b' ps,
    open_path w p b = Returns v b'
    /\ page_title b' = title
    /\ _page_content b' = text
    /\ viewport_pages b' = ps
    /\ _split_pages (browser_with (viewport_size b) text [])
       = Returns tt (browser_with (viewport_size b) text ps)
    /\ viewport_current_page b' = 0
    /\ history b' = history b ++ [(resolve w b p, time_time w)]
    /\ _find_on_page_query b' = _find_on_page_query b
    /\ _find_on_page_last_result b' = _find_on_page_last_result b
    /\ (exists rest, text = v ++ rest)
    /\ (len text <= viewport_size b -> v = text).
Proof.
  intros Hsize Hopen.
  set (rp := resolve w b p) in *.
  set (b1 := set_history (history b ++ [(rp, time_time w)]) b) in *.
  set (b2 := set_page_title title b1).
  destruct (_set_page_content_paginates text b2 Hsize)
    as (ps & b3 & E3 & Esplit & Hc & Hp & Ht & Hh).
  assert (Eopen : _open_path w rp b1 = Returns tt b3).
  { rewrite Hopen. unfold bind at 1. unfold assign at 1. exact E3. }
  destruct (_split_pages_spec (set__page_content text b2) Hsize)
    as (ps' & E' & Hne & Hcont & Hnil & _).
  rewrite Esplit in E'. inversion E' as [Eps]. subst ps'. clear E'.
  cbn [_page_content set__page_content] in Hcont, Hnil.
  pose proof (_set_page_content_untouched text true b2) as Hu.
  rewrite E3 in Hu. destruct Hu as (_ & Hq & Hl & _).
  assert (Esp : _split_pages (browser_with (viewport_size b) text [])
                = Returns tt (browser_with (viewport_size b) text ps)).
  { revert Esplit. unfold _split_pages.
    cbn [_page_content viewport_size set__page_content browser_with].
    destruct (len text =? 0).
    - intros H. inversion H. reflexivity.
    - change (viewport_size b2) with (viewport_size b).
      destruct (split_loop (viewport_size b) text 0 _) as [ps1 [| x |]];
        try discriminate.
      intros H. inversion H. reflexivity. }
  destruct ps as [| [lo hi] ps]; [contradiction |].
  destruct Hcont as (Hlo & _). subst lo.
  exists (slice text 0 hi),
    (set_find_on_page_viewport None
       (set_find_on_page_query None (set_viewport_current_page 0 b3))),
    ((0, hi) :: ps).
  split.
  { unfold open_path, bind. rewrite set_path_run. fold rp. fold b1.
    rewrite Eopen. unfold viewport.
    cbn [viewport_pages viewport_current_page _page_content
         set_find_on_page_viewport set_find_on_page_query
         set_viewport_current_page].
    rewrite Hp, Hc. reflexivity. }
  cbn [page_title _page_content history viewport_current_page viewport_pages
       _find_on_page_query _find_on_page_last_result
       set_find_on_page_viewport set_find_on_page_query
       set_viewport_current_page].
  rewrite Ht, Hc, Hh, Hp, Hq, Hl.
  repeat (split; [first [reflexivity | exact Esp] |]).
  split; [apply slice_prefix |].
  intros Hfit. destruct text as [| c0 text'] eqn:Et.
  - unfold slice. now rewrite skipn_nil, firstn_nil.
  - assert (Hnonempty : _page_content (set__page_content (c0 :: text') b2) <> [])
      by (simpl; discriminate).
    pose proof (_split_pages_single (set__page_content (c0 :: text') b2)
                  Hnonempty Hfit) as Esingle.
    rewrite Esplit in Esingle. inversion Esingle as [[Ehi Eps]].
    cbn [_page_content set__page_content]. apply slice_all.
Qed.





(** X8. When the converter raises any other exception for the resolved path,
    [open_path] raises it, whatever the viewport size.  The path is already
    appended to the history, and nothing else is assigned: the title, the
    content, the pages and the page index are those of the document opened
    before, while the [path] property gives the path that failed. *)
Theorem open_raises (w : World) (p : str) (b : MarkdownFileBrowser) (e : exn) :
  loader_outcome w (resolve w b p) = inl e ->
  e <> UnsupportedFormatException ->
  e <> FileConversionException ->
  e <> FileNotFoundError ->
  open_path w p b
  = Raises e (set_history (history b ++ [(resolve w b p, time_time w)]) b)
  /\ forall w',
       path w' (set_history (history b ++ [(resolve w b p, time_time w)]) b)
       = resolve w b p.
Proof.
  intros Hload H1 H2 H3. split.
  - unfold open_path, bind. rewrite set_path_run.
    unfold _open_path, try_except. rewrite (loader_raises w _ e _ Hload).
    destruct e; try contradiction; reflexivity.
  - intros w'. now apply (path_of_history w' _ (history b) _ (time_time w)).
Qed.

Lemma open_raises_witness :
  open_path (world_answering (inl OtherError)) (lit "/locked") stale_demo
  = Raises OtherError
      (set_history (history stale_demo ++ [(lit "/locked", 0)]) stale_demo).
Proof.
  apply (open_raises (world_answering (inl OtherError)) (lit "/locked") stale_demo
           OtherError); [reflexivity | discriminate | discriminate | discriminate].
Defined.

(** X9. A path that is not absolute is resolved against the path that
    [open_path] was called with last, whether that call returned a document
    or a placeholder page or raised: the [path] property gives that path,
    and the next path is joined to its directory when it is a file, to the
    path itself when it is a directory, and is taken as it is otherwise. *)
Theorem relative_path_base (w w' : World) (p q : str) (b : MarkdownFileBrowser) :
  isabs w' (expanduser w' q) = false ->
  comes_back_with
    (fun b1 =>
       path w' b1 = resolve w b p
       /\ resolve w' b1 q
          = if isfile w' (resolve w b p)
            then abspath w' (path_join w' (dirname w' (resolve w b p)) (expanduser w' q))
            else if isdir w' (resolve w b p)
                 then abspath w' (path_join w' (resolve w b p) (expanduser w' q))
                 else expanduser w' q)
    (open_path w p b).
Proof.
  intros Hrel.
  assert (Q : forall b1, history b1 = history b ++ [(resolve w b p, time_time w)] ->
                         path w' b1 = resolve w b p
                         /\ resolve w' b1 q
                            = if isfile w' (resolve w b p)
                              then abspath w'
                                     (path_join w' (dirname w' (resolve w b p))
                                        (expanduser w' q))
                              else if isdir w' (resolve w b p)
                                   then abspath w'
                                          (path_join w' (resolve w b p) (expanduser w' q))
                                   else expanduser w' q).
  { intros b1 Hh. pose proof (path_of_history w' b1 _ _ _ Hh) as Hp.
    split; [exact Hp |]. unfold resolve at 1. rewrite Hrel, Hp. reflexivity. }
  pose proof (set_path_appends w p b) as Happ.
  unfold open_path, bind.
  destruct (set_path w p b) as [[] b1 | e b1 |]; [| apply Q, Happ | exact I].
  unfold viewport. destruct (getitem _ _) as [[lo hi] |]; apply Q, Happ.
Qed.

Lemma relative_path_base_witness :
  exists v b1,
    open_path docs_world (lit "/docs/a.txt") (browser_with 5120 [] []) = Returns v b1
    /\ resolve docs_world b1 (lit "b.txt") = lit "/docs/b.txt".
Proof.
  pose proof (relative_path_base docs_world docs_world (lit "/docs/a.txt")
                (lit "b.txt") (browser_with 5120 [] []) eq_refl) as H.
  destruct (open_path docs_world (lit "/docs/a.txt") (browser_with 5120 [] []))
    as [v b1 | e b1 |] eqn:E; [| discriminate E | discriminate E].
  exists v, b1. split; [reflexivity |].
  destruct H as [_ H]. exact H.
Defined.

(** X10. When the constructor returns, the history holds one entry: the
    path that [set_path] resolves the working directory to, with the time
    of the call; it is the working directory itself when that is absolute
    and [expanduser] leaves it as it is.  The [path] property gives that
    entry and page 0 of its listing is current, but the content is empty
    again: the viewport is the empty text, whatever the listing was, and no
    search is active, so that [find_next] returns no match and changes
    nothing. *)
Theorem constructor_state (w : World) (size : Z) (b : MarkdownFileBrowser)
    (unicode_word : char -> bool) (unicode_lower : char -> str) :
  __init__ w size = Returns tt b ->
  viewport b = Returns [] b
  /\ _page_content b = []
  /\ viewport_current_page b = 0
  /\ history b = [(resolve w (browser_with size [] []) (getcwd w), time_time w)]
  /\ (forall w', path w' b = resolve w (browser_with size [] []) (getcwd w))
  /\ (expanduser w (getcwd w) = getcwd w ->
      isabs w (getcwd w) = true ->
      history b = [(getcwd w, time_time w)] /\ forall w', path w' b = getcwd w)
  /\ find_next unicode_word unicode_lower b = Returns None b.
Proof.
  intros H.
  set (b0 := browser_with size [] []) in *.
  pose proof (set_path_in_bounds w (getcwd w) b0) as Hin.
  pose proof (set_path_appends w (getcwd w) b0) as Happ.
  unfold __init__ in H.
  change (mkBrowser size [] None 0 [] [] None None None None) with b0 in H.
  unfold bind at 1 in H.
  destruct (set_path w (getcwd w) b0) as [[] b1 | e b1 |]; try discriminate.
  destruct (Hin b1 eq_refl) as [Hcur Hb]. destruct Happ as (Hh & _).
  unfold bind, assign in H. inversion H; subst b. clear H.
  unfold in_bounds in Hb.
  destruct (getitem_in_range (viewport_pages b1) 0 ltac:(lia)) as [[lo hi] Hg].
  cbn [history app b0 browser_with] in Hh.
  assert (Hhist : history (set__find_on_page_last_result None
                             (set__find_on_page_query None
                                (set__page_content [] b1)))
                  = [(resolve w b0 (getcwd w), time_time w)]) by exact Hh.
  assert (Hpath : forall w',
             path w' (set__find_on_page_last_result None
                        (set__find_on_page_query None (set__page_content [] b1)))
             = resolve w b0 (getcwd w)).
  { intros w'. apply (path_of_history w' _ [] _ (time_time w)). exact Hhist. }
  split; [| split; [reflexivity | split; [exact Hcur | split; [exact Hhist |
          split; [exact Hpath | split; [| reflexivity]]]]]].
  - unfold viewport. simpl. rewrite Hcur, Hg.
    unfold slice. now rewrite skipn_nil, firstn_nil.
  - intros He Ha.
    assert (Hr : resolve w b0 (getcwd w) = getcwd w)
      by (unfold resolve; rewrite He, Ha; reflexivity).
    split; [rewrite Hhist, Hr; reflexivity | intros w'; rewrite Hpath; exact Hr].
Qed.

Lemma constructor_state_witness :
  exists b,
    __init__ new_text_world 5120 = Returns tt b
    /\ viewport b = Returns [] b
    /\ history b = [(lit "/", 0)].
Proof.
  eexists. split; [reflexivity |].
  pose proof (constructor_state new_text_world 5120 _ no_unicode_word no_unicode_lower
                eq_refl) as (Hv & _ & _ & _ & _ & Hcwd & _).
  split; [exact Hv | exact (proj1 (Hcwd eq_refl eq_refl))].
Defined.

(** ** Further properties: search *)

Lemma set_last_result_same (b : MarkdownFileBrowser) :
  set__find_on_page_last_result (_find_on_page_last_result b) b = b.
Proof. destruct b. reflexivity. Qed.

Lemma set_last_result_none (b : MarkdownFileBrowser) :
  _find_on_page_last_result b = None -> set__find_on_page_last_result None b = b.
Proof. intros H. rewrite <- H. apply set_last_result_same. Qed.

Lemma set_query_same (b : MarkdownFileBrowser) :
  set__find_on_page_query (_find_on_page_query b) b = b.
Proof. destruct b. reflexivity. Qed.

Section SearchMore.

Variable unicode_word : char -> bool.
Variable unicode_lower : char -> str.

Local Abbreviation find_next := (find_next unicode_word unicode_lower).
Local Abbreviation find_on_page := (find_on_page unicode_word unicode_lower).
Local Abbreviation _find_next_viewport := (_find_next_viewport unicode_word unicode_lower).
Local Abbreviation normalize_query := (normalize_query unicode_word unicode_lower).
Local Abbreviation normalize_content := (normalize_content unicode_word unicode_lower).
Local Abbreviation page_hit := (page_hit unicode_word unicode_lower).
Local Abbreviation page_matches := (page_matches unicode_word unicode_lower).
Local Abbreviation page_passed := (page_passed unicode_word unicode_lower).
Local Abbreviation find_next_calls := (find_next_calls unicode_word unicode_lower).
Local Abbreviation then_find_next := (then_find_next unicode_word unicode_lower).

Lemma scan_pages_same (b0 b : MarkdownFileBrowser) (nq : str) (l : list Z) :
  viewport_pages b = viewport_pages b0 ->
  _page_content b = _page_content b0 ->
  scan_pages unicode_word unicode_lower b nq l
  = scan_pages unicode_word unicode_lower b0 nq l.
Proof.
  intros H1 H2. induction l as [| i l IH]; [reflexivity |].
  cbn [scan_pages]. rewrite H1, H2, IH. reflexivity.
Qed.

(** The loop of [_find_next_viewport] ends without a match exactly when it
    passes every page of its list. *)
Lemma scan_pages_none (b : MarkdownFileBrowser) (nq : str) (l : list Z) :
  scan_pages unicode_word unicode_lower b nq l = inr None
  <-> forall i, In i l -> page_passed b nq i.
Proof.
  induction l as [| i l IH]; cbn [scan_pages].
  - split; [intros _ i [] | reflexivity].
  - unfold page_passed.
    destruct (getitem (viewport_pages b) i) as [[lo hi] |] eqn:Hg.
    + destruct (re_search nq (normalize_content (slice (_page_content b) lo hi)))
        as [[|] |] eqn:Hs.
      * split; [discriminate |]. intros H.
        destruct (H i (or_introl eq_refl)) as (lo' & hi' & Hg' & Hs').
        rewrite Hg in Hg'. inversion Hg'; subst. rewrite Hs in Hs'. discriminate.
      * rewrite IH. split.
        -- intros H x [<- | Hx]; [now exists lo, hi | now apply H].
        -- intros H x Hx. apply H. now right.
      * split; [discriminate |]. intros H.
        destruct (H i (or_introl eq_refl)) as (lo' & hi' & Hg' & Hs').
        rewrite Hg in Hg'. inversion Hg'; subst. rewrite Hs in Hs'. discriminate.
    + split; [discriminate |]. intros H.
      destruct (H i (or_introl eq_refl)) as (lo' & hi' & Hg' & _).
      rewrite Hg in Hg'. discriminate.
Qed.

(** A search that returns no match has a blank pattern or has passed every
    page, and has only cleared the remembered page. *)
Lemma _find_next_viewport_none (q : str) (start : Z) (b : MarkdownFileBrowser)
    (r : option Z) :
  0 <= start <= len (viewport_pages b) ->
  _find_next_viewport (Some q) start b = Returns r b ->
  match r with
  | None =>
      str_eqb (strip (normalize_query q)) [] = true
      \/ forall i, 0 <= i < len (viewport_pages b) -> page_passed b (normalize_query q) i
  | Some j => 0 <= j < len (viewport_pages b)
  end.
Proof.
  intros Hs H. destruct r as [j |].
  - exact (_find_next_viewport_in_range unicode_word unicode_lower _ _ _ _ Hs H).
  - unfold _find_next_viewport in H.
    destruct (str_eqb (strip (normalize_query q)) []); [now left | right].
    destruct (scan_pages _ _ _ _ _) as [e | [j |]] eqn:E; try discriminate.
    intros i Hi. apply (proj1 (scan_pages_none _ _ _) E). now apply In_idxs.
Qed.

Lemma _find_next_viewport_quiet (q : str) (start : Z) (b : MarkdownFileBrowser) :
  0 <= start <= len (viewport_pages b) ->
  str_eqb (strip (normalize_query q)) [] = true
  \/ (forall i, 0 <= i < len (viewport_pages b) -> page_passed b (normalize_query q) i) ->
  _find_next_viewport (Some q) start b = Returns None b.
Proof.
  intros Hs H. unfold _find_next_viewport.
  destruct (str_eqb (strip (normalize_query q)) []) eqn:E; [reflexivity |].
  destruct H as [H | H]; [discriminate |].
  rewrite (proj2 (scan_pages_none b (normalize_query q)
                    (idxs start (len (viewport_pages b))))); [reflexivity |].
  intros i Hi. apply H. now apply In_idxs in Hi.
Qed.

Lemma go_to_match_none (m : option Z) (b b1 : MarkdownFileBrowser) :
  (forall j, m = Some j -> 0 <= j < len (viewport_pages b)) ->
  go_to_match m b = Returns None b1 ->
  m = None /\ b1 = set__find_on_page_last_result None b.
Proof.
  intros Hm. destruct m as [j |].
  - unfold go_to_match, bind, assign, ret, viewport.
    cbn [viewport_pages viewport_current_page set__find_on_page_last_result
         set_viewport_current_page].
    destruct (getitem_in_range (viewport_pages b) j (Hm j eq_refl)) as [[lo hi] ->].
    discriminate.
  - unfold go_to_match, bind, assign, ret. intros H. inversion H. auto.
Qed.

(** X11. In a well-formed state, when [find_on_page] returns no match, the
    page index is as before, the query is remembered and no page is; a
    [find_next] call or the same [find_on_page] call right after it returns
    no match again and leaves that state as it is. *)
Theorem no_match_is_stable (q : str) (b b1 : MarkdownFileBrowser) :
  well_formed b ->
  find_on_page q b = Returns None b1 ->
  viewport_current_page b1 = viewport_current_page b
  /\ _find_on_page_query b1 = Some q
  /\ _find_on_page_last_result b1 = None
  /\ find_next b1 = Returns None b1
  /\ find_on_page q b1 = Returns None b1.
Proof.
  intros [Hb Hr] H. unfold in_bounds in Hb.
  assert (Core : exists b', b1 = set__find_on_page_last_result None b'
                            /\ _find_on_page_query b' = Some q
                            /\ viewport_pages b' = viewport_pages b
                            /\ _page_content b' = _page_content b
                            /\ viewport_current_page b' = viewport_current_page b
                            /\ (str_eqb (strip (normalize_query q)) [] = true
                                \/ forall i, 0 <= i < len (viewport_pages b) ->
                                             page_passed b (normalize_query q) i)).
  { unfold find_on_page in H.
    destruct (same_query q (_find_on_page_query b)
              && same_page (viewport_current_page b) (_find_on_page_last_result b))
      eqn:E.
    - apply andb_true_iff in E. destruct E as [E1 _].
      unfold same_query in E1.
      destruct (_find_on_page_query b) as [q' |] eqn:Hq; [| discriminate].
      apply str_eqb_eq in E1. subst q'.
      unfold find_next in H. rewrite Hq in H. unfold bind in H.
      assert (Hs : 0 <= starting_viewport b <= len (viewport_pages b))
        by (pose proof (starting_viewport_range b Hr ltac:(lia)); lia).
      destruct (_find_next_viewport_reads unicode_word unicode_lower
                  (Some q) (starting_viewport b) b) as [[r Hv] | [e Hv]];
        rewrite Hv in H; [| discriminate].
      pose proof (_find_next_viewport_none q _ b r Hs Hv) as Hn.
      destruct (go_to_match_none r b b1) as [-> ->];
        [intros j ->; exact Hn | exact H |].
      exists b. auto 10.
    - unfold bind, assign in H.
      set (b0 := set__find_on_page_query (Some q) b) in *.
      change (viewport_current_page b) with (viewport_current_page b0) in H.
      assert (Hs : 0 <= viewport_current_page b0 <= len (viewport_pages b0))
        by (simpl; lia).
      destruct (_find_next_viewport_reads unicode_word unicode_lower
                  (Some q) (viewport_current_page b0) b0) as [[r Hv] | [e Hv]];
        rewrite Hv in H; [| discriminate].
      pose proof (_find_next_viewport_none q _ b0 r Hs Hv) as Hn.
      destruct (go_to_match_none r b0 b1) as [-> ->];
        [intros j ->; exact Hn | exact H |].
      exists b0. repeat (split; [reflexivity |]). exact Hn. }
  destruct Core as (b' & -> & Hq & Hp & Hc & Hcur & Hquiet).
  set (b1 := set__find_on_page_last_result None b').
  assert (Hquiet1 : str_eqb (strip (normalize_query q)) [] = true
                    \/ forall i, 0 <= i < len (viewport_pages b1) ->
                                 page_passed b1 (normalize_query q) i).
  { destruct Hquiet as [H1 | H1]; [now left | right].
    intros i Hi. unfold page_passed. simpl. rewrite Hp, Hc.
    apply H1. simpl in Hi. now rewrite Hp in Hi. }
  split; [exact Hcur | split; [exact Hq | split; [reflexivity | split]]].
  - unfold find_next. change (_find_on_page_query b1) with (_find_on_page_query b').
    rewrite Hq. unfold bind.
    rewrite (_find_next_viewport_quiet q (starting_viewport b1) b1);
      [| unfold starting_viewport; simpl; pose proof (len_nonneg (viewport_pages b')); lia
       | exact Hquiet1].
    unfold go_to_match, bind, assign, ret.
    now rewrite (set_last_result_none b1 eq_refl).
  - unfold find_on_page.
    change (_find_on_page_query b1) with (_find_on_page_query b').
    rewrite Hq. change (_find_on_page_last_result b1) with (@None Z).
    unfold same_page. rewrite andb_false_r.
    unfold bind, assign.
    assert (Eq : set__find_on_page_query (Some q) b1 = b1).
    { rewrite <- Hq. change (_find_on_page_query b') with (_find_on_page_query b1).
      apply set_query_same. }
    rewrite Eq.
    rewrite (_find_next_viewport_quiet q (viewport_current_page b1) b1);
      [| simpl; rewrite Hcur, Hp; lia | exact Hquiet1].
    unfold go_to_match, bind, assign, ret.
    now rewrite (set_last_result_none b1 eq_refl).
Qed.

(** X12. A [find_on_page] call that does not repeat the search before it
    scans from the current page on, that page included, and wraps: when the
    query matches some page, the call moves to the first matching page of
    that order and returns its text; when the current page matches, it
    stays there. *)
Theorem find_on_page_first_match (q : str) (b : MarkdownFileBrowser) (i : Z) :
  in_bounds b ->
  same_query q (_find_on_page_query b)
  && same_page (viewport_current_page b) (_find_on_page_last_result b) = false ->
  0 <= i < len (viewport_pages b) ->
  page_matches q b i = true ->
  let order := idxs (viewport_current_page b) (len (viewport_pages b)) in
  exists j v before after,
    find_on_page q b
    = Returns (Some v) (moved_to j (set__find_on_page_query (Some q) b))
    /\ viewport (moved_to j (set__find_on_page_query (Some q) b))
       = Returns v (moved_to j (set__find_on_page_query (Some q) b))
    /\ hd_error order = Some (viewport_current_page b)
    /\ order = before ++ j :: after
    /\ (forall x, In x before -> page_matches q b x = false)
    /\ page_matches q b j = true
    /\ (page_matches q b (viewport_current_page b) = true ->
        j = viewport_current_page b).
Proof.
  intros Hb Hnew Hi Hm order. unfold in_bounds in Hb. subst order.
  destruct (page_matches_true unicode_word unicode_lower _ _ _ Hm) as [Hne Hhit].
  destruct (find_idxs_some (page_hit b (normalize_query q))
              (len (viewport_pages b)) (viewport_current_page b) i)
    as (j & Hf & Hj & Hjhit); [lia | lia | assumption |].
  destruct (find_on_page_moves unicode_word unicode_lower q b j Hnew Hne
              ltac:(lia) Hf) as (lo & hi & Hg & Hfn).
  destruct (find_split _ _ _ Hf) as (before & after & Ho & _ & Hbefore).
  exists j, (slice (_page_content b) lo hi), before, after.
  split; [exact Hfn | split; [| split; [| split; [exact Ho | split; [| split]]]]].
  - unfold viewport. simpl. now rewrite Hg.
  - apply hd_idxs. lia.
  - intros x Hx.
    rewrite (page_matches_hit unicode_word unicode_lower) by assumption.
    now apply Hbefore.
  - now rewrite (page_matches_hit unicode_word unicode_lower).
  - intros Hcur.
    rewrite (page_matches_hit unicode_word unicode_lower) in Hcur by assumption.
    unfold idxs in Hf. rewrite range_cons in Hf by lia. simpl in Hf.
    rewrite Hcur in Hf. now inversion Hf.
Qed.

(** X13. While the active query matches page [p] and the remembered page, if
    any, is not negative, repeated [find_next] calls reach page [p] within
    as many calls as there are pages: the search leaves out no matching
    page. *)
Theorem find_next_reaches_every_match (q : str) (b : MarkdownFileBrowser) (p : Z) :
  _find_on_page_query b = Some q ->
  (forall r, _find_on_page_last_result b = Some r -> 0 <= r) ->
  0 <= p < len (viewport_pages b) ->
  page_matches q b p = true ->
  exists k,
    (1 <= k)%nat /\ Z.of_nat k <= len (viewport_pages b)
    /\ exists v b',
        find_next_calls k b = Returns (Some v) b'
        /\ viewport_current_page b' = p.
Proof.
  intros Hq Hr Hp Hm.
  destruct (page_matches_true unicode_word unicode_lower _ _ _ Hm) as [Hne Hhit].
  assert (Hs : searching q b b) by (unfold searching; auto).
  set (n := len (viewport_pages b)) in *.
  assert (Near : forall j, _find_on_page_last_result b = Some j -> j < n ->
                           exists k, (1 <= k)%nat /\ Z.of_nat k <= n
                                     /\ exists v b',
                                         find_next_calls k b = Returns (Some v) b'
                                         /\ viewport_current_page b' = p).
  { intros j Hl Hj. specialize (Hr j Hl).
    destruct (find_next_calls_revisit unicode_word unicode_lower q b p Hp Hm
                (Z.to_nat n) b None j Hs Hl ltac:(lia))
      as (k & Hk & v & b' & E & R1 & _).
    - pose proof (steps_to_bounds n j p ltac:(lia) Hp). fold n. lia.
    - exists k. split; [lia | split; [lia |]]. exists v, b'.
      rewrite <- (iter_then_find_next unicode_word unicode_lower k None b) by lia.
      auto. }
  assert (Hstart : _find_on_page_last_result b = None
                   \/ (exists j, _find_on_page_last_result b = Some j /\ n <= j)
                   \/ exists j, _find_on_page_last_result b = Some j /\ j < n).
  { destruct (_find_on_page_last_result b) as [j |]; [| now left].
    right. destruct (Z_lt_ge_dec j n); [right | left]; exists j; split; auto; lia. }
  assert (Far : starting_viewport b = 0 ->
                exists k, (1 <= k)%nat /\ Z.of_nat k <= n
                          /\ exists v b',
                              find_next_calls k b = Returns (Some v) b'
                              /\ viewport_current_page b' = p).
  { intros Hsv.
    pose proof (find_range (page_hit b (normalize_query q)) n (Z.to_nat (n - 0))
                  0 eq_refl) as Hfr.
    destruct (find (page_hit b (normalize_query q)) (range 0 n)) as [j1 |] eqn:Hf1;
      [| rewrite (Hfr p Hp) in Hhit; discriminate].
    destruct Hfr as (Hj1 & Hhit1 & Hmin).
    assert (Hf : find (page_hit b (normalize_query q))
                   (idxs (starting_viewport b) (len (viewport_pages b))) = Some j1)
      by (rewrite Hsv; unfold idxs; fold n; rewrite find_app_first, Hf1; reflexivity).
    assert (Hs0 : 0 <= starting_viewport b <= len (viewport_pages b))
      by (rewrite Hsv; fold n; lia).
    destruct (find_next_moves unicode_word unicode_lower q b j1 Hq Hne Hs0 Hf)
      as (lo & hi & _ & Hfn).
    assert (Hle : j1 <= p).
    { destruct (Z_lt_ge_dec p j1) as [L | G]; [| lia].
      rewrite (Hmin p) in Hhit by lia. discriminate. }
    destruct (Z.eq_dec j1 p) as [-> | Hneq].
    - exists 1%nat. split; [lia | split; [lia |]].
      exists (slice (_page_content b) lo hi), (moved_to p b).
      split; [unfold find_next_calls; simpl; exact Hfn | reflexivity].
    - destruct (find_next_calls_revisit unicode_word unicode_lower q b p Hp Hm
                  (Z.to_nat (n - 1)) (moved_to j1 b)
                  (Some (slice (_page_content b) lo hi)) j1)
        as (k & Hk & v & b' & E & R1 & _).
      + now apply searching_moved.
      + reflexivity.
      + fold n. lia.
      + unfold steps_to. fold n. destruct (j1 <? p) eqn:E; [lia |].
        apply Z.ltb_ge in E. lia.
      + exists (S k). split; [lia | split; [lia |]]. exists v, b'.
        split; [| exact R1].
        unfold find_next_calls. rewrite Nat.iter_succ_r. simpl. rewrite Hfn.
        exact E. }
  destruct Hstart as [Hl | [(j & Hl & Hj) | (j & Hl & Hj)]].
  - apply Far. unfold starting_viewport. now rewrite Hl.
  - apply Far. unfold starting_viewport. rewrite Hl. fold n.
    destruct (j + 1 >=? n) eqn:E; [reflexivity | lia].
  - exact (Near j Hl Hj).
Qed.

End SearchMore.

Lemma no_match_is_stable_witness :
  exists b1,
    find_on_page no_unicode_word no_unicode_lower (lit "zebra") hello_demo
    = Returns None b1
    /\ find_next no_unicode_word no_unicode_lower b1 = Returns None b1.
Proof.
  eexists. split; [reflexivity |].
  refine (proj1 (proj2 (proj2 (proj2
            (no_match_is_stable no_unicode_word no_unicode_lower (lit "zebra")
               hello_demo _ _ _))))).
  - split; [unfold in_bounds; simpl; lia | intros r H; discriminate H].
  - reflexivity.
Defined.

Lemma find_on_page_first_match_witness :
  exists v,
    find_on_page no_unicode_word no_unicode_lower (lit "bb") search_demo
    = Returns (Some v)
        (moved_to 1 (set__find_on_page_query (Some (lit "bb")) search_demo)).
Proof.
  destruct (find_on_page_first_match no_unicode_word no_unicode_lower (lit "bb")
              search_demo 1)
    as (j & v & before & after & E & _ & _ & Ho & Hbefore & Hj & _).
  - unfold in_bounds. simpl. lia.
  - reflexivity.
  - unfold len. simpl. lia.
  - reflexivity.
  - exists v.
    assert (Hj1 : j = 1).
    { destruct before as [| x0 [| x1 before]].
      - injection Ho as Ho _. subst j. discriminate Hj.
      - injection Ho as _ Ho _. now subst j.
      - injection Ho as _ Ho1 Ho2.
        specialize (Hbefore x1 (or_intror (or_introl eq_refl))).
        subst x1. discriminate Hbefore. }
    rewrite Hj1 in E. exact E.
Defined.

Lemma find_next_reaches_every_match_witness :
  exists k v b',
    find_next_calls no_unicode_word no_unicode_lower k found_demo
    = Returns (Some v) b'
    /\ viewport_current_page b' = 2.
Proof.
  destruct (find_next_reaches_every_match no_unicode_word no_unicode_lower (lit "aa")
              found_demo 2) as (k & _ & _ & v & b' & E & Hp).
  - reflexivity.
  - intros r H. injection H as <-. lia.
  - unfold len. simpl. lia.
  - reflexivity.
  - exists k, v, b'. split; [exact E | exact Hp].
Defined.

(** ** Further properties: the search does not raise *)

Lemma starred_compiles (p : str) : starred p -> re_compile p <> None.
Proof.
  induction 1 as [| c p Hc Hp IH | p Hp IH].
  - discriminate.
  - cbn [re_compile]. destruct (N.eqb_spec c 42) as [E | _]; [contradiction |].
    destruct p as [| c' rest]; [discriminate |].
    destruct (N.eqb_spec c' 42) as [-> | _].
    + inversion Hp; subst; contradiction.
    + destruct (re_compile (c' :: rest)); [discriminate | contradiction].
  - change (re_compile (46%N :: 42%N :: p))
      with (option_map (cons (Star (atom_of 46%N))) (re_compile p)).
    destruct (re_compile p); [discriminate | contradiction].
Qed.

Lemma starred_app (l p : str) :
  Forall (fun c => c <> 42%N) l -> starred p -> starred (l ++ p).
Proof.
  intros Hl Hp. induction Hl as [| c l Hc _ IH]; [exact Hp |].
  now apply starred_char.
Qed.

Lemma replace_from_Forall (P : char -> Prop) (old new s : str) :
  Forall P new -> Forall P s ->
  forall skip, Forall P (replace_from old new s skip).
Proof.
  intros Hn Hs. induction Hs as [| c s Hc _ IH]; intros skip; [constructor |].
  cbn [replace_from]. destruct skip as [| k]; [| apply IH].
  destruct (startswith (c :: s) old).
  - apply Forall_app. split; [exact Hn | apply IH].
  - constructor; [exact Hc | apply IH].
Qed.

Lemma replace_from_starred (old s : str) :
  Forall (fun c => c <> 42%N) s ->
  forall skip, starred (replace_from old (lit ".*") s skip).
Proof.
  intros Hs. induction Hs as [| c s Hc _ IH]; intros skip; [constructor |].
  cbn [replace_from]. destruct skip as [| k]; [| apply IH].
  destruct (startswith (c :: s) old).
  - apply starred_any, IH.
  - apply starred_char; [exact Hc | apply IH].
Qed.

Section SearchReturns.

Variable unicode_word : char -> bool.
Variable unicode_lower : char -> str.
Hypothesis unicode_lower_star : lower_keeps_stars unicode_lower.

Lemma lower_char_star (c : char) :
  c <> 42%N -> Forall (fun x => x <> 42%N) (lower_char unicode_lower c).
Proof.
  intros Hc. unfold lower_char.
  destruct ((65 <=? c) && (c <=? 90))%N eqn:U.
  - apply andb_true_iff in U. destruct U as [U _]. apply N.leb_le in U.
    constructor; [lia | constructor].
  - destruct (N.ltb_spec c 128) as [L | G].
    + constructor; [exact Hc | constructor].
    + apply Forall_forall. intros x Hx ->. exact (unicode_lower_star c G Hx).
Qed.

Lemma lower_starred (p : str) : starred p -> starred (lower unicode_lower p).
Proof.
  induction 1 as [| c p Hc Hp IH | p Hp IH].
  - constructor.
  - change (lower unicode_lower (c :: p))
      with (lower_char unicode_lower c ++ lower unicode_lower p).
    apply starred_app; [now apply lower_char_star | exact IH].
  - change (lower unicode_lower (46%N :: 42%N :: p))
      with (46%N :: 42%N :: lower unicode_lower p).
    now apply starred_any.
Qed.

(** The pattern of every query compiles. *)
Lemma normalize_query_compiles (q : str) :
  re_compile (normalize_query unicode_word unicode_lower q) <> None.
Proof.
  apply starred_compiles. unfold normalize_query. apply lower_starred.
  unfold replace. apply replace_from_starred.
  assert (Hw : forall c, is_word unicode_word c = true \/ c = 32%N -> c <> 42%N).
  { intros c [H | H] ->; discriminate H. }
  apply replace_from_Forall.
  - repeat constructor; discriminate.
  - apply Forall_app. split; [repeat constructor; discriminate |].
    apply Forall_app. split; [| repeat constructor; discriminate].
    unfold strip. apply rstrip_Forall, lstrip_Forall.
    eapply Forall_impl; [exact Hw | apply collapse_chars].
Qed.

Lemma _find_next_viewport_returns (q : str) (start : Z) (b : MarkdownFileBrowser) :
  0 <= start <= len (viewport_pages b) ->
  exists r,
    _find_next_viewport unicode_word unicode_lower (Some q) start b = Returns r b
    /\ forall j, r = Some j -> 0 <= j < len (viewport_pages b).
Proof.
  intros Hs. unfold _find_next_viewport.
  destruct (str_eqb _ _); [exists None; split; [reflexivity | discriminate] |].
  rewrite scan_pages_find.
  - eexists. split; [reflexivity |]. intros j Hj.
    apply find_some in Hj. destruct Hj as [Hj _]. now apply In_idxs in Hj.
  - apply normalize_query_compiles.
  - intros i Hi. now apply In_idxs in Hi.
Qed.

Lemma go_to_match_returns (m : option Z) (b : MarkdownFileBrowser) :
  (forall j, m = Some j -> 0 <= j < len (viewport_pages b)) ->
  exists r b', go_to_match m b = Returns r b'
               /\ (r = None <-> m = None)
               /\ (forall j, m = Some j -> viewport_current_page b' = j).
Proof.
  intros Hm. destruct m as [j |].
  - destruct (getitem_in_range (viewport_pages b) j (Hm j eq_refl)) as [[lo hi] Hg].
    unfold go_to_match, bind, assign, ret, viewport.
    cbn [viewport_pages viewport_current_page set__find_on_page_last_result
         set_viewport_current_page].
    rewrite Hg. eexists _, _. split; [reflexivity |].
    split; [split; discriminate | intros j' H; now inversion H].
  - unfold go_to_match, bind, assign, ret. eexists _, _.
    split; [reflexivity | split; [tauto | discriminate]].
Qed.

(** X14. In a well-formed state, [find_on_page] and [find_next] return for
    every query: the pattern that is made of a query always compiles, so
    that no text of a query makes the search raise, and the state is
    well-formed again (given that [str.lower] yields no [*]). *)
Theorem search_never_raises (q : str) (b : MarkdownFileBrowser) :
  well_formed b ->
  re_compile (normalize_query unicode_word unicode_lower q) <> None
  /\ (exists r b', find_on_page unicode_word unicode_lower q b = Returns r b'
                   /\ well_formed b')
  /\ (exists r b', find_next unicode_word unicode_lower b = Returns r b'
                   /\ well_formed b').
Proof.
  intros Hwf. pose proof Hwf as [Hb Hr]. unfold in_bounds in Hb.
  split; [apply normalize_query_compiles |].
  assert (Hnext : exists r b', find_next unicode_word unicode_lower b = Returns r b'
                               /\ well_formed b').
  { pose proof (find_next_well_formed unicode_word unicode_lower b Hwf) as Hk.
    unfold find_next in *.
    destruct (_find_on_page_query b) as [q' |]; [| now exists None, b].
    unfold bind in *.
    destruct (_find_next_viewport_returns q' (starting_viewport b) b) as (r & E & Hj).
    { pose proof (starting_viewport_range b Hr ltac:(lia)). lia. }
    rewrite E in *.
    destruct (go_to_match_returns r b Hj) as (v & b' & Eg & _).
    rewrite Eg in *. now exists v, b'. }
  split; [| exact Hnext].
  pose proof (find_on_page_well_formed unicode_word unicode_lower q b Hwf) as Hk.
  unfold find_on_page in *.
  destruct (same_query _ _ && same_page _ _); [exact Hnext |].
  unfold bind, assign in *.
  destruct (_find_next_viewport_returns q (viewport_current_page b)
              (set__find_on_page_query (Some q) b)) as (r & E & Hj);
    [simpl; lia |].
  rewrite E in *.
  destruct (go_to_match_returns r _ Hj) as (v & b' & Eg & _).
  rewrite Eg in *. now exists v, b'.
Qed.

End SearchReturns.

Lemma search_never_raises_witness :
  exists r b',
    find_on_page no_unicode_word no_unicode_lower (lit "**(a|b") search_demo
    = Returns r b'.
Proof.
  destruct (search_never_raises no_unicode_word no_unicode_lower) with
    (q := lit "**(a|b") (b := search_demo) as (_ & (r & b' & E & _) & _).
  - intros c Hc [E | []]. lia.
  - split; [unfold in_bounds; simpl; lia | discriminate].
  - now exists r, b'.
Defined.

(** ** Further properties: the search ignores the case of the content *)

Lemma slice_map {A B : Type} (f : A -> B) (l : list A) (a b : Z) :
  slice (map f l) a b = map f (slice l a b).
Proof.
  unfold slice, len. rewrite length_map, skipn_map, firstn_map. reflexivity.
Qed.

Section CharMap.

Variable unicode_word : char -> bool.
Variable unicode_lower : char -> str.

(** A change of characters that [\w], [str.isspace] and [str.lower] do not
    see. *)
Variable f : char -> char.
Hypothesis f_word : forall c, is_word unicode_word (f c) = is_word unicode_word c.
Hypothesis f_space : forall c, isspace (f c) = isspace c.
Hypothesis f_lower :
  forall c, lower_char unicode_lower (f c) = lower_char unicode_lower c.

Lemma lower_map (s : str) : lower unicode_lower (map f s) = lower unicode_lower s.
Proof.
  unfold lower. induction s as [| c s IH]; [reflexivity |].
  cbn [map flat_map]. now rewrite f_lower, IH.
Qed.

Lemma lstrip_map (s : str) : lstrip (map f s) = map f (lstrip s).
Proof.
  induction s as [| c s IH]; [reflexivity |].
  cbn [map lstrip]. rewrite f_space. destruct (isspace c); [exact IH | reflexivity].
Qed.

Lemma strip_map (s : str) : strip (map f s) = map f (strip s).
Proof.
  unfold strip, rstrip. now rewrite lstrip_map, <- map_rev, lstrip_map, map_rev.
Qed.

Lemma cons_head_map (c : char) (parts : list str) :
  cons_head (f c) (map (map f) parts) = map (map f) (cons_head c parts).
Proof. destruct parts; reflexivity. Qed.

Lemma re_split_W_map (s : str) :
  re_split_W unicode_word (map f s) = map (map f) (re_split_W unicode_word s).
Proof.
  induction s as [| c s IH]; [reflexivity |].
  cbn [map re_split_W]. rewrite f_word.
  destruct (is_word unicode_word c).
  - now rewrite IH, cons_head_map.
  - destruct s as [| c' s']; [reflexivity |].
    cbn [map] in *. rewrite f_word.
    destruct (is_word unicode_word c'); now rewrite IH.
Qed.

Lemma join_map (sep : str) (parts : list str) :
  join (map f sep) (map (map f) parts) = map f (join sep parts).
Proof.
  induction parts as [| p parts IH]; [reflexivity |].
  destruct parts as [| p' parts']; [reflexivity |].
  change (join (map f sep) (map (map f) (p :: p' :: parts')))
    with (map f p ++ map f sep ++ join (map f sep) (map (map f) (p' :: parts'))).
  rewrite IH.
  change (join sep (p :: p' :: parts')) with (p ++ sep ++ join sep (p' :: parts')).
  now rewrite !map_app.
Qed.

(** The text that [_find_next_viewport] searches is the same. *)
Lemma normalize_content_map (s : str) :
  f 32%N = 32%N ->
  normalize_content unicode_word unicode_lower (map f s)
  = normalize_content unicode_word unicode_lower s.
Proof.
  intros Hsp. unfold normalize_content, collapse.
  rewrite re_split_W_map.
  replace (lit " ") with (map f (lit " ")) at 2 by (cbn; now rewrite Hsp).
  rewrite join_map, strip_map, lower_map. reflexivity.
Qed.

Lemma scan_pages_map (b : MarkdownFileBrowser) (nq : str) (l : list Z) :
  f 32%N = 32%N ->
  scan_pages unicode_word unicode_lower (with_content (map f) b) nq l
  = scan_pages unicode_word unicode_lower b nq l.
Proof.
  intros Hsp. induction l as [| i l IH]; [reflexivity |].
  cbn [scan_pages]. cbn [with_content viewport_pages _page_content set__page_content].
  destruct (getitem (viewport_pages b) i) as [[lo hi] |]; [| reflexivity].
  rewrite slice_map, (normalize_content_map _ Hsp), IH. reflexivity.
Qed.

Lemma page_matches_map (q : str) (b : MarkdownFileBrowser) (i : Z) :
  f 32%N = 32%N ->
  page_matches unicode_word unicode_lower q (with_content (map f) b) i
  = page_matches unicode_word unicode_lower q b i.
Proof.
  intros Hsp. unfold page_matches, page_hit.
  cbn [with_content viewport_pages _page_content set__page_content].
  destruct (getitem (viewport_pages b) i) as [[lo hi] |]; [| reflexivity].
  now rewrite slice_map, (normalize_content_map _ Hsp).
Qed.

Lemma go_to_match_map (m : option Z) (b : MarkdownFileBrowser) :
  agree_under (map f) (go_to_match m b) (go_to_match m (with_content (map f) b)).
Proof.
  destruct m as [j |]; unfold go_to_match, bind, assign, ret, viewport, agree_under.
  - cbn [with_content viewport_pages viewport_current_page _page_content
         set__page_content set__find_on_page_last_result set_viewport_current_page].
    destruct (getitem (viewport_pages b) j) as [[lo hi] |].
    + rewrite slice_map. split; reflexivity.
    + split; reflexivity.
  - split; reflexivity.
Qed.

Lemma find_next_map (b : MarkdownFileBrowser) :
  f 32%N = 32%N ->
  agree_under (map f) (find_next unicode_word unicode_lower b)
    (find_next unicode_word unicode_lower (with_content (map f) b)).
Proof.
  intros Hsp. unfold find_next.
  change (_find_on_page_query (with_content (map f) b)) with (_find_on_page_query b).
  destruct (_find_on_page_query b) as [q |]; [| split; reflexivity].
  unfold bind, _find_next_viewport.
  change (starting_viewport (with_content (map f) b)) with (starting_viewport b).
  change (viewport_pages (with_content (map f) b)) with (viewport_pages b).
  destruct (str_eqb (strip (normalize_query unicode_word unicode_lower q)) []).
  - apply go_to_match_map.
  - rewrite (scan_pages_map _ _ _ Hsp).
    destruct (scan_pages _ _ _ _ _) as [e | r].
    + split; reflexivity.
    + apply go_to_match_map.
Qed.

Lemma find_on_page_map (q : str) (b : MarkdownFileBrowser) :
  f 32%N = 32%N ->
  agree_under (map f) (find_on_page unicode_word unicode_lower q b)
    (find_on_page unicode_word unicode_lower q (with_content (map f) b)).
Proof.
  intros Hsp. unfold find_on_page.
  change (_find_on_page_query (with_content (map f) b)) with (_find_on_page_query b).
  change (_find_on_page_last_result (with_content (map f) b))
    with (_find_on_page_last_result b).
  change (viewport_current_page (with_content (map f) b))
    with (viewport_current_page b).
  destruct (same_query q (_find_on_page_query b)
            && same_page (viewport_current_page b) (_find_on_page_last_result b)).
  - now apply find_next_map.
  - unfold bind, assign, _find_next_viewport.
    change (set__find_on_page_query (Some q) (with_content (map f) b))
      with (with_content (map f) (set__find_on_page_query (Some q) b)).
    set (b0 := set__find_on_page_query (Some q) b).
    change (viewport_pages (with_content (map f) b0)) with (viewport_pages b0).
    destruct (str_eqb (strip (normalize_query unicode_word unicode_lower q)) []).
    + apply go_to_match_map.
    + rewrite (scan_pages_map _ _ _ Hsp).
      destruct (scan_pages _ _ _ _ _) as [e | r].
      * split; reflexivity.
      * apply go_to_match_map.
Qed.

End CharMap.

Lemma ascii_upper_cases (c : char) :
  ascii_upper c = c \/ ((97 <= c <= 122)%N /\ ascii_upper c = (c - 32)%N).
Proof.
  unfold ascii_upper.
  destruct ((97 <=? c) && (c <=? 122))%N eqn:E; [right | now left].
  apply andb_true_iff in E. destruct E as [E1 E2].
  apply N.leb_le in E1, E2. split; [lia | reflexivity].
Qed.

Lemma letter_tests (c : char) :
  (97 <= c <= 122)%N ->
  ((c <? 128) = true /\ (c - 32 <? 128) = true
   /\ (65 <=? c - 32) = true /\ (c - 32 <=? 90) = true
   /\ (97 <=? c) = true /\ (c <=? 122) = true
   /\ (c <=? 90) = false /\ c - 32 + 32 = c)%N.
Proof.
  intros H. repeat split;
    first [apply N.ltb_lt; lia | apply N.leb_le; lia | apply N.leb_gt; lia | lia].
Qed.

Lemma letter_not_space (c : char) : (65 <= c <= 122)%N -> isspace c = false.
Proof.
  intros H. unfold isspace.
  repeat (apply orb_false_intro);
    first [ apply N.eqb_neq; lia
          | apply andb_false_iff; first [left; apply N.leb_gt; lia
                                        | right; apply N.leb_gt; lia] ].
Qed.

(** X15. The search ignores the case of the ASCII letters of the content:
    on the document with its letters in upper case, [find_on_page] and
    [find_next] have the outcome that they have on the document itself, with
    the same pages found and the text returned in upper case, and every query
    matches the same pages. *)
Theorem search_ignores_case (unicode_word : char -> bool) (unicode_lower : char -> str)
    (q : str) (b : MarkdownFileBrowser) :
  agree_under (map ascii_upper)
    (find_on_page unicode_word unicode_lower q b)
    (find_on_page unicode_word unicode_lower q (with_content (map ascii_upper) b))
  /\ agree_under (map ascii_upper)
       (find_next unicode_word unicode_lower b)
       (find_next unicode_word unicode_lower (with_content (map ascii_upper) b))
  /\ forall i,
       page_matches unicode_word unicode_lower q (with_content (map ascii_upper) b) i
       = page_matches unicode_word unicode_lower q b i.
Proof.
  assert (Hw : forall c, is_word unicode_word (ascii_upper c) = is_word unicode_word c).
  { intros c. destruct (ascii_upper_cases c) as [-> | [Hc ->]]; [reflexivity |].
    destruct (letter_tests c Hc) as (T1 & T2 & T3 & T4 & T5 & T6 & _).
    unfold is_word, ascii_word. rewrite T1, T2, T3, T4, T5, T6.
    cbn [andb orb]. now rewrite !orb_true_r. }
  assert (Hs : forall c, isspace (ascii_upper c) = isspace c).
  { intros c. destruct (ascii_upper_cases c) as [-> | [Hc ->]]; [reflexivity |].
    rewrite !letter_not_space by lia. reflexivity. }
  assert (Hl : forall c, lower_char unicode_lower (ascii_upper c)
                         = lower_char unicode_lower c).
  { intros c. destruct (ascii_upper_cases c) as [-> | [Hc ->]]; [reflexivity |].
    destruct (letter_tests c Hc) as (T1 & T2 & T3 & T4 & T5 & T6 & T7 & T8).
    unfold lower_char. rewrite T1, T3, T4, T7, T8. cbn [andb].
    now rewrite andb_false_r. }
  split; [| split].
  - now apply find_on_page_map.
  - now apply find_next_map.
  - intros i. now apply page_matches_map.
Qed.

(** ** Further properties: the directory listing *)

Lemma list_entries_spec (fs : Listing.FileSystem) (p : str) (entries : list str) :
  forall acc listing,
    Listing.list_entries fs p entries acc = inr listing
    <-> exists rows,
          Forall2 (fun entry r => Listing.entry_row fs p entry = inr r) entries rows
          /\ listing = acc ++ List.concat rows.
Proof.
  induction entries as [| entry rest IH]; intros acc listing; cbn [Listing.list_entries].
  - split.
    + intros H. inversion H. exists []. split; [constructor | now rewrite app_nil_r].
    + intros (rows & HF & ->). inversion HF. now rewrite app_nil_r.
  - destruct (Listing.entry_row fs p entry) as [e | r] eqn:E.
    + split; [discriminate |]. intros (rows & HF & _). inversion HF; subst.
      congruence.
    + rewrite IH. split.
      * intros (rows & HF & ->). exists (r :: rows).
        split; [now constructor | cbn [List.concat]; now rewrite app_assoc].
      * intros (rows & HF & ->). inversion HF as [| ? r' ? rows' Hr HF']; subst.
        assert (r' = r) by congruence. subst r'.
        exists rows'. split; [exact HF' | cbn [List.concat]; now rewrite app_assoc].
Qed.

(** The loop stops at the first entry for which a call raises. *)
Lemma list_entries_fails (fs : Listing.FileSystem) (p : str) (before : list str) :
  forall acc entry after e,
    Forall (fun x => exists r, Listing.entry_row fs p x = inr r) before ->
    Listing.entry_row fs p entry = inl e ->
    Listing.list_entries fs p (before ++ entry :: after) acc = inl e.
Proof.
  induction before as [| x before IH]; intros acc entry after e HF He.
  - cbn [app Listing.list_entries]. now rewrite He.
  - inversion HF as [| ? ? [r Hr] HF']; subst.
    cbn [app Listing.list_entries]. rewrite Hr. now apply IH.
Qed.

(** X16. The listing of a directory whose entries [os.listdir] gives is made
    exactly when the row of every entry is: it is the header, which names
    the directory, followed by one row for each entry in the order of
    [os.listdir], and nothing else. *)
Theorem listing_rows (fs : Listing.FileSystem) (p : str) (entries : list str)
    (listing : str) :
  Listing.listdir fs p = inr entries ->
  (Listing._fetch_local_dir fs p = inr listing
   <-> exists rows,
         Forall2 (fun entry r => Listing.entry_row fs p entry = inr r) entries rows
         /\ listing = Listing.header p ++ List.concat rows).
Proof.
  intros H. unfold Listing._fetch_local_dir. rewrite H. apply list_entries_spec.
Qed.

Lemma listing_rows_witness :
  Listing._fetch_local_dir data_fs (lit "/data")
  = inr (Listing.header (lit "/data")
         ++ Listing.row (lit "a.txt") (lit "120") (lit "2024-01-01 00:00")
         ++ Listing.row (lit "sub/") [] (lit "2024-01-01 00:00")).
Proof.
  apply (listing_rows data_fs (lit "/data") [lit "a.txt"; lit "sub"]);
    [reflexivity |].
  exists [Listing.row (lit "a.txt") (lit "120") (lit "2024-01-01 00:00");
          Listing.row (lit "sub/") [] (lit "2024-01-01 00:00")].
  split; [repeat constructor | reflexivity].
Defined.

(** X17. The size of a directory is never asked for: the listing, or the
    exception in its place, is the same whatever [os.path.getsize] would
    answer for the entries that are directories. *)
Theorem listing_skips_directory_sizes (fs : Listing.FileSystem)
    (sizes : str -> exn + Z) (p : str) :
  (forall x, Listing.isdir fs x = false -> sizes x = Listing.getsize fs x) ->
  Listing._fetch_local_dir (with_getsize sizes fs) p = Listing._fetch_local_dir fs p.
Proof.
  intros H. unfold Listing._fetch_local_dir.
  change (Listing.listdir (with_getsize sizes fs) p) with (Listing.listdir fs p).
  destruct (Listing.listdir fs p) as [e | entries]; [reflexivity |].
  generalize (Listing.header p). induction entries as [| entry rest IH]; intros acc.
  - reflexivity.
  - cbn [Listing.list_entries].
    assert (E : Listing.entry_row (with_getsize sizes fs) p entry
                = Listing.entry_row fs p entry).
    { unfold Listing.entry_row.
      cbn [with_getsize Listing.path_join Listing.getmtime Listing.isdir
           Listing.sep Listing.getsize].
      destruct (Listing.getmtime fs _); [reflexivity |].
      destruct (Listing.isdir fs _) eqn:Ed; [reflexivity |].
      now rewrite (H _ Ed). }
    rewrite E. destruct (Listing.entry_row fs p entry); [reflexivity | apply IH].
Qed.

Lemma listing_skips_directory_sizes_witness :
  Listing._fetch_local_dir
    (with_getsize (fun x => if Listing.isdir data_fs x then inr 4096
                            else Listing.getsize data_fs x) data_fs)
    (lit "/data")
  = Listing._fetch_local_dir data_fs (lit "/data").
Proof.
  apply (listing_skips_directory_sizes data_fs).
  intros x Hx. now rewrite Hx.
Defined.

(** X18. For a viewport size of at least one, opening a directory in which
    the date of some entry cannot be read because the entry is not found,
    while the rows of the entries before it are made, gives no listing at
    all: [open_path] returns the page "FileNotFoundError", whose text names
    the directory that was opened and not the entry that is missing. *)
Theorem open_directory_with_lost_entry (fs : Listing.FileSystem) (w : World)
    (p : str) (b : MarkdownFileBrowser) (before after : list str) (entry : str) :
  1 <= viewport_size b ->
  Listing.isdir fs (resolve (with_listing fs w) b p) = true ->
  Listing.listdir fs (resolve (with_listing fs w) b p)
  = inr (before ++ entry :: after) ->
  Forall (fun x => exists r,
            Listing.entry_row fs (resolve (with_listing fs w) b p) x = inr r)
    before ->
  Listing.getmtime fs
    (Listing.path_join fs (resolve (with_listing fs w) b p) entry)
  = inl FileNotFoundError ->
  exists v b',
    open_path (with_listing fs w) p b = Returns v b'
    /\ page_title b' = Some (lit "FileNotFoundError")
    /\ _page_content b' = not_found_text (resolve (with_listing fs w) b p)
    /\ (exists rest, _page_content b' = v ++ rest)
    /\ history b'
       = history b ++ [(resolve (with_listing fs w) b p, time_time w)].
Proof.
  intros Hsize Hdir Hlist Hbefore Hlost.
  set (w' := with_listing fs w) in *.
  set (rp := resolve w' b p) in *.
  assert (Hload : loader_outcome w' rp = inl FileNotFoundError).
  { unfold loader_outcome. change (isdir w' rp) with (Listing.isdir fs rp).
    rewrite Hdir. change (_fetch_local_dir w' rp) with (Listing._fetch_local_dir fs rp).
    unfold Listing._fetch_local_dir. rewrite Hlist.
    rewrite (list_entries_fails fs rp before _ entry after FileNotFoundError Hbefore);
      [reflexivity |].
    unfold Listing.entry_row. now rewrite Hlost. }
  destruct (open_path_titled w' p b (Some (lit "FileNotFoundError"))
              (not_found_text rp) Hsize)
    as (v & b' & ps & E & Ht & Hc & _ & _ & _ & Hh & _ & _ & Hpre & _).
  - fold rp. unfold _open_path, try_except.
    now rewrite (loader_raises w' rp FileNotFoundError _ Hload).
  - exists v, b'. rewrite Hc. auto.
Qed.

Lemma open_directory_with_lost_entry_witness :
  exists v b',
    open_path (with_listing lost_entry_fs (world_answering (inl OtherError)))
      (lit "/data") (browser_with 5120 [] [])
    = Returns v b'
    /\ _page_content b' = not_found_text (lit "/data").
Proof.
  destruct (open_directory_with_lost_entry lost_entry_fs
              (world_answering (inl OtherError)) (lit "/data")
              (browser_with 5120 [] []) [lit "a.txt"; lit "sub"] [] (lit "gone"))
    as (v & b' & E & _ & Hc & _).
  - simpl. lia.
  - reflexivity.
  - reflexivity.
  - repeat constructor; eexists; reflexivity.
  - reflexivity.
  - exists v, b'. split; [exact E | exact Hc].
Defined.

(** ** Further properties: the agent *)

Lemma built_browser_sound (w : World) (size : Z) (b : MarkdownFileBrowser) :
  1 <= size -> __init__ w size = Returns tt b ->
  sound b /\ viewport_size b = size /\ _find_on_page_query b = None.
Proof.
  intros Hsize H.
  destruct (init_clears_cursor w size b H) as (Hq & Hl & _ & Hb & Hs).
  split; [| split; [exact Hs | exact Hq]].
  split; [split; [exact Hb | rewrite Hl; discriminate] | rewrite Hs; exact Hsize].
Qed.

Import Agent.

(** X19. An agent that the constructor returns has the name given, an empty
    chat history and a sound browser with a viewport size of 5120 and no
    query. *)
Theorem new_agent_is_sound (w : World) (n : str) (a : FileSurfer) :
  Agent.__init__ w n = Ok tt a ->
  name a = n
  /\ _chat_history a = []
  /\ sound (_browser a)
  /\ viewport_size (_browser a) = 5120
  /\ _find_on_page_query (_browser a) = None.
Proof.
  unfold Agent.__init__. intros H.
  pose proof (built_browser_sound w (1024 * 5)) as Hb.
  destruct (_ w (1024 * 5)) as [[] b | e b |]; try discriminate.
  inversion H; subst a. cbn [name _chat_history _browser].
  split; [reflexivity | split; [reflexivity |]].
  apply Hb; [lia | reflexivity].
Qed.

Lemma new_agent_is_sound_witness :
  exists a,
    Agent.__init__ new_text_world (lit "surfer") = Ok tt a /\ sound (_browser a).
Proof.
  eexists. split; [reflexivity |].
  refine (proj1 (proj2 (proj2
            (new_agent_is_sound new_text_world (lit "surfer") _ eq_refl)))).
Defined.

Lemma set__browser_same (a : FileSurfer) : set__browser (_browser a) a = a.
Proof. destruct a. reflexivity. Qed.

Lemma same_agent_refl (a : FileSurfer) : sound (_browser a) -> same_agent a a.
Proof. unfold same_agent. auto. Qed.

Lemma same_agent_trans (a1 a2 a3 : FileSurfer) :
  same_agent a1 a2 -> same_agent a2 a3 -> same_agent a1 a3.
Proof.
  unfold same_agent. intros (N1 & H1 & _) (N2 & H2 & S).
  split; [congruence | split; [congruence | exact S]].
Qed.

Lemma settles_next {A B : Type} (m : method A) (k : A -> method B) (a : FileSurfer) :
  settles (same_agent a) (m a) ->
  (forall x a1, same_agent a a1 -> settles (same_agent a1) (k x a1)) ->
  settles (same_agent a) (next m k a).
Proof.
  intros Hm Hk. unfold next. destruct (m a) as [x a1 | e a1 | |]; try exact Hm.
  specialize (Hk x a1 Hm). cbn [settles] in Hm.
  destruct (k x a1) as [y a2 | e a2 | |]; try exact Hk;
    exact (same_agent_trans _ _ _ Hm Hk).
Qed.

(** A call of the browser on a sound state comes back in a sound state. *)
Lemma browser_settles {A : Type} (m : M A) (a : FileSurfer) :
  m (_browser a) <> Diverges ->
  comes_back_with sound (m (_browser a)) ->
  settles (same_agent a) (browser m a).
Proof.
  unfold browser. intros Hd Hc.
  destruct (m (_browser a)) as [x b | e b |]; [| | contradiction];
    (split; [reflexivity | split; [reflexivity | exact Hc]]).
Qed.

Lemma subscript_settles (arguments : json) (key : str) (a : FileSurfer) :
  (exists v, subscript arguments key a = Ok v a
             /\ exists get, arguments = Object get /\ get key = Some v)
  \/ exists e, subscript arguments key a = Error e a.
Proof.
  unfold subscript. destruct arguments as [get |]; [| right; now eexists].
  destruct (get key) as [v |] eqn:E; [left | right; now eexists].
  exists v. split; [reflexivity | now exists get].
Qed.

Section AgentProofs.

Variable unicode_word : char -> bool.
Variable unicode_lower : char -> str.
Variable env : Environment.

Local Abbreviation dispatch := (dispatch unicode_word unicode_lower env).
Local Abbreviation run_calls := (run_calls unicode_word unicode_lower env).
Local Abbreviation _generate_reply := (_generate_reply unicode_word unicode_lower env).
Local Abbreviation on_messages := (on_messages unicode_word unicode_lower env).
Local Abbreviation perform := (perform unicode_word unicode_lower).

Lemma perform_settles (c : tool_call) (a : FileSurfer) :
  sound (_browser a) -> settles (same_agent a) (browser (perform c) a).
Proof.
  intros Hs.
  destruct (perform_sound unicode_word unicode_lower c (_browser a) Hs) as [Hd Hc].
  now apply browser_settles.
Qed.

Lemma dispatch_settles (i : nat) (tool_name : str) (arguments : json) (a : FileSurfer) :
  sound (_browser a) ->
  (forall get, arguments = Object get -> get (lit "search_string") <> Some NotStr) ->
  settles (same_agent a) (dispatch i tool_name arguments a).
Proof.
  intros Hs Hq. unfold Agent.dispatch.
  destruct (str_eqb tool_name (lit "open_path")).
  { unfold next.
    destruct (subscript_settles arguments (lit "path") a) as [(v & -> & _) | (e & ->)];
      [| now apply same_agent_refl].
    destruct v as [p |]; [now apply perform_settles | now apply same_agent_refl]. }
  destruct (str_eqb tool_name (lit "page_up")); [now apply perform_settles |].
  destruct (str_eqb tool_name (lit "page_down")); [now apply perform_settles |].
  destruct (str_eqb tool_name (lit "find_on_page_ctrl_f")).
  { unfold next.
    destruct (subscript_settles arguments (lit "search_string") a)
      as [(v & -> & get & -> & Hv) | (e & ->)]; [| now apply same_agent_refl].
    destruct v as [q |]; [now apply perform_settles |].
    now destruct (Hq get eq_refl). }
  destruct (str_eqb tool_name (lit "find_next")); [now apply perform_settles |].
  now apply same_agent_refl.
Qed.

Lemma run_calls_settles (function_calls : list FunctionCall) :
  string_searches env ->
  forall i a, sound (_browser a) ->
    settles (same_agent a) (run_calls i function_calls a).
Proof.
  intros Hq. induction function_calls as [| c rest IH]; intros i a Hs.
  - now apply same_agent_refl.
  - cbn [Agent.run_calls].
    destruct (json_loads env (call_arguments c)) as [e | arguments] eqn:E;
      [now apply same_agent_refl |].
    apply settles_next.
    + apply dispatch_settles; [exact Hs |].
      intros get ->. exact (Hq _ _ E).
    + intros _ a1 (_ & _ & Hs1). now apply IH.
Qed.

Lemma _generate_reply_settles (a : FileSurfer) :
  string_searches env -> sound (_browser a) ->
  settles (same_agent a) (_generate_reply a).
Proof.
  intros Hq Hs. unfold Agent._generate_reply.
  destruct (getitem (_chat_history a) (-1)) as [[task source | text source] |];
    try now apply same_agent_refl.
  destruct (create env _) as [e | [text | function_calls |]];
    try now apply same_agent_refl.
  apply settles_next; [now apply run_calls_settles |].
  intros [error_str |] a1 H1; [apply same_agent_refl; apply H1 |].
  apply settles_next.
  - unfold _get_browser_state. apply settles_next.
    + unfold browser, viewport.
      destruct (getitem _ _) as [[lo hi] |]; rewrite set__browser_same;
        apply same_agent_refl; apply H1.
    + intros v a2 H2. apply same_agent_refl. apply H2.
  - intros st a2 H2. apply same_agent_refl. apply H2.
Qed.

Lemma append_messages_expected (messages : list ChatMessage) :
  Forall expected messages ->
  forall a,
    append_messages messages a
    = Ok tt (set__chat_history (_chat_history a ++ flat_map as_user messages) a).
Proof.
  induction 1 as [| m messages Hm _ IH]; intros a.
  - cbn [append_messages flat_map pure]. rewrite app_nil_r. now destruct a.
  - destruct m as [text source | parts source | shown]; [| | contradiction];
      cbn [append_messages flat_map as_user]; unfold next, append;
      rewrite IH; cbn [_chat_history set__chat_history];
      now rewrite <- app_assoc.
Qed.

(** X20. On an agent whose browser is sound, as the browser is that the
    agent's constructor builds, and with a decoder that gives strings as
    search strings, [on_messages] returns for text and multi-modal
    messages whatever the model client answers or raises: no exception of
    the client or of the browser leaves it, and no call of the browser
    loops.  The chat history grows by one user message for each message and
    by the assistant's reply, which is the text returned, and the browser
    is sound again. *)
Theorem on_messages_always_replies (messages : list ChatMessage) (a : FileSurfer) :
  sound (_browser a) ->
  string_searches env ->
  Forall expected messages ->
  exists content a',
    on_messages messages a = Ok (mkResponse (TextMessage content (name a))) a'
    /\ _chat_history a'
       = _chat_history a ++ flat_map as_user messages
         ++ [AssistantMessage content (name a)]
    /\ name a' = name a
    /\ sound (_browser a').
Proof.
  intros Hs Hq Hm. unfold Agent.on_messages. unfold next at 1.
  rewrite (append_messages_expected messages Hm a).
  set (a0 := set__chat_history _ a).
  pose proof (_generate_reply_settles a0 Hq Hs) as Hr.
  unfold catch. unfold next at 1.
  destruct (_generate_reply a0) as [[flag content] a1 | e a1 | |];
    try contradiction; destruct Hr as (Hn & Hh & Hs1).
  - exists content. eexists. unfold next, append, pure. cbn [snd].
    split; [reflexivity |].
    cbn [_chat_history name _browser set__chat_history].
    rewrite Hh. subst a0. cbn [_chat_history set__chat_history].
    rewrite <- app_assoc. auto.
  - exists (error_text (format_exc env e)). eexists. unfold next, append, pure.
    split; [reflexivity |].
    cbn [_chat_history name _browser set__chat_history].
    rewrite Hh. subst a0. cbn [_chat_history set__chat_history].
    rewrite <- app_assoc. auto.
Qed.

(** X21. A message of another type makes [on_messages] raise ValueError
    with the text of the message, before the model client is asked: the
    messages that stand before it are in the chat history by then, and
    those after it are not looked at. *)
Theorem unexpected_message_raises (before after : list ChatMessage) (shown : str)
    (a : FileSurfer) :
  Forall expected before ->
  on_messages (before ++ OtherMessage shown :: after) a
  = Error (ValueError (unexpected_text shown))
      (set__chat_history (_chat_history a ++ flat_map as_user before) a).
Proof.
  intros Hb. unfold Agent.on_messages. unfold next at 1.
  assert (E : forall a0,
             append_messages (before ++ OtherMessage shown :: after) a0
             = Error (ValueError (unexpected_text shown))
                 (set__chat_history (_chat_history a0 ++ flat_map as_user before) a0)).
  { induction Hb as [| m before Hm _ IH]; intros a0.
    - cbn [app append_messages flat_map throw]. rewrite app_nil_r. now destruct a0.
    - destruct m as [text source | parts source | shown']; [| | contradiction];
        cbn [app append_messages flat_map as_user]; unfold next, append;
        rewrite IH; cbn [_chat_history set__chat_history];
        now rewrite <- app_assoc. }
  now rewrite E.
Qed.

Lemma run_calls_app (before rest : list FunctionCall) :
  forall i a,
    run_calls i (before ++ rest) a
    = match run_calls i before a with
      | Ok None a1 => run_calls (i + List.length before) rest a1
      | r => r
      end.
Proof.
  induction before as [| c before IH]; intros i a.
  - cbn [app Agent.run_calls List.length pure]. now rewrite Nat.add_0_r.
  - cbn [app Agent.run_calls List.length].
    destruct (json_loads env (call_arguments c)); [reflexivity |].
    unfold next. destruct (Agent.dispatch _ _ _ _ _ _ a); try reflexivity.
    rewrite IH. now rewrite Nat.add_succ_comm.
Qed.

(** X22. When the arguments of a function call do not decode, the reply is
    the text of the decoding error and nothing on the state of the browser;
    the calls before it have been carried out, and the browser is as they
    left it, and the calls after it are not. *)
Theorem decode_error_stops (a a1 : FileSurfer) (task : message_content)
    (source e : str) (before after : list FunctionCall) (c : FunctionCall) :
  getitem (_chat_history a) (-1) = Some (UserMessage task source) ->
  create env (messages_for env a task) = inr (FunctionCalls (before ++ c :: after)) ->
  run_calls 0 before a = Ok None a1 ->
  json_loads env (call_arguments c) = inl e ->
  _generate_reply a = Ok (false, decode_error_text e) a1.
Proof.
  intros Hlast Hcreate Hrun He. unfold Agent._generate_reply.
  rewrite Hlast, Hcreate. unfold next at 1.
  rewrite run_calls_app, Hrun. cbn [Agent.run_calls]. rewrite He. reflexivity.
Qed.




(** X24. When the chat history does not end with a user message,
    [on_messages] without a message does not ask the model client: the
    reply is the error text for the IndexError of an empty history or for
    the failed assertion, and it is appended to the history, so that the
    same call fails again. *)
Theorem reply_without_task (a : FileSurfer) :
  (forall task source, getitem (_chat_history a) (-1) <> Some (UserMessage task source)) ->
  exists e,
    (_chat_history a = [] /\ e = Raised IndexError
     \/ _chat_history a <> [] /\ e = AssertionError)
    /\ on_messages [] a
       = Ok (mkResponse (TextMessage (error_text (format_exc env e)) (name a)))
           (set__chat_history
              (_chat_history a ++ [AssistantMessage (error_text (format_exc env e)) (name a)])
              a)
    /\ forall task source,
         getitem (_chat_history a ++ [AssistantMessage (error_text (format_exc env e)) (name a)])
           (-1)
         <> Some (UserMessage task source).
Proof.
  intros Hno.
  assert (Hafter : forall e task source,
             getitem (_chat_history a ++ [AssistantMessage (error_text (format_exc env e)) (name a)])
               (-1)
             <> Some (UserMessage task source))
    by (intros e task source; rewrite getitem_last; discriminate).
  unfold Agent.on_messages, next at 1. cbn [append_messages pure].
  unfold catch, next at 1. unfold Agent._generate_reply.
  destruct (getitem (_chat_history a) (-1)) as [[task source | text source] |] eqn:Hg.
  - now destruct (Hno task source).
  - exists AssertionError. split; [right; split; [| reflexivity] | split; [reflexivity | apply Hafter]].
    intros Hnil. rewrite Hnil in Hg. discriminate Hg.
  - exists (Raised IndexError).
    split; [left; split; [| reflexivity] | split; [reflexivity | apply Hafter]].
    destruct (_chat_history a) as [| m h] eqn:Hh; [reflexivity |].
    destruct (getitem_in_range (m :: h) (len (m :: h) - 1)) as [x Hx];
      [rewrite len_cons; pose proof (len_nonneg h); lia |].
    revert Hg. unfold getitem. cbn [Z.leb Z.compare].
    destruct (- len (m :: h) <=? -1) eqn:E.
    + unfold getitem in Hx.
      destruct (0 <=? len (m :: h) - 1) eqn:E0;
        [| apply Z.leb_gt in E0; rewrite len_cons in E0; pose proof (len_nonneg h); lia].
      replace (len (m :: h) + -1) with (len (m :: h) - 1) by lia.
      rewrite Hx. discriminate.
    + apply Z.leb_gt in E. rewrite len_cons in E. pose proof (len_nonneg h). lia.
Qed.

Lemma slice_but_last {A : Type} (l : list A) (x : A) : slice (l ++ [x]) 0 (-1) = l.
Proof.
  unfold slice, clamp. rewrite len_app. change (len [x]) with 1.
  pose proof (len_nonneg l) as Hl.
  destruct (0 <? 0) eqn:E0; [discriminate E0 |].
  destruct (-1 <? 0) eqn:E1; [| discriminate E1].
  rewrite Z.min_l by lia. rewrite Z.max_r by lia.
  replace (Z.to_nat (len l + 1 + -1 - 0)) with (List.length l) by (unfold len; lia).
  cbn [Z.to_nat skipn]. rewrite firstn_app, Nat.sub_diag, firstn_all.
  cbn [firstn]. apply app_nil_r.
Qed.

(** X25. After the messages are appended, the model client is asked with the
    chat history as it was before the call, the messages but the last, a
    message on the document that is open before the function calls, and the
    last message as the task, be it a text or a multi-modal message: the
    task is sent with its content under the source "user", whoever sent it,
    and the message on the document is not kept in the chat history. *)
Theorem prompt_shape (messages : list ChatMessage) (last : ChatMessage)
    (task : message_content) (source : str) (a : FileSurfer) :
  Forall expected messages ->
  as_user last = [UserMessage task source] ->
  exists a1,
    append_messages (messages ++ [last]) a = Ok tt a1
    /\ _browser a1 = _browser a
    /\ _chat_history a1
       = _chat_history a ++ flat_map as_user messages
         ++ [UserMessage task source]
    /\ getitem (_chat_history a1) (-1) = Some (UserMessage task source)
    /\ messages_for env a1 task
       = _get_compatible_context env
           (_chat_history a ++ flat_map as_user messages
            ++ [UserMessage
                  (Text (context_text (page_title (_browser a))
                           (path (world env 0) (_browser a))))
                  (lit "user");
                UserMessage task (lit "user")]).
Proof.
  intros Hm Hlast.
  assert (Hl : expected last) by (destruct last; [exact I | exact I | discriminate]).
  assert (He : Forall expected (messages ++ [last]))
    by (apply Forall_app; split; [exact Hm | repeat constructor; exact Hl]).
  eexists. split; [apply (append_messages_expected _ He) |].
  cbn [_browser _chat_history set__chat_history].
  rewrite flat_map_app. cbn [flat_map]. rewrite Hlast, app_nil_r.
  split; [reflexivity | split; [reflexivity | split]].
  - rewrite app_assoc. apply getitem_last.
  - unfold messages_for. cbn [_browser _chat_history set__chat_history].
    rewrite (app_assoc (_chat_history a)), slice_but_last, <- app_assoc. reflexivity.
Qed.

End AgentProofs.

(** X26. The names that [_generate_reply] acts on are the names of the five
    tools that it offers to the model: a function call of any other name is
    skipped without an error and without a change, whatever its arguments
    are, and for each of the five names some call raises or changes the
    browser. *)
Theorem offered_tools_are_dispatched (tool_name : str) :
  ~ In tool_name tool_names
  <-> forall unicode_word unicode_lower env i arguments a,
        dispatch unicode_word unicode_lower env i tool_name arguments a = Ok tt a.
Proof.
  split.
  - intros H unicode_word unicode_lower env i arguments a. unfold dispatch.
    assert (Hn : forall n, In n tool_names -> str_eqb tool_name n = false).
    { intros n Hn. destruct (str_eqb tool_name n) eqn:E; [| reflexivity].
      apply str_eqb_eq in E. subst n. contradiction. }
    rewrite !Hn by (unfold tool_names; simpl; tauto). reflexivity.
  - intros H Hin.
    pose (env := demo_env (inr OtherContent)).
    unfold tool_names in Hin. cbn [In] in Hin.
    destruct Hin as [<- | [<- | [<- | [<- | [<- | []]]]]].
    + specialize (H no_unicode_word no_unicode_lower env 0%nat NotObject demo_agent).
      vm_compute in H. discriminate H.
    + specialize (H no_unicode_word no_unicode_lower env 0%nat NotObject demo_agent).
      vm_compute in H. discriminate H.
    + specialize (H no_unicode_word no_unicode_lower env 0%nat NotObject
                    (set__browser (set_viewport_current_page 1 search_demo) demo_agent)).
      vm_compute in H. discriminate H.
    + specialize (H no_unicode_word no_unicode_lower env 0%nat NotObject
                    (set__browser found_demo demo_agent)).
      vm_compute in H. discriminate H.
    + specialize (H no_unicode_word no_unicode_lower env 0%nat NotObject demo_agent).
      vm_compute in H. discriminate H.
Qed.

Lemma on_messages_always_replies_witness :
  exists content a',
    on_messages no_unicode_word no_unicode_lower
      (demo_env (inr (FunctionCalls [page_down_call])))
      [TextMessage (lit "and again") (lit "user")] demo_agent
    = Ok (mkResponse (TextMessage content (lit "surfer"))) a'
    /\ sound (_browser a').
Proof.
  destruct (on_messages_always_replies no_unicode_word no_unicode_lower
              (demo_env (inr (FunctionCalls [page_down_call])))
              [TextMessage (lit "and again") (lit "user")] demo_agent)
    as (content & a' & E & _ & _ & Hs).
  - unfold sound, well_formed, in_bounds. simpl.
    split; [split; [lia | discriminate] | lia].
  - intros s get. simpl. destruct (str_eqb s (lit "{")); [discriminate |].
    intros H. inversion H. discriminate.
  - repeat constructor.
  - exists content, a'. split; [exact E | exact Hs].
Defined.

Lemma unexpected_message_raises_witness :
  on_messages no_unicode_word no_unicode_lower (demo_env (inr OtherContent))
    [TextMessage (lit "first") (lit "user"); OtherMessage (lit "StopMessage");
     TextMessage (lit "last") (lit "user")]
    demo_agent
  = Error (ValueError (unexpected_text (lit "StopMessage")))
      (set__chat_history
         (_chat_history demo_agent ++ [UserMessage (Text (lit "first")) (lit "user")])
         demo_agent).
Proof.
  apply (unexpected_message_raises no_unicode_word no_unicode_lower
           (demo_env (inr OtherContent)) [TextMessage (lit "first") (lit "user")]
           [TextMessage (lit "last") (lit "user")] (lit "StopMessage") demo_agent).
  repeat constructor.
Defined.

Lemma decode_error_stops_witness :
  exists a1,
    _generate_reply no_unicode_word no_unicode_lower
      (demo_env (inr (FunctionCalls [page_down_call; broken_call; page_down_call])))
      demo_agent
    = Ok (false, decode_error_text (lit "Expecting property name")) a1
    /\ viewport_current_page (_browser a1) = 1.
Proof.
  eexists. split.
  - eapply (decode_error_stops no_unicode_word no_unicode_lower
             (demo_env (inr (FunctionCalls [page_down_call; broken_call; page_down_call])))
             demo_agent _ (Text (lit "scroll")) (lit "user")
             (lit "Expecting property name") [page_down_call] [page_down_call]
             broken_call); reflexivity.
  - reflexivity.
Defined.


Lemma reply_without_task_witness :
  exists e,
    on_messages no_unicode_word no_unicode_lower (demo_env (inr OtherContent)) []
      (set__chat_history [] demo_agent)
    = Ok (mkResponse (TextMessage (error_text (lit "Traceback")) (lit "surfer")))
        (set__chat_history [AssistantMessage (error_text (lit "Traceback")) (lit "surfer")]
           demo_agent)
    /\ e = Raised IndexError.
Proof.
  destruct (reply_without_task no_unicode_word no_unicode_lower
              (demo_env (inr OtherContent)) (set__chat_history [] demo_agent))
    as (e & [[_ He] | [Hne _]] & E & _).
  - intros task source. discriminate.
  - exists e. split; [exact E | exact He].
  - now destruct Hne.
Defined.

Lemma prompt_shape_witness :
  messages_for (demo_env (inr OtherContent))
    (set__chat_history
       (_chat_history demo_agent
        ++ [UserMessage (Text (lit "look")) (lit "planner");
            UserMessage (Parts [inl (lit "and again"); inr 7%N]) (lit "planner")])
       demo_agent)
    (Parts [inl (lit "and again"); inr 7%N])
  = [UserMessage (Text (lit "scroll")) (lit "user");
     UserMessage (Text (lit "look")) (lit "planner");
     UserMessage (Text (context_text None (lit "/"))) (lit "user");
     UserMessage (Parts [inl (lit "and again"); inr 7%N]) (lit "user")].
Proof.
  destruct (prompt_shape (demo_env (inr OtherContent))
              [TextMessage (lit "look") (lit "planner")]
              (MultiModalMessage [inl (lit "and again"); inr 7%N] (lit "planner"))
              (Parts [inl (lit "and again"); inr 7%N]) (lit "planner") demo_agent)
    as (a1 & E & _ & _ & _ & Hp).
  - repeat constructor.
  - reflexivity.
  - inversion E; subst a1. exact Hp.
Defined.
